(** * Social scheduler: scheduling and execution engine

    A shallow embedding of the scheduling core of [src/app.js]
    ([SocialSchedulerApp]), of the schedule validators of
    [src/utils/validators.js], of [processContent] of
    [src/services/content-processor.js], of [postToPlatform] of
    [src/services/meta-client.js] and of the retry table of
    [src/config/scheduler.js], together with the properties of the
    specification that concern them.  The second part of the file goes
    on to the code around them: the registry and its tasks, the check of
    the file reader, the text pipeline of the content processor, the
    quota of the platform client, the health status and the drain loop
    of [shutdown].

    Conventions.
    - A JavaScript string is a [string]; its characters stand for the code
      units of the source string.
    - A JavaScript object used as a dictionary is a [gmap string _] of its
      own properties (plus its prototype slot where the code can write it);
      a [Map] is a [gmap].
    - Code that may throw returns a [Result].
    - The collaborators that reach outside the process (file system, image
      library, HTTP client, cron library, clock, random source, time-zone
      database) are parameters; they thread an abstract world state. *)

From Stdlib Require Import ZArith String Ascii List Bool Lia.
From stdpp Require Import base option gmap strings list pretty.

Open Scope string_scope.
Open Scope list_scope.
Open Scope Z_scope.

(* Comparisons of strings are decided by rewriting, not by unfolding. *)
Arguments String.eqb : simpl never.

(* The solvers of stdpp clear hypotheses that are sometimes absent. *)
#[global] Set Warnings "-clear-no-such-hyp".

(** ** Thrown errors *)

Inductive Result (A : Type) : Type :=
| Ok (a : A)
| Throw (message : string).
Arguments Ok {A} a.
Arguments Throw {A} message.

Definition isOk {A} (r : Result A) : bool :=
  match r with Ok _ => true | Throw _ => false end.

(** ** JavaScript truthiness of an optional string property

    [undefined] (a missing property) and the empty string are falsy. *)

Definition truthy (v : option string) : bool :=
  match v with
  | None => false
  | Some s => negb (String.eqb s EmptyString)
  end.

(** [a || b] on an optional string with a string default. *)
Definition orDefault (v : option string) (d : string) : string :=
  match v with
  | Some s => if String.eqb s EmptyString then d else s
  | None => d
  end.

(** ** The [Date] object (ECMAScript, clause "Date Objects")

    A [Date] holds a time value: an integral number of milliseconds since
    the epoch, or [NaN].  The local getters first move the time value to
    local time with the offset of the time zone of the process. *)

Module JsDate.

Inductive Date : Type :=
| InvalidDate
| TimeValue (t : Z).

(** A JavaScript number as the getters return it. *)
Inductive Number : Type :=
| NaN
| Int (n : Z).

Definition toString (n : Number) : string :=
  match n with
  | NaN => "NaN"
  | Int z => pretty z
  end.

Definition msPerMinute : Z := 60000.
Definition msPerHour : Z := 3600000.
Definition msPerDay : Z := 86400000.

Definition Day (t : Z) : Z := t / msPerDay.
Definition HourFromTime (t : Z) : Z := (t / msPerHour) mod 24.
Definition MinFromTime (t : Z) : Z := (t / msPerMinute) mod 60.

Definition DaysInYear (y : Z) : Z :=
  if negb (y mod 4 =? 0) then 365
  else if negb (y mod 100 =? 0) then 366
  else if negb (y mod 400 =? 0) then 365
  else 366.

Definition DayFromYear (y : Z) : Z :=
  365 * (y - 1970) + (y - 1969) / 4 - (y - 1901) / 100 + (y - 1601) / 400.

(** [YearFromTime t] is the largest [y] with [DayFromYear y <= Day t]:
    the mean year has 146097/400 days, which places the year within one
    of the estimate. *)
Definition YearFromDay (d : Z) : Z :=
  let y := 1970 + (400 * d) / 146097 in
  if DayFromYear (y + 1) <=? d then y + 1
  else if DayFromYear y <=? d then y
  else y - 1.

Definition YearFromTime (t : Z) : Z := YearFromDay (Day t).

Definition InLeapYear (t : Z) : Z :=
  if DaysInYear (YearFromTime t) =? 366 then 1 else 0.

Definition DayWithinYear (t : Z) : Z :=
  Day t - DayFromYear (YearFromTime t).

Definition MonthFromTime (t : Z) : Z :=
  let d := DayWithinYear t in
  let l := InLeapYear t in
  if d <? 31 then 0
  else if d <? 59 + l then 1
  else if d <? 90 + l then 2
  else if d <? 120 + l then 3
  else if d <? 151 + l then 4
  else if d <? 181 + l then 5
  else if d <? 212 + l then 6
  else if d <? 243 + l then 7
  else if d <? 273 + l then 8
  else if d <? 304 + l then 9
  else if d <? 334 + l then 10
  else 11.

Definition DateFromTime (t : Z) : Z :=
  let d := DayWithinYear t in
  let l := InLeapYear t in
  match MonthFromTime t with
  | 0 => d + 1
  | 1 => d - 30
  | 2 => d - 58 - l
  | 3 => d - 89 - l
  | 4 => d - 119 - l
  | 5 => d - 150 - l
  | 6 => d - 180 - l
  | 7 => d - 211 - l
  | 8 => d - 242 - l
  | 9 => d - 272 - l
  | 10 => d - 303 - l
  | _ => d - 333 - l
  end.

Section LocalTime.
(** Offset, in milliseconds, of the local time zone of the process at
    the UTC instant [t]. *)
Variable localTZA : Z -> Z.

Definition LocalTime (t : Z) : Z := t + localTZA t.

Definition getter (f : Z -> Z) (d : Date) : Number :=
  match d with
  | InvalidDate => NaN
  | TimeValue t => Int (f (LocalTime t))
  end.

Definition getMinutes : Date -> Number := getter MinFromTime.
Definition getHours : Date -> Number := getter HourFromTime.
Definition getDate : Date -> Number := getter DateFromTime.
Definition getMonth : Date -> Number := getter MonthFromTime.
End LocalTime.

(** [n + 1] on a number. *)
Definition succ (n : Number) : Number :=
  match n with
  | NaN => NaN
  | Int z => Int (z + 1)
  end.

End JsDate.

(** ** Trigger converter: [dateToCron] (app.js)

    The [timezone] parameter (default ['UTC']) is received and not read. *)

Section TriggerConverter.
Variable localTZA : Z -> Z.

Definition dateToCron (date : JsDate.Date) (timezone : option string) : string :=
  let timezone := match timezone with Some z => z | None => "UTC" end in
  let minute := JsDate.getMinutes localTZA date in
  let hour := JsDate.getHours localTZA date in
  let day := JsDate.getDate localTZA date in
  let month := JsDate.succ (JsDate.getMonth localTZA date) in
  JsDate.toString minute +:+ " " +:+ JsDate.toString hour +:+ " " +:+
  JsDate.toString day +:+ " " +:+ JsDate.toString month +:+ " *".
End TriggerConverter.


(** ** Objects used as dictionaries

    [o[k] = v] on an object created by a literal [{}] adds or overwrites the
    own property [k], except for the key [__proto__], whose setter on
    [Object.prototype] replaces the prototype of [o] and creates no own
    property.  [o[k]] reads the own property; the key [__proto__] reads the
    prototype slot.  [Object.values] and [Object.keys] enumerate the own
    properties only. *)

Record JsObject (V : Type) : Type := mkObject {
  own : gmap string V;
  proto : option V;
}.
Arguments mkObject {V} own proto.
Arguments own {V} _.
Arguments proto {V} _.

Definition obj_empty {V} : JsObject V := mkObject ∅ None.

Definition obj_set {V} (k : string) (v : V) (o : JsObject V) : JsObject V :=
  if String.eqb k "__proto__" then mkObject (own o) (Some v)
  else mkObject (<[k := v]> (own o)) (proto o).

Definition obj_get {V} (k : string) (o : JsObject V) : option V :=
  if String.eqb k "__proto__" then proto o else own o !! k.

Definition obj_keys {V} (o : JsObject V) : gset string := dom (own o).

Definition obj_values {V} (o : JsObject V) : list V :=
  snd <$> map_to_list (own o).

(** The property names every object inherits from [Object.prototype]:
    reading one of them from an object that has no such own property gives
    a function or an object, never [undefined]. *)
Definition objectPrototype : list string :=
  ["constructor"; "hasOwnProperty"; "isPrototypeOf"; "propertyIsEnumerable";
   "toLocaleString"; "toString"; "valueOf"; "__proto__"; "__defineGetter__";
   "__defineSetter__"; "__lookupGetter__"; "__lookupSetter__"].

Definition inherited (name : string) : bool :=
  existsb (String.eqb name) objectPrototype.

(** What [platformLimits[platform]] gives, in the validators and in the
    content processor, as far as the length of the text goes. *)
Inductive Limits : Type :=
| NoLimits                       (* [undefined] *)
| Inherited                      (* a property of [Object.prototype] *)
| MaxTextLength (n : Z).

Definition platformLimits (platform : string) : Limits :=
  if String.eqb platform "facebook" then MaxTextLength 63206
  else if String.eqb platform "instagram" then MaxTextLength 2200
  else if inherited platform then Inherited
  else NoLimits.

(** ** Schedule descriptors (content/schedule.json)

    One record serves the post descriptors and the recurring templates: both
    are plain JSON objects read through the same property names.  A property
    is [None] when it is missing (or, for the two array properties, when it
    is not an array). *)

Module Post.

(** An entry of [images]. *)
Inductive image : Type :=
| ImagePath (path : string)
| NotAString.

(** The value of a template variable. *)
Inductive value : Type :=
| VArray (candidates : list string)
| VOther.

Record config : Type := mkConfig {
  id : option string;
  content : option string;
  file : option string;
  platforms : option (list string);
  images : option (list image);
  scheduledTime : option string;
  cronPattern : option string;
  timezone : option string;
  priority : option string;
  variables : option (list (string * value));
}.

Definition set_content (c : option string) (p : config) : config :=
  mkConfig (id p) c (file p) (platforms p) (images p) (scheduledTime p)
           (cronPattern p) (timezone p) (priority p) (variables p).

Definition set_id (i : option string) (p : config) : config :=
  mkConfig i (content p) (file p) (platforms p) (images p) (scheduledTime p)
           (cronPattern p) (timezone p) (priority p) (variables p).

Definition set_priority (l : option string) (p : config) : config :=
  mkConfig (id p) (content p) (file p) (platforms p) (images p)
           (scheduledTime p) (cronPattern p) (timezone p) l (variables p).

End Post.

(** A numeric entry of [settings]. *)
Inductive Setting : Type :=
| Absent
| Num (n : Z)
| NotANumber.

Record Settings : Type := mkSettings {
  settings_timezone : option string;
  retryAttempts : Setting;
  retryDelay : Setting;
}.

Record ScheduleConfig : Type := mkSchedule {
  posts : option (list Post.config);
  recurring : option (list Post.config);
  settings : option Settings;
}.

(** ** Retry table (config/scheduler.js, [retry.errorTypes])

    Delays are in milliseconds; the multiplier is kept as a fraction
    (1.5 = 3/2). *)

Record RetryPolicy : Type := mkRetryPolicy {
  maxAttempts : Z;
  baseDelay : Z;
  maxDelay : Z;
  backoffMultiplier : Z * Z;
}.

Module retry.
Definition rate_limit : RetryPolicy := mkRetryPolicy 5 300000 1800000 (2, 1).
Definition network_error : RetryPolicy := mkRetryPolicy 4 10000 60000 (2, 1).
Definition authentication_error : RetryPolicy := mkRetryPolicy 2 120000 300000 (3, 2).
Definition content_error : RetryPolicy := mkRetryPolicy 1 0 0 (1, 1).

Definition errorTypes (class : string) : option RetryPolicy :=
  if String.eqb class "rate_limit" then Some rate_limit
  else if String.eqb class "network_error" then Some network_error
  else if String.eqb class "authentication_error" then Some authentication_error
  else if String.eqb class "content_error" then Some content_error
  else None.
End retry.

(** ** Validators (utils/validators.js)

    Only the [errors] arrays are kept: [isValid] is [errors.length === 0]
    and the warnings never reach it.  The messages are kept as tags. *)

Module Validators.

Inductive error : Type :=
| ConfigNotObject
| PostsNotArray
| MissingContentOrFile (index : nat)
| MissingScheduledTime (index : nat)
| DateTimeError (index : nat)
| NoPlatform (index : nat)
| PlatformError (index : nat)
| ImageNotString (index imageIndex : nat)
| TextError (index : nat) (platform : string)
| InvalidTimezone
| BadRetryAttempts
| BadRetryDelay.

Definition validPlatforms : list string := ["facebook"; "instagram"].

Definition includes (l : list string) (s : string) : bool :=
  existsb (String.eqb s) l.

(** The libraries the validators consult. *)
Class Libraries : Type := {
  (** [moment.tz.names()] *)
  validTimezones : list string;
  (** [moment.tz(dateTime, format, zone)] over the supported formats: the
      instant of the first format that parses, if any *)
  momentParse : string -> string -> option Z;
  (** [moment()], the instant of the validation *)
  momentNow : Z;
}.

Section Validators.
Context {libraries : Libraries}.

(** [validatePlatforms(platforms).isValid] *)
Definition validatePlatforms (platforms : list string) : bool :=
  match platforms with
  | [] => false
  | _ => match filter (fun p => negb (includes validPlatforms p)) platforms with
         | [] => true
         | _ => false
         end
  end.

(** [validateTextContent(content, platform).isValid] *)
Definition validateTextContent (content platform : string) : bool :=
  if String.eqb content EmptyString then false
  else match platformLimits platform with
       | NoLimits => false
       | Inherited => true
       | MaxTextLength n => negb (n <? Z.of_nat (String.length content))
       end.

(** [validateDateTime(dateTime, timezone).isValid] *)
Definition validateDateTime (dateTime : string) (timezone : option string) : bool :=
  let timezone := match timezone with Some z => z | None => "UTC" end in
  if String.eqb dateTime EmptyString then false
  else
    let zoneError :=
      negb (String.eqb timezone EmptyString) && negb (includes validTimezones timezone) in
    match momentParse dateTime (if String.eqb timezone EmptyString then "UTC" else timezone) with
    | None => false
    | Some momentDate =>
        let pastError := momentDate <? momentNow in
        negb zoneError && negb pastError
    end.

Definition imageErrors (index : nat) (images : list Post.image) : list error :=
  concat (imap (fun imageIndex image =>
                  match image with
                  | Post.ImagePath _ => []
                  | Post.NotAString => [ImageNotString index imageIndex]
                  end) images).

(** [validateSchedulePost(post, index).errors] *)
Definition validateSchedulePost (post : Post.config) (index : nat) : list error :=
  (if negb (truthy (Post.content post)) && negb (truthy (Post.file post))
   then [MissingContentOrFile index] else [])
  ++ (match Post.scheduledTime post with
      | Some time =>
          if String.eqb time EmptyString then [MissingScheduledTime index]
          else if validateDateTime time (Post.timezone post) then []
               else [DateTimeError index]
      | None => [MissingScheduledTime index]
      end)
  ++ (match Post.platforms post with
      | None | Some [] => [NoPlatform index]
      | Some ps => if validatePlatforms ps then [] else [PlatformError index]
      end)
  ++ (match Post.images post with
      | Some images => imageErrors index images
      | None => []
      end)
  ++ (match Post.content post, Post.platforms post with
      | Some content, Some ps =>
          if String.eqb content EmptyString then []
          else concat (map (fun platform =>
                              if validateTextContent content platform then []
                              else [TextError index platform]) ps)
      | _, _ => []
      end).

Definition settingError (s : Setting) (e : error) : list error :=
  match s with
  | Absent => []
  | Num n => if n <? 0 then [e] else []
  | NotANumber => [e]
  end.

(** [validateScheduleSettings(settings).errors] *)
Definition validateScheduleSettings (s : Settings) : list error :=
  (if truthy (settings_timezone s)
      && negb (includes validTimezones (orDefault (settings_timezone s) EmptyString))
   then [InvalidTimezone] else [])
  ++ settingError (retryAttempts s) BadRetryAttempts
  ++ settingError (retryDelay s) BadRetryDelay.

(** [validateScheduleConfig(config).errors] *)
Definition validateScheduleConfig_errors (config : option ScheduleConfig) : list error :=
  match config with
  | None => [ConfigNotObject]
  | Some config =>
      match posts config with
      | None => [PostsNotArray]
      | Some ps =>
          concat (imap (fun index post => validateSchedulePost post index) ps)
          ++ (match settings config with
              | Some s => validateScheduleSettings s
              | None => []
              end)
      end
  end.

(** [validateScheduleConfig(config).isValid] *)
Definition validateScheduleConfig (config : option ScheduleConfig) : bool :=
  Nat.eqb (length (validateScheduleConfig_errors config)) 0.

(** What a post needs beyond the three basic checks. *)
Definition postAccepted (post : Post.config) : Prop :=
  (∃ time, Post.scheduledTime post = Some time
           ∧ validateDateTime time (Post.timezone post) = true)
  ∧ (∀ images, Post.images post = Some images →
               ∀ image, image ∈ images → image ≠ Post.NotAString)
  ∧ (∀ content platforms,
        Post.content post = Some content → content ≠ EmptyString →
        Post.platforms post = Some platforms →
        ∀ platform, platform ∈ platforms →
                    validateTextContent content platform = true).
End Validators.

(** The three basic defects of a post: no platform or a platform that is
    not in the fixed set, neither content nor file, no scheduled time. *)
Definition postDefect (post : Post.config) : bool :=
  (match Post.platforms post with
   | None | Some [] => true
   | Some ps => negb (forallb (includes validPlatforms) ps)
   end)
  || (negb (truthy (Post.content post)) && negb (truthy (Post.file post)))
  || negb (truthy (Post.scheduledTime post)).

End Validators.

(** ** [String.prototype.replace] with a string pattern

    The first occurrence of the pattern is replaced; in the replacement
    text [$$], [$&], [$`] and [$'] are expanded (there are no captures, so
    every other [$] stands for itself). *)

Module JsString.

(** The rest of [s] after its prefix [p]. *)
Fixpoint strip (p s : string) : option string :=
  match p, s with
  | EmptyString, _ => Some s
  | String a p', String b s' => if Ascii.eqb a b then strip p' s' else None
  | String _ _, EmptyString => None
  end.

(** [s] cut around the first occurrence of [p]. *)
Fixpoint splitFirst (p s : string) : option (string * string) :=
  match strip p s with
  | Some after => Some (EmptyString, after)
  | None =>
      match s with
      | EmptyString => None
      | String c s' =>
          match splitFirst p s' with
          | Some (before, after) => Some (String c before, after)
          | None => None
          end
      end
  end.

(** GetSubstitution. *)
Fixpoint substitute (matched before after template : string) : string :=
  match template with
  | EmptyString => EmptyString
  | String c rest =>
      if Ascii.eqb c "$" then
        match rest with
        | String d rest' =>
            if Ascii.eqb d "$" then String "$" (substitute matched before after rest')
            else if Ascii.eqb d "&" then matched +:+ substitute matched before after rest'
            else if Ascii.eqb d "`" then before +:+ substitute matched before after rest'
            else if Ascii.eqb d "'" then after +:+ substitute matched before after rest'
            else String c (substitute matched before after rest)
        | EmptyString => String c EmptyString
        end
      else String c (substitute matched before after rest)
  end.

Definition replace (s pattern replacement : string) : string :=
  match splitFirst pattern s with
  | None => s
  | Some (before, after) =>
      before +:+ substitute pattern before after replacement +:+ after
  end.

(** The replacement a reader of [replace] expects: the text as it is. *)
Definition replaceLiteral (s pattern replacement : string) : string :=
  match splitFirst pattern s with
  | None => s
  | Some (before, after) => before +:+ replacement +:+ after
  end.

Fixpoint contains (c : ascii) (s : string) : bool :=
  match s with
  | EmptyString => false
  | String d s' => Ascii.eqb c d || contains c s'
  end.

(** A replacement text in which GetSubstitution finds nothing to expand:
    no [$] of it is followed by [$], [&], [`] or [']. *)
Fixpoint noExpansion (template : string) : bool :=
  match template with
  | EmptyString => true
  | String c rest =>
      match rest with
      | String d _ =>
          negb (Ascii.eqb c "$"
                && (Ascii.eqb d "$" || Ascii.eqb d "&" || Ascii.eqb d "`"
                    || Ascii.eqb d "'"))
      | EmptyString => true
      end
      && noExpansion rest
  end.

End JsString.


(** ** The application state ([SocialSchedulerApp]) *)

(** What the content processor returns for one platform. *)
Record ProcessedImage : Type := mkImage { processedPath : option string }.

Record PlatformContent : Type := mkPlatformContent {
  pc_content : string;
  pc_images : list ProcessedImage;
}.

(** The argument of [metaClient.postToPlatform]. *)
Record PostData : Type := mkPostData {
  pd_content : string;
  imagePath : option string;
}.

(** An entry of [results]: [{ success: true, ...result }] or
    [{ success: false, error }]. *)
Inductive Outcome : Type :=
| Succeeded (id : string)
| Failed (error : string).

Definition success (o : Outcome) : bool :=
  match o with Succeeded _ => true | Failed _ => false end.

(** The last argument of [logger.jobExecuted]. *)
Inductive JobReport : Type :=
| Results (platforms : list string) (results : JsObject Outcome)
| Error (message : string).

(** What the process does that can be seen from outside: the scheduler
    log and the calls to the platform client. *)
Inductive Event : Type :=
| SchedulingPost (jobId : string) (postId scheduledTime : option string)
                 (cronExpression : string) (platforms : option (list string))
| ScheduleFailed (postId : option string) (message : string)
| SchedulingRecurringPost (jobId : string) (cronPattern : option string)
                          (platforms : option (list string))
| Publish (platform : string) (postData : PostData)
| JobExecuted (jobId : string) (duration : Z) (success : bool)
              (postId : option string) (report : JobReport).

(** The platforms the client was called for, in order. *)
Definition published (events : list Event) : list string :=
  omap (fun e => match e with Publish platform _ => Some platform | _ => None end)
       events.

(** The reports of finished passes, in order. *)
Definition reports (events : list Event) : list (string * bool * JobReport) :=
  omap (fun e => match e with
                 | JobExecuted jobId _ ok _ report => Some (jobId, ok, report)
                 | _ => None
                 end) events.

Inductive JobType : Type := scheduled_post | recurring_post | maintenance.

(** The function handed to [cron.schedule], with what it captures. *)
Inductive Callback : Type :=
| CbExecutePost (jobId : string) (postConfig : Post.config)
| CbExecuteRecurringPost (jobId : string) (recurringConfig : Post.config)
| CbUpdateHealthStatus
| CbLogCleanup.

(** A task object of the cron library. *)
Record ScheduledTask : Type := mkTask {
  expression : option string;
  callback : Callback;
  task_timezone : option string;
  started : bool;
}.

Definition setStarted (b : bool) (t : ScheduledTask) : ScheduledTask :=
  mkTask (expression t) (callback t) (task_timezone t) b.

(** An entry of [cronJobs]; [job] is the handle of the task object. *)
Record JobData : Type := mkJobData {
  job : nat;
  config : option Post.config;
  type : JobType;
}.

(** An entry of [activeJobs]. *)
Record ActiveJob : Type := mkActiveJob {
  startTime : Z;
  active_config : Post.config;
}.

Definition JobType_eqb (a b : JobType) : bool :=
  match a, b with
  | scheduled_post, scheduled_post
  | recurring_post, recurring_post
  | maintenance, maintenance => true
  | _, _ => false
  end.

(** A template literal prints a missing value as [undefined]. *)
Definition interpolate (v : option string) : string :=
  match v with Some s => s | None => "undefined" end.

(** The collaborators of the engine: everything that reaches outside the
    process, over the state [W] of the outside. *)
Class Collaborators (W : Type) : Type := {
  (** [Date.now()] *)
  dateNow : W -> Z * W;
  (** [Math.floor(Math.random() * length)] *)
  randomIndex : nat -> W -> nat * W;
  (** [new Date(value)] *)
  parseDate : option string -> JsDate.Date;
  (** offset of the local time zone of the process *)
  localTZA : Z -> Z;
  (** [schedulerConfig.timezone.default] *)
  defaultTimezone : string;
  (** [cron.schedule] checks the expression and the time zone it is given *)
  cronValidate : option string -> string -> Result unit;
  (** [path.basename] *)
  basename : string -> string;
  (** [(await fileReader.readTextFile(name)).content] *)
  readTextFile : string -> W -> Result string * W;
  (** [contentProcessor.processTextContent(content, platform)] on a content
      that is not empty: the hashtag, mention and paragraph transforms *)
  processTextContent : string -> string -> string;
  (** [contentProcessor.processImage(imagePath, platform)] *)
  processImage : Post.image -> string -> W -> Result ProcessedImage * W;
  (** [metaClient.postToFacebook(postData)] and [postToInstagram]: the [id]
      of the object they return *)
  postToFacebook : PostData -> W -> Result string * W;
  postToInstagram : PostData -> W -> Result string * W;
  (** [app.listen(port)]: the health server starts listening, or not *)
  startHttpServer : W -> Result unit * W;
}.

Record App (W : Type) : Type := mkApp {
  isShuttingDown : bool;
  activeJobs : gmap string ActiveJob;
  cronJobs : gmap string JobData;
  tasks : list ScheduledTask;
  world : W;
  log : list Event;
}.
Arguments mkApp {W} _ _ _ _ _ _.
Arguments isShuttingDown {W} _.
Arguments activeJobs {W} _.
Arguments cronJobs {W} _.
Arguments tasks {W} _.
Arguments world {W} _.
Arguments log {W} _.

Section App.
Context {W : Type} {env : Collaborators W}.

Definition setShuttingDown (b : bool) (a : App W) : App W :=
  mkApp b (activeJobs a) (cronJobs a) (tasks a) (world a) (log a).
Definition setActiveJobs (m : gmap string ActiveJob) (a : App W) : App W :=
  mkApp (isShuttingDown a) m (cronJobs a) (tasks a) (world a) (log a).
Definition setCronJobs (m : gmap string JobData) (a : App W) : App W :=
  mkApp (isShuttingDown a) (activeJobs a) m (tasks a) (world a) (log a).
Definition setTasks (l : list ScheduledTask) (a : App W) : App W :=
  mkApp (isShuttingDown a) (activeJobs a) (cronJobs a) l (world a) (log a).
Definition setWorld (w : W) (a : App W) : App W :=
  mkApp (isShuttingDown a) (activeJobs a) (cronJobs a) (tasks a) w (log a).
Definition emit (e : list Event) (a : App W) : App W :=
  mkApp (isShuttingDown a) (activeJobs a) (cronJobs a) (tasks a) (world a)
        (log a ++ e).

(** The constructor: nothing scheduled, nothing running. *)
Definition newApp (w : W) : App W := mkApp false ∅ ∅ [] w [].

(** [task.stop()] and [task.start()] on the task behind a handle. *)
Definition stopTask (h : nat) (ts : list ScheduledTask) : list ScheduledTask :=
  alter (setStarted false) h ts.
Definition startTask (h : nat) (ts : list ScheduledTask) : list ScheduledTask :=
  alter (setStarted true) h ts.

(** *** Template substitution: [processTemplate]

    [variables] lists the entries in the order of [Object.entries]. *)

Fixpoint processTemplate (processedContent : string)
         (variables : list (string * Post.value)) (w : W) : string * W :=
  match variables with
  | [] => (processedContent, w)
  | (key, Post.VArray values) :: rest =>
      let '(i, w1) := randomIndex (length values) w in
      let randomValue := interpolate (values !! i) in
      processTemplate
        (JsString.replace processedContent ("{" +:+ key +:+ "}") randomValue)
        rest w1
  | (_, Post.VOther) :: rest => processTemplate processedContent rest w
  end.

Definition isArray (v : Post.value) : bool :=
  match v with Post.VArray _ => true | Post.VOther => false end.

(** [processTemplate] on the content of a template, which may be missing:
    the first array entry then calls [replace] on [undefined]. *)
Definition processTemplate_opt (content : option string)
           (variables : list (string * Post.value)) (w : W)
  : Result (option string) * W :=
  match content with
  | Some c => let '(c1, w1) := processTemplate c variables w in (Ok (Some c1), w1)
  | None =>
      match filter (fun e => isArray (snd e)) variables with
      | (_, Post.VArray values) :: _ =>
          (Throw "Cannot read properties of undefined (reading 'replace')",
           snd (randomIndex (length values) w))
      | _ => (Ok None, w)
      end
  end.

(** *** Content processor: [processPlatformContent] and [processContent]
    (content-processor.js) *)

(** The loop over [imagePaths]. *)
Fixpoint processImages (imagePaths : list Post.image) (platform : string) (w : W)
  : Result (list ProcessedImage) * W :=
  match imagePaths with
  | [] => (Ok [], w)
  | imagePath :: rest =>
      match processImage imagePath platform w with
      | (Ok processedImage, w1) =>
          match processImages rest platform w1 with
          | (Ok processedImages, w2) => (Ok (processedImage :: processedImages), w2)
          | (Throw e, w2) => (Throw e, w2)
          end
      | (Throw e, w1) => (Throw e, w1)
      end
  end.

Definition processPlatformContent (content : option string)
           (imagePaths : list Post.image) (platform : string) (w : W)
  : Result PlatformContent * W :=
  match platformLimits platform with
  | NoLimits => (Throw ("Unsupported platform: " +:+ platform), w)
  | limits =>
      let processedText :=
        if truthy content then processTextContent (interpolate content) platform
        else EmptyString in
      (* validateTextLength *)
      let tooLong :=
        match limits with
        | MaxTextLength n =>
            if n <? Z.of_nat (String.length processedText) then Some n else None
        | _ => None
        end in
      match tooLong with
      | Some n =>
          (Throw ("Content too long for " +:+ platform +:+ ": "
                  +:+ pretty (Z.of_nat (String.length processedText)) +:+ "/"
                  +:+ pretty n +:+ " characters"), w)
      | None =>
          match processImages imagePaths platform w with
          | (Ok processedImages, w1) =>
              (Ok (mkPlatformContent processedText processedImages), w1)
          | (Throw e, w1) => (Throw e, w1)
          end
      end
  end.

Fixpoint processContent_loop (content : option string) (imagePaths : list Post.image)
         (platforms : list string) (processedContent : JsObject PlatformContent)
         (w : W) : Result (JsObject PlatformContent) * W :=
  match platforms with
  | [] => (Ok processedContent, w)
  | platform :: rest =>
      match processPlatformContent content imagePaths platform w with
      | (Ok platformContent, w1) =>
          processContent_loop content imagePaths rest
                              (obj_set platform platformContent processedContent) w1
      | (Throw e, w1) => (Throw e, w1)
      end
  end.

Definition processContent (content : option string) (imagePaths : list Post.image)
           (platforms : option (list string)) (w : W)
  : Result (JsObject PlatformContent) * W :=
  let platforms :=
    match platforms with Some ps => ps | None => ["facebook"; "instagram"] end in
  processContent_loop content imagePaths platforms obj_empty w.

(** *** Platform client: [postToPlatform] (meta-client.js) *)

Definition postToPlatform (platform : string) (postData : PostData) (w : W)
  : Result string * W :=
  if String.eqb platform "facebook" then postToFacebook postData w
  else if String.eqb platform "instagram" then postToInstagram postData w
  else (Throw ("Unsupported platform: " +:+ platform), w).

(** *** Executor: [executePost] *)

Definition loadContent (postConfig : Post.config) (w : W)
  : Result (option string) * W :=
  match Post.file postConfig with
  | Some file =>
      if truthy (Some file) && negb (truthy (Post.content postConfig)) then
        match readTextFile (basename file) w with
        | (Ok content, w1) => (Ok (Some content), w1)
        | (Throw e, w1) => (Throw e, w1)
        end
      else (Ok (Post.content postConfig), w)
  | None => (Ok (Post.content postConfig), w)
  end.

(** The body of the [for] loop over the platforms, with its own
    [try]/[catch]. *)
Definition postOne (processedContent : JsObject PlatformContent)
           (acc : JsObject Outcome * W * list Event) (platform : string)
  : JsObject Outcome * W * list Event :=
  let '(results, w, calls) := acc in
  match obj_get platform processedContent with
  | None =>
      (obj_set platform
               (Failed "Cannot read properties of undefined (reading 'content')")
               results, w, calls)
  | Some platformContent =>
      let postData :=
        mkPostData (pc_content platformContent)
                   (match pc_images platformContent with
                    | image :: _ => processedPath image
                    | [] => None
                    end) in
      match postToPlatform platform postData w with
      | (Ok id, w1) =>
          (obj_set platform (Succeeded id) results, w1,
           calls ++ [Publish platform postData])
      | (Throw e, w1) =>
          (obj_set platform (Failed e) results, w1,
           calls ++ [Publish platform postData])
      end
  end.

Definition postAll (processedContent : JsObject PlatformContent)
           (platforms : list string) (w : W) : JsObject Outcome * W * list Event :=
  fold_left (postOne processedContent) platforms (obj_empty, w, []).

(** "Remove one-time jobs". *)
Definition removeOneTime (jobId : string) (st : App W) : App W :=
  match cronJobs st !! jobId with
  | Some jobData =>
      if JobType_eqb (type jobData) scheduled_post then
        setCronJobs (delete jobId (cronJobs st))
                    (setTasks (stopTask (job jobData) (tasks st)) st)
      else st
  | None => st
  end.

(** The [catch] block of [executePost]. *)
Definition executePost_catch (jobId : string) (postConfig : Post.config)
           (timerStart : Z) (message : string) (st : App W) : App W :=
  let '(timerEnd, w) := dateNow (world st) in
  emit [JobExecuted jobId (timerEnd - timerStart) false (Post.id postConfig)
                    (Error message)]
       (setWorld w st).

(** "Load content" and "Process content for each platform". *)
Definition prepareContent (postConfig : Post.config) (w : W)
  : Result (JsObject PlatformContent) * W :=
  match loadContent postConfig w with
  | (Throw e, w1) => (Throw e, w1)
  | (Ok content, w1) =>
      let imagePaths :=
        match Post.images postConfig with Some l => l | None => [] end in
      processContent content imagePaths (Post.platforms postConfig) w1
  end.

(** The [try] block of [executePost], followed by [catch] where it
    throws. *)
Definition executePost_try (jobId : string) (postConfig : Post.config)
           (timerStart : Z) (st : App W) : App W :=
  match prepareContent postConfig (world st) with
  | (Throw e, w1) => executePost_catch jobId postConfig timerStart e (setWorld w1 st)
  | (Ok processedContent, w1) =>
      match Post.platforms postConfig with
      | None =>
          executePost_catch jobId postConfig timerStart
                            "postConfig.platforms is not iterable" (setWorld w1 st)
      | Some platforms =>
          let '(results, w2, calls) := postAll processedContent platforms w1 in
          let '(timerEnd, w3) := dateNow w2 in
          let allSuccessful := forallb success (obj_values results) in
          removeOneTime jobId
            (emit (calls ++
                   [JobExecuted jobId (timerEnd - timerStart) allSuccessful
                                (Post.id postConfig) (Results platforms results)])
                  (setWorld w3 st))
      end
  end.

(** The state right after [this.activeJobs.set(jobId, ...)], with the
    reading of the timer. *)
Definition executePost_begin (jobId : string) (postConfig : Post.config) (st : App W)
  : Z * App W :=
  let '(timerStart, w) := dateNow (world st) in
  let '(now, w1) := dateNow w in
  (timerStart,
   setActiveJobs (<[jobId := mkActiveJob now postConfig]> (activeJobs st))
                 (setWorld w1 st)).

(** The [finally] block of [executePost]. *)
Definition executePost_finally (jobId : string) (st : App W) : App W :=
  setActiveJobs (delete jobId (activeJobs st)) st.

Definition executePost (jobId : string) (postConfig : Post.config) (st : App W) : App W :=
  if isShuttingDown st then st
  else
    let '(timerStart, st1) := executePost_begin jobId postConfig st in
    executePost_finally jobId (executePost_try jobId postConfig timerStart st1).

(** *** [executeRecurringPost] *)

Definition executeRecurringPost (jobId : string) (recurringConfig : Post.config)
           (st : App W) : Result unit * App W :=
  let '(content, w) :=
    match Post.variables recurringConfig with
    | Some variables =>
        processTemplate_opt (Post.content recurringConfig) variables (world st)
    | None => (Ok (Post.content recurringConfig), world st)
    end in
  match content with
  | Throw e => (Throw e, setWorld w st)
  | Ok content =>
      let '(now1, w1) := dateNow w in
      let postConfig :=
        Post.set_id (Some (interpolate (Post.id recurringConfig) +:+ "_" +:+ pretty now1))
                    (Post.set_content content recurringConfig) in
      let '(now2, w2) := dateNow w1 in
      (Ok tt, executePost (jobId +:+ "_" +:+ pretty now2) postConfig (setWorld w2 st))
  end.

(** *** Scheduler: [schedulePost], [scheduleRecurringPost], [startScheduler] *)

Definition schedulePost (postConfig : Post.config) (st : App W) : App W :=
  let '(suffix, w) :=
    if truthy (Post.id postConfig) then (interpolate (Post.id postConfig), world st)
    else let '(now, w) := dateNow (world st) in (pretty now, w) in
  let jobId := "post_" +:+ suffix in
  let scheduledTime := parseDate (Post.scheduledTime postConfig) in
  let cronExpression := dateToCron localTZA scheduledTime (Post.timezone postConfig) in
  let st := emit [SchedulingPost jobId (Post.id postConfig) (Post.scheduledTime postConfig)
                                 cronExpression (Post.platforms postConfig)]
                 (setWorld w st) in
  let zone := orDefault (Post.timezone postConfig) defaultTimezone in
  match cronValidate (Some cronExpression) zone with
  | Throw e => emit [ScheduleFailed (Post.id postConfig) e] st
  | Ok _ =>
      let cronJob := length (tasks st) in
      let task := mkTask (Some cronExpression) (CbExecutePost jobId postConfig)
                         (Some zone) false in
      let st := setTasks (tasks st ++ [task]) st in
      let st := setCronJobs
                  (<[jobId := mkJobData cronJob (Some postConfig) scheduled_post]>
                     (cronJobs st)) st in
      setTasks (startTask cronJob (tasks st)) st
  end.

Definition scheduleRecurringPost (recurringConfig : Post.config) (st : App W) : App W :=
  let jobId := "recurring_" +:+ interpolate (Post.id recurringConfig) in
  let st := emit [SchedulingRecurringPost jobId (Post.cronPattern recurringConfig)
                                          (Post.platforms recurringConfig)] st in
  let zone := orDefault (Post.timezone recurringConfig) defaultTimezone in
  match cronValidate (Post.cronPattern recurringConfig) zone with
  | Throw e => emit [ScheduleFailed (Post.id recurringConfig) e] st
  | Ok _ =>
      let cronJob := length (tasks st) in
      let task := mkTask (Post.cronPattern recurringConfig)
                         (CbExecuteRecurringPost jobId recurringConfig)
                         (Some zone) false in
      let st := setTasks (tasks st ++ [task]) st in
      let st := setCronJobs
                  (<[jobId := mkJobData cronJob (Some recurringConfig) recurring_post]>
                     (cronJobs st)) st in
      setTasks (startTask cronJob (tasks st)) st
  end.

(** [startMaintenanceJobs]: the two constant patterns are taken to be
    accepted by the cron library. *)
Definition startMaintenanceJobs (st : App W) : App W :=
  let healthCheckJob := length (tasks st) in
  let st := setTasks (tasks st ++
                      [mkTask (Some "*/5 * * * *") CbUpdateHealthStatus None true]) st in
  let st := setCronJobs (<["health_check" := mkJobData healthCheckJob None maintenance]>
                           (cronJobs st)) st in
  let logCleanupJob := length (tasks st) in
  let st := setTasks (tasks st ++
                      [mkTask (Some "0 2 * * 0") CbLogCleanup None true]) st in
  let st := setCronJobs (<["log_cleanup" := mkJobData logCleanupJob None maintenance]>
                           (cronJobs st)) st in
  setTasks (startTask logCleanupJob (startTask healthCheckJob (tasks st))) st.

Definition startScheduler (scheduleConfig : ScheduleConfig) (st : App W) : App W :=
  let st :=
    match posts scheduleConfig with
    | Some ps => fold_left (fun st post => schedulePost post st) ps st
    | None => st
    end in
  let st :=
    match recurring scheduleConfig with
    | Some rs => fold_left (fun st r => scheduleRecurringPost r st) rs st
    | None => st
    end in
  startMaintenanceJobs st.

(** *** A trigger fires

    The cron library runs the callback of a started task. *)
Definition fire (h : nat) (st : App W) : App W :=
  match tasks st !! h with
  | Some task =>
      if started task then
        match callback task with
        | CbExecutePost jobId postConfig => executePost jobId postConfig st
        | CbExecuteRecurringPost jobId recurringConfig =>
            snd (executeRecurringPost jobId recurringConfig st)
        | CbUpdateHealthStatus | CbLogCleanup => st
        end
      else st
  | None => st
  end.

(** *** Shutdown coordinator: [shutdown] *)

Definition shutdownTimeout : Z := 30000.

(** [shutdown] up to the drain loop; [None] when the guard returns. *)
Definition shutdown_begin (st : App W) : option (App W) :=
  if isShuttingDown st then None
  else
    let st := setShuttingDown true st in
    let stopped :=
      foldr (fun jobData ts => stopTask (job jobData) ts) (tasks st)
            (snd <$> map_to_list (cronJobs st)) in
    Some (setCronJobs ∅ (setTasks stopped st)).

(** One evaluation of the condition of the drain loop and of what follows
    it, [startTime] being the reading taken before the loop: [inl] is the
    state during the next one-second wait, [inr] the state in which the
    process exits. *)
Definition shutdown_poll (startTime : Z) (st : App W) : App W + App W :=
  if bool_decide (size (activeJobs st) = 0%nat) then inr st
  else
    let '(now, w) := dateNow (world st) in
    if now - startTime <? shutdownTimeout then inl (setWorld w st)
    else inr (setActiveJobs ∅ (setWorld w st)).
End App.

(** ** Passes in flight

    [executePost] is an async function.  A call runs it up to its first
    [await] (app.js:333 or :338): the guard, the timer and
    [activeJobs.set].  The rest runs when what it awaits has settled;
    until then other callbacks run: a trigger that fires, [shutdown], the
    drain loop. *)

(** A call of [executePost] that is suspended at its first [await]. *)
Record Pass : Type := mkPass {
  pass_jobId : string;
  pass_config : Post.config;
  pass_timer : Z;
}.

Section Passes.
Context {W : Type} {env : Collaborators W}.

(** The call, up to the first [await]; no pass when the guard returns. *)
Definition executePost_call (jobId : string) (postConfig : Post.config) (st : App W)
  : option Pass * App W :=
  if isShuttingDown st then (None, st)
  else
    let '(timerStart, st1) := executePost_begin jobId postConfig st in
    (Some (mkPass jobId postConfig timerStart), st1).

(** The rest of a pass, when nothing else runs between its later
    [await]s: the [try] block with [catch], and [finally]. *)
Definition executePost_resume (pass : Pass) (st : App W) : App W :=
  executePost_finally (pass_jobId pass)
    (executePost_try (pass_jobId pass) (pass_config pass) (pass_timer pass) st).

(** [executeRecurringPost] up to the first [await] of the pass it
    starts. *)
Definition executeRecurringPost_call (jobId : string) (recurringConfig : Post.config)
           (st : App W) : option Pass * App W :=
  let '(content, w) :=
    match Post.variables recurringConfig with
    | Some variables =>
        processTemplate_opt (Post.content recurringConfig) variables (world st)
    | None => (Ok (Post.content recurringConfig), world st)
    end in
  match content with
  | Throw e => (None, setWorld w st)
  | Ok content =>
      let '(now1, w1) := dateNow w in
      let postConfig :=
        Post.set_id (Some (interpolate (Post.id recurringConfig) +:+ "_" +:+ pretty now1))
                    (Post.set_content content recurringConfig) in
      let '(now2, w2) := dateNow w1 in
      executePost_call (jobId +:+ "_" +:+ pretty now2) postConfig (setWorld w2 st)
  end.

(** A trigger fires: the cron library calls the callback of a started
    task, which returns at its first [await]. *)
Definition fire_call (h : nat) (st : App W) : option Pass * App W :=
  match tasks st !! h with
  | Some task =>
      if started task then
        match callback task with
        | CbExecutePost jobId postConfig => executePost_call jobId postConfig st
        | CbExecuteRecurringPost jobId recurringConfig =>
            executeRecurringPost_call jobId recurringConfig st
        | CbUpdateHealthStatus | CbLogCleanup => (None, st)
        end
      else (None, st)
  | None => (None, st)
  end.

(** A call whose pass, if there is one, is resumed at once. *)
Definition settle (called : option Pass * App W) : App W :=
  match called.1 with
  | Some pass => executePost_resume pass called.2
  | None => called.2
  end.
End Passes.

(** ** Startup: [loadScheduleConfig] and [initialize]

    [config] is what the file reader returned for content/schedule.json;
    [initialize] is followed from the loading of the schedule on (the
    health monitor, which touches the health snapshot only, is left out). *)

Section Startup.
Context {W : Type} {env : Collaborators W} {libraries : Validators.Libraries}.

Definition loadScheduleConfig (config : option ScheduleConfig) : Result ScheduleConfig :=
  if Validators.validateScheduleConfig config
  then match config with
       | Some c => Ok c
       | None => Throw "Cannot read properties of null (reading 'posts')"
       end
  else Throw "Invalid schedule configuration".

Definition initialize (config : option ScheduleConfig) (st : App W) : Result unit * App W :=
  match loadScheduleConfig config with
  | Throw e => (Throw e, st)
  | Ok scheduleConfig =>
      match startHttpServer (world st) with
      | (Throw e, w) => (Throw e, setWorld w st)
      | (Ok _, w) => (Ok tt, startScheduler scheduleConfig (setWorld w st))
      end
  end.
End Startup.

(** ** The statements of the specification, as it words them *)

Module Claimed.

(** The five fields of a local time. *)
Definition cronFields (localTime : Z) : string :=
  pretty (JsDate.MinFromTime localTime) +:+ " " +:+
  pretty (JsDate.HourFromTime localTime) +:+ " " +:+
  pretty (JsDate.DateFromTime localTime) +:+ " " +:+
  pretty (JsDate.MonthFromTime localTime + 1) +:+ " *".

(** Trigger converter: the fields are the values of the timestamp in the
    given time zone; [None] is [InvalidTimeSpec].  [zoneOffset] is the
    time-zone database: the offset of a known identifier at an instant. *)
Definition dateToCron (zoneOffset : string -> option (Z -> Z))
           (date : JsDate.Date) (timezone : string) : option string :=
  match date, zoneOffset timezone with
  | JsDate.TimeValue t, Some offset => Some (cronFields (t + offset t))
  | _, _ => None
  end.

(** Template substitution: the first occurrence of each placeholder
    becomes one element of the candidate array, as it is; everything else
    stays. *)
Section Template.
Context {W : Type} {env : Collaborators W}.

Fixpoint processTemplate (content : string)
         (variables : list (string * Post.value)) (w : W) : string * W :=
  match variables with
  | [] => (content, w)
  | (key, Post.VArray values) :: rest =>
      let '(i, w1) := randomIndex (length values) w in
      match values !! i with
      | Some element =>
          processTemplate
            (JsString.replaceLiteral content ("{" +:+ key +:+ "}") element) rest w1
      | None => processTemplate content rest w1
      end
  | (_, Post.VOther) :: rest => processTemplate content rest w
  end.
End Template.

(** Startup validation: the defects of a descriptor, and the documents
    that pass. *)
Definition defective (d : Post.config) : bool :=
  (match Post.platforms d with
   | None | Some [] => true
   | Some ps => negb (forallb (Validators.includes Validators.validPlatforms) ps)
   end)
  || (negb (truthy (Post.content d)) && negb (truthy (Post.file d)))
  || (negb (truthy (Post.scheduledTime d)) && negb (truthy (Post.cronPattern d))).

Definition descriptors (doc : ScheduleConfig) : list Post.config :=
  match posts doc with Some ps => ps | None => [] end
  ++ match recurring doc with Some rs => rs | None => [] end.

Definition validateScheduleConfig (doc : ScheduleConfig) : bool :=
  negb (existsb defective (descriptors doc)).

End Claimed.

(** ** Observations on a run of [processTemplate] *)

Section TemplateRun.
Context {W : Type} {env : Collaborators W}.

(** What a run puts in place of a placeholder is an element of the
    array, with nothing to expand in it: for every variable whose value
    is an array and whose placeholder is in the text when its turn comes,
    the random index picks an element (the array is not empty) and the
    element holds none of [$$], [$&], [$`] and [$'].  A variable whose
    placeholder is not in the text is under no condition. *)
Fixpoint insertsElements (content : string) (variables : list (string * Post.value))
         (w : W) : bool :=
  match variables with
  | [] => true
  | (key, Post.VArray values) :: rest =>
      let '(i, w1) := randomIndex (length values) w in
      match JsString.splitFirst ("{" +:+ key +:+ "}") content with
      | Some _ =>
          match values !! i with
          | Some element =>
              JsString.noExpansion element
              && insertsElements
                   (JsString.replace content ("{" +:+ key +:+ "}") element) rest w1
          | None => false
          end
      | None => insertsElements content rest w1
      end
  | (_, Post.VOther) :: rest => insertsElements content rest w
  end.
End TemplateRun.

(** ** Calendar reading of a local time (for the trigger converter) *)

Module Calendar.

(** Days before the first of [month] (1..12) in a year with [leap] leap
    days. *)
Definition daysBefore (month leap : Z) : Z :=
  match month with
  | 1 => 0
  | 2 => 31
  | 3 => 59 + leap
  | 4 => 90 + leap
  | 5 => 120 + leap
  | 6 => 151 + leap
  | 7 => 181 + leap
  | 8 => 212 + leap
  | 9 => 243 + leap
  | 10 => 273 + leap
  | 11 => 304 + leap
  | _ => 334 + leap
  end.

Definition leapDays (year : Z) : Z := JsDate.DaysInYear year - 365.

Definition daysInMonth (year month : Z) : Z :=
  if month =? 12 then 31
  else daysBefore (month + 1) (leapDays year) - daysBefore month (leapDays year).

(** The minute that starts at [hour]:[minute] on [day].[month].[year],
    counted from the epoch. *)
Definition minuteOf (year month day hour minute : Z) : Z :=
  ((JsDate.DayFromYear year + daysBefore month (leapDays year) + (day - 1)) * 24
   + hour) * 60 + minute.

End Calendar.

(** ** The priority label, erased

    Two states, or two schedule documents, that agree once every priority
    label is erased differ in the priority labels only. *)

Module Erase.

Definition ofConfig (c : Post.config) : Post.config := Post.set_priority None c.

Definition ofCallback (c : Callback) : Callback :=
  match c with
  | CbExecutePost jobId postConfig => CbExecutePost jobId (ofConfig postConfig)
  | CbExecuteRecurringPost jobId r => CbExecuteRecurringPost jobId (ofConfig r)
  | CbUpdateHealthStatus => CbUpdateHealthStatus
  | CbLogCleanup => CbLogCleanup
  end.

Definition ofTask (t : ScheduledTask) : ScheduledTask :=
  mkTask (expression t) (ofCallback (callback t)) (task_timezone t) (started t).

Definition ofJobData (j : JobData) : JobData :=
  mkJobData (job j) (ofConfig <$> config j) (type j).

Definition ofActiveJob (a : ActiveJob) : ActiveJob :=
  mkActiveJob (startTime a) (ofConfig (active_config a)).

Definition ofApp {W} (st : App W) : App W :=
  mkApp (isShuttingDown st) (ofActiveJob <$> activeJobs st)
        (ofJobData <$> cronJobs st) (ofTask <$> tasks st)
        (world st) (log st).

Definition ofList (l : list Post.config) : list Post.config := ofConfig <$> l.

Definition ofSchedule (doc : ScheduleConfig) : ScheduleConfig :=
  mkSchedule (ofList <$> posts doc) (ofList <$> recurring doc) (settings doc).

End Erase.

(** ** Observations on a pass of the executor *)

Section Observations.
Context {W : Type}.

(** The shape of the log of one pass. *)
Inductive PassLog (jobId : string) (postConfig : Post.config) : list Event → Prop :=
| PassThrew duration e :
    PassLog jobId postConfig
            [JobExecuted jobId duration false (Post.id postConfig) (Error e)]
| PassFinished calls duration platforms results :
    Post.platforms postConfig = Some platforms →
    published calls = platforms →
    reports calls = [] →
    obj_keys results = list_to_set platforms ∖ {["__proto__"]} →
    (∀ p, p ≠ "__proto__" → is_Some (own results !! p) ↔ p ∈ platforms) →
    PassLog jobId postConfig
            (calls ++ [JobExecuted jobId duration (forallb success (obj_values results))
                                   (Post.id postConfig) (Results platforms results)]).

(** What a pass does to the registry and to the tasks: it adds no entry
    and starts no task. *)
Definition noneArmed (before after : App W) : Prop :=
  length (tasks after) = length (tasks before)
  ∧ (∀ h t', tasks after !! h = Some t' → started t' = true →
             tasks before !! h = Some t')
  ∧ cronJobs after ⊆ cronJobs before.

End Observations.

(** ** A concrete outside world

    The state of the outside is a clock tick; the process runs in UTC.
    Used to run the engine on explicit inputs. *)

Module Fixture.

(** 2024-12-15T09:00:00Z *)
Definition nineOClock : Z := 1734253200000.

Definition clock (w : nat) : Z * nat := (nineOClock + 1000 * Z.of_nat w, S w).

Definition parse (value : option string) : JsDate.Date :=
  match value with
  | Some s => if String.eqb s "2024-12-15T09:00:00Z" then JsDate.TimeValue nineOClock
              else JsDate.InvalidDate
  | None => JsDate.InvalidDate
  end.

(** [path.basename] on a path with forward slashes. *)
Fixpoint lastSegment (path : string) : string :=
  match path with
  | EmptyString => EmptyString
  | String c rest =>
      if JsString.contains "/" rest then lastSegment rest
      else if Ascii.eqb c "/" then rest
      else path
  end.

Definition validate (expression : option string) (zone : string) : Result unit :=
  match expression with
  | Some e => if String.prefix "NaN" e then Throw "invalid cron expression" else Ok tt
  | None => Throw "invalid cron expression"
  end.

(** Every image is processed into a file of the output directory. *)
Definition image (imagePath : Post.image) (platform : string) (w : nat)
  : Result ProcessedImage * nat :=
  (Ok (mkImage (Some ("processed_" +:+ platform +:+ ".jpg"))), w).

(** Every collaborator succeeds. *)
Definition healthy : Collaborators nat := {|
  dateNow := clock;
  randomIndex := fun _ w => (0%nat, w);
  parseDate := parse;
  localTZA := fun _ => 0;
  defaultTimezone := "UTC";
  cronValidate := validate;
  basename := lastSegment;
  readTextFile := fun _ w => (Ok "text of the file", w);
  processTextContent := fun content _ => content;
  processImage := image;
  postToFacebook := fun _ w => (Ok "fb_1", w);
  postToInstagram := fun _ w => (Ok "ig_1", w);
  startHttpServer := fun w => (Ok tt, w);
|}.

(** Every call to Facebook fails with a network error. *)
Definition facebookDown : Collaborators nat := {|
  dateNow := clock;
  randomIndex := fun _ w => (0%nat, w);
  parseDate := parse;
  localTZA := fun _ => 0;
  defaultTimezone := "UTC";
  cronValidate := validate;
  basename := lastSegment;
  readTextFile := fun _ w => (Ok "text of the file", w);
  processTextContent := fun content _ => content;
  processImage := image;
  postToFacebook := fun _ w => (Throw "Network error: socket hang up", w);
  postToInstagram := fun _ w => (Ok "ig_1", w);
  startHttpServer := fun w => (Ok tt, w);
|}.

(** A text of 2300 characters: within the limit of Facebook, beyond that
    of Instagram. *)
Fixpoint repeated (n : nat) : string :=
  match n with
  | O => EmptyString
  | S n => String "a" (repeated n)
  end.

(** Every collaborator succeeds; the post files hold the long text. *)
Definition longFiles : Collaborators nat := {|
  dateNow := clock;
  randomIndex := fun _ w => (0%nat, w);
  parseDate := parse;
  localTZA := fun _ => 0;
  defaultTimezone := "UTC";
  cronValidate := validate;
  basename := lastSegment;
  readTextFile := fun name w =>
    if String.eqb name "long.txt" then (Ok (repeated 2300), w)
    else (Throw ("ENOENT: no such file or directory, open '" +:+ name +:+ "'"), w);
  processTextContent := fun content _ => content;
  processImage := image;
  postToFacebook := fun _ w => (Ok "fb_1", w);
  postToInstagram := fun _ w => (Ok "ig_1", w);
  startHttpServer := fun w => (Ok tt, w);
|}.

Definition post (id : string) (platforms : list string) : Post.config :=
  Post.mkConfig (Some id) (Some "Good morning!") None (Some platforms)
                (Some [Post.ImagePath "content/images/morning.jpg"])
                (Some "2024-12-15T09:00:00Z") None None (Some "high") None.

(** A post whose text is in a file. *)
Definition fromFile : Post.config :=
  Post.mkConfig (Some "long") None (Some "content/posts/long.txt")
                (Some ["facebook"; "instagram"])
                (Some [Post.ImagePath "content/images/morning.jpg"])
                (Some "2024-12-15T09:00:00Z") None None None None.

Definition morning : Post.config := post "morning_post" ["facebook"; "instagram"].
Definition facebookOnly : Post.config := post "a" ["facebook"].

(** A time-zone database with two entries. *)
Definition zones (name : string) : option (Z -> Z) :=
  if String.eqb name "UTC" then Some (fun _ => 0)
  else if String.eqb name "Asia/Tokyo" then Some (fun _ => 32400000)
  else None.

(** The libraries of the validators, one hour before the posts are due. *)
Definition libraries : Validators.Libraries := {|
  Validators.validTimezones := ["UTC"; "Asia/Tokyo"; "America/New_York"];
  Validators.momentParse := fun dateTime _ =>
    if String.eqb dateTime "2024-12-15T09:00:00Z" then Some nineOClock else None;
  Validators.momentNow := nineOClock - 3600000;
|}.

(** A recurring template in which everything is missing. *)
Definition emptyTemplate : Post.config :=
  Post.mkConfig (Some "weekly") None None (Some []) None None None None None None.

(** A post with a trigger pattern in place of a scheduled time. *)
Definition patternPost : Post.config :=
  Post.mkConfig (Some "p") (Some "Good morning!") None (Some ["facebook"]) None
                None (Some "0 9 * * *") None None None.

(** A state with the shutdown flag set and one job in flight. *)
Definition draining : App nat :=
  mkApp true {["post_b" := mkActiveJob nineOClock morning]} ∅ [] 0%nat [].

End Fixture.

(** ** Two passes under one identifier, and a shutdown

    A schedule names the identifier [a] twice, for the same minute.  Both
    tasks are started (the second [schedulePost] does not stop the first),
    both triggers fire in that minute, and the process is told to shut
    down while the two passes are in flight. *)

Module Overlap.

Definition doc : ScheduleConfig :=
  mkSchedule (Some [Fixture.facebookOnly; Fixture.facebookOnly]) None None.

Definition scheduled : App nat :=
  startScheduler (env := Fixture.healthy) doc (newApp 0%nat).

(** The trigger of the first task fires, then that of the second: each
    callback runs up to its first [await]. *)
Definition first : option Pass * App nat :=
  fire_call (env := Fixture.healthy) 0 scheduled.

Definition second : option Pass * App nat :=
  fire_call (env := Fixture.healthy) 1 first.2.

(** A signal arrives: [shutdown] up to the drain loop, and the reading of
    [startTime]. *)
Definition flagged : App nat :=
  default second.2 (shutdown_begin second.2).

Definition startTime : Z := (Fixture.clock (world flagged)).1.

Definition draining : App nat := setWorld (Fixture.clock (world flagged)).2 flagged.

(** The state during the first wait of the drain loop. *)
Definition waiting : App nat :=
  match shutdown_poll (env := Fixture.healthy) startTime draining with
  | inl st | inr st => st
  end.

(** During that wait the first pass goes on to its end; the second one is
    still suspended. *)
Definition firstDone : App nat :=
  match first.1 with
  | Some pass => executePost_resume (env := Fixture.healthy) pass waiting
  | None => waiting
  end.

End Overlap.

(** ** Tactics *)

(* Arithmetic on numerals is done before [lia] sees the goal. *)
Ltac literals :=
  repeat match goal with
         | |- context [Z.add (Zpos ?p) (Zpos ?q)] =>
             let v := eval vm_compute in (Z.add (Zpos p) (Zpos q)) in
             change (Z.add (Zpos p) (Zpos q)) with v
         | |- context [Z.add Z0 (Zpos ?q)] => change (Z.add Z0 (Zpos q)) with (Zpos q)
         | |- context [Z.sub (Zpos ?p) (Zpos ?q)] =>
             let v := eval vm_compute in (Z.sub (Zpos p) (Zpos q)) in
             change (Z.sub (Zpos p) (Zpos q)) with v
         | |- context [Z.eqb (Zpos ?p) (Zpos ?q)] =>
             let v := eval vm_compute in (Z.eqb (Zpos p) (Zpos q)) in
             change (Z.eqb (Zpos p) (Zpos q)) with v
         end.

(** ** The registry and the tasks it refers to

    What [cronJobs] and the task objects of the cron library have to do
    with each other over the life of the process: the schedule is armed
    once, triggers fire, and the process is shut down. *)

Section Registry.
Context {W : Type} {env : Collaborators W}.

(** The function [schedulePost], [scheduleRecurringPost] and
    [startMaintenanceJobs] hand to [cron.schedule] for the entry they put
    into the registry. *)
Definition entryCallback (jobId : string) (jobData : JobData) (cb : Callback) : Prop :=
  match type jobData, config jobData with
  | scheduled_post, Some postConfig => cb = CbExecutePost jobId postConfig
  | recurring_post, Some recurringConfig => cb = CbExecuteRecurringPost jobId recurringConfig
  | maintenance, None => cb = CbUpdateHealthStatus ∨ cb = CbLogCleanup
  | _, _ => False
  end.

(** Every entry of the registry refers to a task of its own, which is
    started and runs the job of that entry. *)
Definition registryBound (st : App W) : Prop :=
  (∀ jobId jobData,
      cronJobs st !! jobId = Some jobData →
      ∃ task, tasks st !! job jobData = Some task
              ∧ started task = true
              ∧ entryCallback jobId jobData (callback task))
  ∧ (∀ jobId1 jobId2 jobData1 jobData2,
        cronJobs st !! jobId1 = Some jobData1 →
        cronJobs st !! jobId2 = Some jobData2 →
        job jobData1 = job jobData2 → jobId1 = jobId2).

(** [shutdown] as far as the registry goes: the guard returns, or the
    flag is set and the tasks of the registry are stopped. *)
Definition shutdown_registry (st : App W) : App W :=
  match shutdown_begin st with
  | Some st' => st'
  | None => st
  end.

(** What happens to a process after its constructor. *)
Inductive Operation : Type :=
| OpStartScheduler (scheduleConfig : ScheduleConfig)
| OpSchedulePost (postConfig : Post.config)
| OpScheduleRecurringPost (recurringConfig : Post.config)
| OpFire (h : nat)
| OpShutdown.

Definition perform (st : App W) (op : Operation) : App W :=
  match op with
  | OpStartScheduler scheduleConfig => startScheduler scheduleConfig st
  | OpSchedulePost postConfig => schedulePost postConfig st
  | OpScheduleRecurringPost recurringConfig => scheduleRecurringPost recurringConfig st
  | OpFire h => fire h st
  | OpShutdown => shutdown_registry st
  end.

Definition performAll (ops : list Operation) (w : W) : App W :=
  fold_left perform ops (newApp w).

(** The expression and zone [schedulePost] gives to [cron.schedule]. *)
Definition postExpression (postConfig : Post.config) : string :=
  dateToCron localTZA (parseDate (Post.scheduledTime postConfig))
             (Post.timezone postConfig).

Definition zoneOf (c : Post.config) : string :=
  orDefault (Post.timezone c) defaultTimezone.

(** Whether [cron.schedule] takes the expression for the zone of the
    descriptor. *)
Definition accepted (expression : option string) (c : Post.config) : bool :=
  isOk (cronValidate expression (zoneOf c)).

(** The expressions of the tasks [startScheduler] creates for a document,
    in the order in which it creates them. *)
Definition armedExpressions (scheduleConfig : ScheduleConfig) : list (option string) :=
  ((λ p, Some (postExpression p))
     <$> filter (λ p, accepted (Some (postExpression p)) p)
                (default [] (posts scheduleConfig)))
  ++ (Post.cronPattern
        <$> filter (λ r, accepted (Post.cronPattern r) r)
                   (default [] (recurring scheduleConfig)))
  ++ [Some "*/5 * * * *"; Some "0 2 * * 0"].
End Registry.

(** ** File reader: [validateScheduleConfig] and [readScheduleConfig]
    (file-reader.js)

    The file reader has a check of its own, which [readScheduleConfig]
    runs on the parsed document before it returns it; the first defect it
    finds is thrown.  The errors are kept by what their messages say. *)

Module FileReader.

Inductive error : Type :=
| ConfigNotObject
| PostsNotArray
| MissingContentOrFile (i : nat)
| MissingScheduledTime (i : nat)
| NoPlatform (i : nat)
| InvalidPlatforms (i : nat) (invalidPlatforms : list string).

Definition validPlatforms : list string := ["facebook"; "instagram"].

(** The body of the loop over [config.posts]: the error it throws for the
    post at index [i], if any. *)
Definition checkPost (i : nat) (post : Post.config) : option error :=
  if negb (truthy (Post.content post)) && negb (truthy (Post.file post))
  then Some (MissingContentOrFile i)
  else if negb (truthy (Post.scheduledTime post))
  then Some (MissingScheduledTime i)
  else match Post.platforms post with
       | None | Some [] => Some (NoPlatform i)
       | Some platforms =>
           match filter (λ p, negb (existsb (String.eqb p) validPlatforms)) platforms with
           | [] => None
           | invalidPlatforms => Some (InvalidPlatforms i invalidPlatforms)
           end
       end.

(** The loop, from index [i] on. *)
Fixpoint checkPosts (i : nat) (posts : list Post.config) : option error :=
  match posts with
  | [] => None
  | post :: rest =>
      match checkPost i post with
      | Some e => Some e
      | None => checkPosts (S i) rest
      end
  end.

(** [validateScheduleConfig(config)]: [None] when it returns. *)
Definition validateScheduleConfig (config : option ScheduleConfig) : option error :=
  match config with
  | None => Some ConfigNotObject
  | Some config =>
      match posts config with
      | None => Some PostsNotArray
      | Some ps => checkPosts 0 ps
      end
  end.

(** What [fileExists], [fs.readFile], [JSON.parse] and [fs.stat] make of
    the file at [configPath]; [stat] is the message of the error of
    [fs.stat], if it throws one. *)
Inductive ConfigFile : Type :=
| NotFound
| Unreadable (message : string)
| InvalidJson (message : string)
| Parsed (config : option ScheduleConfig) (stat : option string).

(** What [readScheduleConfig] throws. *)
Inductive failure : Type :=
| ConfigNotFound (configPath : string)
| ReadFailed (message : string)
| InvalidJsonFormat (message : string)
| Rejected (e : error).

(** [(await readScheduleConfig(configPath)).config] *)
Definition readScheduleConfig (configPath : string) (file : ConfigFile)
  : failure + option ScheduleConfig :=
  match file with
  | NotFound => inl (ConfigNotFound configPath)
  | Unreadable message => inl (ReadFailed message)
  | InvalidJson message => inl (InvalidJsonFormat message)
  | Parsed config stat =>
      match validateScheduleConfig config with
      | Some e => inl (Rejected e)
      | None =>
          match stat with
          | Some message => inl (ReadFailed message)
          | None => inr config
          end
      end
  end.

End FileReader.

(** ** Startup, from the file on: [loadScheduleConfig] (app.js)

    [fileReader.readScheduleConfig] comes first, with the check of the
    file reader; what it returns goes to [validators].  [configPath] is
    [path.join(process.cwd(), 'content', 'schedule.json')]. *)

Section StartupFromFile.
Context {libraries : Validators.Libraries}.

Inductive Loaded : Type :=
| ReaderThrew (e : FileReader.failure)
| LoadThrew (message : string)
| LoadedConfig (scheduleConfig : ScheduleConfig).

Definition loadScheduleFile (configPath : string) (file : FileReader.ConfigFile)
  : Loaded :=
  match FileReader.readScheduleConfig configPath file with
  | inl e => ReaderThrew e
  | inr config =>
      match loadScheduleConfig config with
      | Throw message => LoadThrew message
      | Ok scheduleConfig => LoadedConfig scheduleConfig
      end
  end.
End StartupFromFile.

(** ** Content processor: the text (content-processor.js)

    [processTextContent] with [processHashtags], [processMentions],
    [optimizeForInstagram] and [optimizeForFacebook], and [countHashtags].
    The regular expressions are followed as scans of the code units. *)

Module ContentProcessor.

Definition LF : ascii := "010"%char.

(** WhiteSpace and LineTerminator, among the code units below 256: tab,
    line feed, vertical tab, form feed, carriage return, space and
    no-break space. *)
Definition isSpace (c : ascii) : bool :=
  let n := nat_of_ascii c in
  ((9 <=? n) && (n <=? 13) || (n =? 32) || (n =? 160))%nat.

(** The class [[a-zA-Z0-9_]]. *)
Definition isWord (c : ascii) : bool :=
  let n := nat_of_ascii c in
  ((97 <=? n) && (n <=? 122) || (65 <=? n) && (n <=? 90)
   || (48 <=? n) && (n <=? 57) || (n =? 95))%nat.

Fixpoint trimStart (s : string) : string :=
  match s with
  | EmptyString => EmptyString
  | String c r => if isSpace c then trimStart r else s
  end.

Fixpoint trimEnd (s : string) : string :=
  match s with
  | EmptyString => EmptyString
  | String c r =>
      match trimEnd r with
      | EmptyString => if isSpace c then EmptyString else String c EmptyString
      | t => String c t
      end
  end.

(** [s.trim()] *)
Definition trim (s : string) : string := trimEnd (trimStart s).

(** The longest run of word characters [s] starts with. *)
Fixpoint takeWord (s : string) : string :=
  match s with
  | EmptyString => EmptyString
  | String c r => if isWord c then String c (takeWord r) else EmptyString
  end.

(** A text cut by the matches of [/#[a-zA-Z0-9_]+/g]: a match, or a code
    unit that is in no match. *)
Inductive piece : Type :=
| Tag (tag : string)
| Char (c : ascii).

(** The scan for the matches, from the left: [skip] code units are still
    part of the last match; elsewhere a match starts at a [#] that a word
    character follows, and takes the longest run of them. *)
Fixpoint pieces (skip : nat) (s : string) : list piece :=
  match s with
  | EmptyString => []
  | String c r =>
      match skip with
      | S k => pieces k r
      | O =>
          if Ascii.eqb c "#" then
            match takeWord r with
            | EmptyString => Char c :: pieces 0 r
            | word => Tag (String c word) :: pieces (String.length word) r
            end
          else Char c :: pieces 0 r
      end
  end.

(** The matches of a cut text, and the code units outside of them. *)
Definition tagsOf (l : list piece) : list string :=
  omap (λ p, match p with Tag t => Some t | Char _ => None end) l.

Definition textOf (l : list piece) : string :=
  foldr (λ p rest, match p with Tag _ => rest | Char c => String c rest end)
        EmptyString l.

(** [content.match(hashtagRegex) || []] *)
Definition hashtags (content : string) : list string := tagsOf (pieces 0 content).

(** [content.replace(hashtagRegex, '')] *)
Definition withoutHashtags (content : string) : string := textOf (pieces 0 content).

(** [countHashtags(content)] *)
Definition countHashtags (content : string) : nat := length (hashtags content).

(** [toLowerCase] on a code unit of a match: the letters [A] to [Z]
    become [a] to [z]. *)
Definition lowerChar (c : ascii) : ascii :=
  let n := nat_of_ascii c in
  if ((65 <=? n) && (n <=? 90))%nat then ascii_of_nat (n + 32) else c.

Fixpoint toLowerCase (s : string) : string :=
  match s with
  | EmptyString => EmptyString
  | String c r => String (lowerChar c) (toLowerCase r)
  end.

(** [parts.join(separator)] *)
Fixpoint join (separator : string) (parts : list string) : string :=
  match parts with
  | [] => EmptyString
  | [part] => part
  | part :: rest => part +:+ separator +:+ join separator rest
  end.

Definition processHashtags (content platform : string) : string :=
  if String.eqb platform "instagram" then
    let contentWithoutHashtags := trim (withoutHashtags content) in
    let cleanHashtags := take 30 (toLowerCase <$> hashtags content) in
    match cleanHashtags with
    | [] => contentWithoutHashtags
    | _ => contentWithoutHashtags +:+ String LF (String LF EmptyString)
           +:+ join " " cleanHashtags
    end
  else content.

(** The mentions are counted for the log only. *)
Definition processMentions (content platform : string) : string := content.

Definition consHead (c : ascii) (parts : list string) : list string :=
  match parts with
  | [] => [String c EmptyString]
  | part :: rest => String c part :: rest
  end.

(** [content.split('\n\n')] *)
Fixpoint paragraphs (content : string) : list string :=
  match content with
  | EmptyString => [EmptyString]
  | String c r =>
      match r with
      | String d r' =>
          if Ascii.eqb c LF && Ascii.eqb d LF then EmptyString :: paragraphs r'
          else consHead c (paragraphs r)
      | EmptyString => consHead c (paragraphs r)
      end
  end.

(** [paragraph.replace(/\. /g, '.\n')] *)
Fixpoint breakSentences (paragraph : string) : string :=
  match paragraph with
  | EmptyString => EmptyString
  | String c r =>
      match r with
      | String d r' =>
          if Ascii.eqb c "." && Ascii.eqb d " "
          then String c (String LF (breakSentences r'))
          else String c (breakSentences r)
      | EmptyString => paragraph
      end
  end.

Definition optimizeForInstagram (content : string) : string :=
  let optimizedParagraphs :=
    (λ paragraph, if (150 <? String.length paragraph)%nat
                  then breakSentences paragraph else paragraph)
      <$> paragraphs content in
  join (String LF (String LF EmptyString)) optimizedParagraphs.

Definition optimizeForFacebook (content : string) : string := content.

(** [processTextContent(content, platform)] *)
Definition processTextContent (content : option string) (platform : string) : string :=
  if negb (truthy content) then EmptyString
  else
    let processedContent := trim (interpolate content) in
    let processedContent := processHashtags processedContent platform in
    let processedContent := processMentions processedContent platform in
    if String.eqb platform "instagram" then optimizeForInstagram processedContent
    else if String.eqb platform "facebook" then optimizeForFacebook processedContent
    else processedContent.

(** *** Notions for the properties of the text *)

(** [s] is empty or starts with a code unit that is no word character. *)
Definition startsNonWord (s : string) : bool :=
  match s with
  | EmptyString => true
  | String c _ => negb (isWord c)
  end.

(** No [#] of [s] is followed by a word character. *)
Fixpoint noHashtag (s : string) : bool :=
  match s with
  | EmptyString => true
  | String c r => (negb (Ascii.eqb c "#") || startsNonWord r) && noHashtag r
  end.

(** [s] from its code unit [n] on. *)
Fixpoint dropS (n : nat) (s : string) : string :=
  match n, s with
  | O, _ => s
  | S k, String _ r => dropS k r
  | S _, EmptyString => EmptyString
  end.

Fixpoint allWord (s : string) : bool :=
  match s with
  | EmptyString => true
  | String c r => isWord c && allWord r
  end.

(** The shape of a match: a [#] and one word character or more. *)
Definition isTag (t : string) : Prop :=
  ∃ word, t = String "#" word ∧ word ≠ EmptyString ∧ allWord word = true.

(** [t] is [s] with some of its spaces turned into line feeds. *)
Inductive brokenLines : string → string → Prop :=
| brokenLines_nil : brokenLines EmptyString EmptyString
| brokenLines_same c s t : brokenLines s t → brokenLines (String c s) (String c t)
| brokenLines_break s t : brokenLines s t → brokenLines (String " " s) (String LF t).

End ContentProcessor.

(** ** Platform client: the hourly quota and the posts (meta-client.js)

    [checkRateLimit], [getFacebookPageInfo], [uploadFacebookImage],
    [postToFacebook], [uploadInstagramImage], [postToInstagram] and
    [postToPlatform], over the state of the client.  [makeRequest], which
    awaits the HTTP library and throws what [handleApiError] throws, is a
    parameter; a request stands for its method, its URL and its body. *)

Module MetaClient.

(** The two names [checkRateLimit] is called with. *)
Inductive Platform : Type := facebook | instagram.

Definition name (platform : Platform) : string :=
  match platform with
  | facebook => "facebook"
  | instagram => "instagram"
  end.

(** An entry of [rateLimits]. *)
Record RateLimit : Type := mkRateLimit {
  requests : Z;
  resetTime : Z;
}.

Definition maxRequestsPerHour : Z := 200.

Record Client : Type := mkClient {
  facebookAccessToken : option string;
  facebookPageId : option string;
  instagramAccessToken : option string;
  facebookLimit : RateLimit;
  instagramLimit : RateLimit;
  pageAccessToken : option string;
}.

Definition rateLimit (platform : Platform) (c : Client) : RateLimit :=
  match platform with
  | facebook => facebookLimit c
  | instagram => instagramLimit c
  end.

Definition setRateLimit (platform : Platform) (l : RateLimit) (c : Client) : Client :=
  match platform with
  | facebook =>
      mkClient (facebookAccessToken c) (facebookPageId c) (instagramAccessToken c)
               l (instagramLimit c) (pageAccessToken c)
  | instagram =>
      mkClient (facebookAccessToken c) (facebookPageId c) (instagramAccessToken c)
               (facebookLimit c) l (pageAccessToken c)
  end.

Definition setPageAccessToken (t : option string) (c : Client) : Client :=
  mkClient (facebookAccessToken c) (facebookPageId c) (instagramAccessToken c)
           (facebookLimit c) (instagramLimit c) t.

Inductive Request : Type :=
(** [GET /{pageId}?fields=id,name,access_token&access_token=...] *)
| GetPageInfo (pageId accessToken : option string)
(** [POST /{pageId}/photos], a form with [source], [published] and
    [access_token] *)
| PostPhotos (pageId : option string) (source : string) (accessToken : option string)
(** [POST /{pageId}/feed]; [attachedMedia] is the photo of an image post *)
| PostFeed (pageId accessToken : option string)
           (attachedMedia : option (option string)) (message : option string)
(** [POST /me/media], a form with [image_url], [caption] and [access_token] *)
| PostMedia (imageUrl : string) (caption : option string) (accessToken : option string)
(** [POST /me/media_publish] *)
| PostMediaPublish (creationId accessToken : option string).

Definition isPost (r : Request) : bool :=
  match r with
  | GetPageInfo _ _ => false
  | _ => true
  end.

(** The fields that are read from the data of a response. *)
Record Response : Type := mkResponse {
  id : option string;
  access_token : option string;
}.

(** What is outside of the client: the clock, and the requests.  The
    data of a response is [None] when it is [null] (or [undefined], for
    which the message of [field] names [undefined]); data that is no
    object has no field. *)
Class Outside (W : Type) : Type := {
  clock : W → Z * W;
  request : Request → W → Result (option Response) * W;
}.

Section Client.
Context {W : Type} {out : Outside W}.

(** The client, what is outside of it, and the requests it has sent. *)
Record State : Type := mkState {
  client : Client;
  outside : W;
  sent : list Request;
}.

(** A method of the client: it returns or throws, and changes the
    state. *)
Definition M (A : Type) : Type := State → Result A * State.

Definition ret {A} (a : A) : M A := λ st, (Ok a, st).
Definition throw {A} (message : string) : M A := λ st, (Throw message, st).
Definition bind {A B} (m : M A) (k : A → M B) : M B :=
  λ st, match m st with
        | (Ok a, st1) => k a st1
        | (Throw e, st1) => (Throw e, st1)
        end.

Notation "'let!' x ':=' m 'in' k" := (bind m (λ x, k))
  (at level 10, x name, m at level 100, k at level 200, only parsing).

Definition now : M Z :=
  λ st, let '(t, w) := clock (outside st) in
        (Ok t, mkState (client st) w (sent st)).

Definition makeRequest (r : Request) : M (option Response) :=
  λ st, let '(data, w) := request r (outside st) in
        (data, mkState (client st) w (sent st ++ [r])).

Definition getClient : M Client := λ st, (Ok (client st), st).
Definition setClient (f : Client → Client) : M unit :=
  λ st, (Ok tt, mkState (f (client st)) (outside st) (sent st)).

(** [Math.ceil(ms / 1000 / 60)] *)
Definition minutesUp (ms : Z) : Z := - ((- ms) / 60000).

Definition checkRateLimit (platform : Platform) : M unit :=
  let! t := now in
  let! c := getClient in
  let! _ := (if resetTime (rateLimit platform c) <? t
             then let! t2 := now in
                  setClient (setRateLimit platform (mkRateLimit 0 (t2 + 3600000)))
             else ret tt) in
  let! c := getClient in
  let limit := rateLimit platform c in
  if maxRequestsPerHour <=? requests limit then
    let! t3 := now in
    let waitTime := minutesUp (resetTime limit - t3) in
    throw ("Rate limit exceeded for " +:+ name platform +:+ ". Try again in "
           +:+ pretty waitTime +:+ " minutes.")
  else
    setClient (setRateLimit platform (mkRateLimit (requests limit + 1) (resetTime limit))).

(** Reading a field of the data of a response. *)
Definition field {A} (data : option Response) (f : Response → option A) (fieldName : string)
  : M (option A) :=
  match data with
  | Some response => ret (f response)
  | None => throw ("Cannot read properties of null (reading '" +:+ fieldName +:+ "')")
  end.

Definition getFacebookPageInfo : M (option Response) :=
  let! c := getClient in
  let! response := makeRequest (GetPageInfo (facebookPageId c) (facebookAccessToken c)) in
  let! token := field response access_token "access_token" in
  let! _ := (if truthy token then setClient (setPageAccessToken token) else ret tt) in
  ret response.

Definition ensurePageAccessToken : M unit :=
  let! c := getClient in
  if negb (truthy (pageAccessToken c))
  then let! _ := getFacebookPageInfo in ret tt
  else ret tt.

Definition uploadFacebookImage (imagePath : string) : M (option string) :=
  let! _ := checkRateLimit facebook in
  let! _ := ensurePageAccessToken in
  let! c := getClient in
  let! response := makeRequest (PostPhotos (facebookPageId c) imagePath (pageAccessToken c)) in
  field response id "id".

(** Where [postData.imagePath] is truthy it is a string, and
    [interpolate] gives that string. *)
Definition postToFacebook (postData : PostData) : M (option string) :=
  let! _ := checkRateLimit facebook in
  let! _ := ensurePageAccessToken in
  let! c := getClient in
  let accessToken := pageAccessToken c in
  let! payload :=
    (if truthy (imagePath postData) then
       let! photoId := uploadFacebookImage (interpolate (imagePath postData)) in
       ret (Some photoId,
            if String.eqb (pd_content postData) EmptyString then None
            else Some (pd_content postData))
     else ret (None, Some (pd_content postData))) in
  let! c := getClient in
  let! response := makeRequest (PostFeed (facebookPageId c) accessToken
                                         (fst payload) (snd payload)) in
  field response id "id".

Definition uploadInstagramImage (imagePath caption : string) : M (option string) :=
  let! _ := checkRateLimit instagram in
  let! c := getClient in
  let! containerResponse :=
    makeRequest (PostMedia imagePath
                           (if String.eqb caption EmptyString then None else Some caption)
                           (instagramAccessToken c)) in
  let! creationId := field containerResponse id "id" in
  let! publishResponse :=
    makeRequest (PostMediaPublish creationId (instagramAccessToken c)) in
  field publishResponse id "id".

Definition postToInstagram (postData : PostData) : M (option string) :=
  let! _ := checkRateLimit instagram in
  if negb (truthy (imagePath postData))
  then throw "Instagram requires an image for posting"
  else uploadInstagramImage (interpolate (imagePath postData)) (pd_content postData).

(** [(await postToPlatform(platform, postData)).id] *)
Definition postToPlatform (platform : string) (postData : PostData) : M (option string) :=
  if String.eqb platform "facebook" then postToFacebook postData
  else if String.eqb platform "instagram" then postToInstagram postData
  else throw ("Unsupported platform: " +:+ platform).

(** A method that leaves [I] true of the client. *)
Definition keeps (I : Client → Prop) {A} (m : M A) : Prop :=
  ∀ st, I (client st) → I (client (m st).2).

(** The counters are within the quota. *)
Definition withinQuota (c : Client) : Prop :=
  ∀ platform, 0 <= requests (rateLimit platform c) <= maxRequestsPerHour.
End Client.

End MetaClient.

(** ** Health status ([healthStatus], app.js)

    [initializeServices], [updateHealthStatus], the end of [initialize]
    and the start of [shutdown], over the [healthStatus] object. *)

Module Health.

Inductive Status : Type := starting | running | degraded | error | shutting_down.

(** An entry of [healthStatus.services]. *)
Inductive Service : Type := initializing | healthy | service_error.

Record HealthStatus : Type := mkHealthStatus {
  status : Status;
  metaClient : option Service;
  fileReader : option Service;
  contentProcessor : option Service;
  uptime : Z;
  lastCheck : option string;
}.

(** The constructor: [{ status: 'starting', services: {}, uptime: 0,
    lastCheck: null }]. *)
Definition initial : HealthStatus :=
  mkHealthStatus starting None None None 0 None.

Definition setStatus (s : Status) (h : HealthStatus) : HealthStatus :=
  mkHealthStatus s (metaClient h) (fileReader h) (contentProcessor h)
                 (uptime h) (lastCheck h).

(** [initializeServices]: [facebookValid] and [instagramValid] are what
    [metaClient.validateConnection] returned (it does not throw), and
    [filesListed] whether [listPostFiles] and [listImageFiles] both
    returned. *)
Definition initializeServices (facebookValid instagramValid filesListed : bool)
           (h : HealthStatus) : HealthStatus :=
  mkHealthStatus (status h)
                 (Some (if facebookValid || instagramValid then healthy else service_error))
                 (Some (if filesListed then healthy else service_error))
                 (Some healthy)
                 (uptime h) (lastCheck h).

Definition Service_eqb (a b : Service) : bool :=
  match a, b with
  | initializing, initializing | healthy, healthy | service_error, service_error => true
  | _, _ => false
  end.

Definition Status_eqb (a b : Status) : bool :=
  match a, b with
  | starting, starting | running, running | degraded, degraded | error, error
  | shutting_down, shutting_down => true
  | _, _ => false
  end.

(** [updateHealthStatus]: [processUptime] is [Math.floor(process.uptime())]
    and [time] is [new Date().toISOString()]. *)
Definition updateHealthStatus (processUptime : Z) (time : string) (h : HealthStatus)
  : HealthStatus :=
  let h := mkHealthStatus (status h) (metaClient h) (fileReader h) (contentProcessor h)
                          processUptime (Some time) in
  let hasHealthyService :=
    match metaClient h with
    | Some service => Service_eqb service healthy
    | None => false
    end in
  if negb hasHealthyService && Status_eqb (status h) running
  then setStatus degraded h
  else h.

(** The object when [initialize] has returned: the services are
    initialized, [setupHealthMonitoring] runs a first update, and the
    last statement of the [try] block sets the status. *)
Definition initialized (facebookValid instagramValid filesListed : bool)
           (processUptime : Z) (time : string) : HealthStatus :=
  setStatus running
            (updateHealthStatus processUptime time
               (initializeServices facebookValid instagramValid filesListed initial)).

(** The updates of the timer and of the health-check job, each with the
    uptime and the time it reads. *)
Definition updates (readings : list (Z * string)) (h : HealthStatus) : HealthStatus :=
  fold_left (λ h reading, updateHealthStatus reading.1 reading.2 h) readings h.

End Health.

(** ** The drain loop of [shutdown], poll after poll *)

Section Drain.
Context {W : Type} {env : Collaborators W}.

(** The loop that waits for the active jobs, for at most [polls]
    evaluations of its condition: the state in which the process exits. *)
Fixpoint shutdown_drain (polls : nat) (startTime : Z) (st : App W) : option (App W) :=
  match polls with
  | O => None
  | S n =>
      match shutdown_poll startTime st with
      | inr exiting => Some exiting
      | inl waiting => shutdown_drain n startTime waiting
      end
  end.
End Drain.

(** ** More of the concrete outside world *)

Module Scenario.

(** A recurring template: a greeting every Monday at nine. *)
Definition weekly : Post.config :=
  Post.mkConfig (Some "weekly") (Some "Happy {day}!") None (Some ["facebook"]) None
                None (Some "0 9 * * 1") None None
                (Some [("day", Post.VArray ["Monday"])]).

(** A document with a post and a template. *)
Definition document : ScheduleConfig :=
  mkSchedule (Some [Fixture.morning]) (Some [weekly]) None.

(** A document whose second post has neither content nor file. *)
Definition defective : ScheduleConfig :=
  mkSchedule (Some [Fixture.morning; Fixture.emptyTemplate]) None None.

(** Every collaborator succeeds, and the text transform is that of
    content-processor.js. *)
Definition processor : Collaborators nat := {|
  dateNow := Fixture.clock;
  randomIndex := fun _ w => (0%nat, w);
  parseDate := Fixture.parse;
  localTZA := fun _ => 0;
  defaultTimezone := "UTC";
  cronValidate := Fixture.validate;
  basename := Fixture.lastSegment;
  readTextFile := fun _ w => (Ok "text of the file", w);
  processTextContent :=
    fun content platform => ContentProcessor.processTextContent (Some content) platform;
  processImage := Fixture.image;
  postToFacebook := fun _ w => (Ok "fb_1", w);
  postToInstagram := fun _ w => (Ok "ig_1", w);
  startHttpServer := fun w => (Ok tt, w);
|}.

(** Outside of the platform client: it is nine o'clock for the whole
    call, and every request is answered with an identifier and a page
    token. *)
Definition answered : MetaClient.Outside nat := {|
  MetaClient.clock := fun w => (Fixture.nineOClock, w);
  MetaClient.request := fun _ w =>
    (Ok (Some (MetaClient.mkResponse (Some "17841400") (Some "page-token"))), S w);
|}.

(** A client that has used [used] units of the hour that ends at ten. *)
Definition client (used : Z) : MetaClient.Client :=
  MetaClient.mkClient (Some "token") (Some "1234") (Some "instagram-token")
                      (MetaClient.mkRateLimit used (Fixture.nineOClock + 3600000))
                      (MetaClient.mkRateLimit 0 (Fixture.nineOClock + 3600000))
                      None.

Definition state (used : Z) : MetaClient.State (W := nat) :=
  MetaClient.mkState (client used) 0%nat [].

Definition imagePost : PostData :=
  mkPostData "Good morning!" (Some "content/images/processed/morning_facebook.jpg").

Definition textPost : PostData := mkPostData "Good morning!" None.

(** The engine with the platform client of meta-client.js: what is
    outside of the engine is the state of the client. *)
Definition lift {A} (f : nat → A * nat) (st : MetaClient.State (W := nat))
  : A * MetaClient.State (W := nat) :=
  let '(a, w) := f (MetaClient.outside st) in
  (a, MetaClient.mkState (MetaClient.client st) w (MetaClient.sent st)).

Definition posted (r : Result (option string) * MetaClient.State (W := nat))
  : Result string * MetaClient.State (W := nat) :=
  match r with
  | (Ok id, st) => (Ok (interpolate id), st)
  | (Throw e, st) => (Throw e, st)
  end.

Definition withClient : Collaborators (MetaClient.State (W := nat)) := {|
  dateNow := lift Fixture.clock;
  randomIndex := fun _ st => (0%nat, st);
  parseDate := Fixture.parse;
  localTZA := fun _ => 0;
  defaultTimezone := "UTC";
  cronValidate := Fixture.validate;
  basename := Fixture.lastSegment;
  readTextFile := fun _ st => (Ok "text of the file", st);
  processTextContent :=
    fun content platform => ContentProcessor.processTextContent (Some content) platform;
  processImage := fun imagePath platform => lift (Fixture.image imagePath platform);
  postToFacebook :=
    fun postData st => posted (MetaClient.postToFacebook (out := answered) postData st);
  postToInstagram :=
    fun postData st => posted (MetaClient.postToInstagram (out := answered) postData st);
  startHttpServer := fun st => (Ok tt, st);
|}.

(** A post for both platforms that names no image. *)
Definition caption : Post.config :=
  Post.mkConfig (Some "caption") (Some "Good morning! #sun") None
                (Some ["facebook"; "instagram"]) None
                (Some "2024-12-15T09:00:00Z") None None None None.

End Scenario.

(** * Properties *)

(** ** Objects *)

Section Objects.
Context {V : Type}.
Implicit Types (o : JsObject V) (k : string) (v : V).

Lemma obj_get_set k k' v o :
  obj_get k (obj_set k' v o) = if String.eqb k k' then Some v else obj_get k o.
Proof.
  unfold obj_get, obj_set.
  destruct (String.eqb_spec k' "__proto__") as [-> | Hk'];
    destruct (String.eqb_spec k "__proto__") as [-> | Hk]; simpl.
  - reflexivity.
  - destruct (String.eqb_spec k "__proto__"); [contradiction | reflexivity].
  - destruct (String.eqb_spec "__proto__" k'); [congruence | reflexivity].
  - destruct (String.eqb_spec k k') as [-> | Hne].
    + apply lookup_insert_eq.
    + apply lookup_insert_ne. congruence.
Qed.

Lemma obj_keys_set k v o :
  obj_keys (obj_set k v o) = obj_keys o ∪ ({[k]} ∖ {["__proto__"]}).
Proof.
  unfold obj_keys, obj_set.
  destruct (String.eqb_spec k "__proto__") as [-> | Hk]; simpl.
  - set_solver.
  - rewrite dom_insert_L. set_solver.
Qed.

Lemma obj_own_set_is_Some k v o p :
  p ≠ "__proto__" →
  is_Some (own (obj_set k v o) !! p) ↔ p = k ∨ is_Some (own o !! p).
Proof.
  intros Hp. unfold obj_set.
  destruct (String.eqb_spec k "__proto__") as [-> | Hk]; simpl.
  - split; [auto | intros [? | ?]; [contradiction | assumption]].
  - rewrite lookup_insert_is_Some. split.
    + intros [<- | [_ ?]]; auto.
    + intros [-> | ?]; [auto |].
      destruct (decide (k = p)); auto.
Qed.

Lemma obj_keys_empty : obj_keys (@obj_empty V) = ∅.
Proof. unfold obj_keys, obj_empty. simpl. apply dom_empty_L. Qed.
End Objects.

(** ** Executor *)

Section Executor.
Context {W : Type} {env : Collaborators W}.
Implicit Types (st : App W) (jobId platform : string) (postConfig : Post.config).

Lemma published_app (a b : list Event) : published (a ++ b) = published a ++ published b.
Proof. apply omap_app. Qed.

Lemma reports_app (a b : list Event) : reports (a ++ b) = reports a ++ reports b.
Proof. apply omap_app. Qed.

Lemma published_Publish p d (l : list Event) :
  published (Publish p d :: l) = p :: published l.
Proof. reflexivity. Qed.

Lemma reports_Publish p d (l : list Event) : reports (Publish p d :: l) = reports l.
Proof. reflexivity. Qed.

(** Once the content processor has gone through a platform list, every
    platform of the list can be read back. *)
Lemma processContent_loop_complete content imagePaths platforms :
  ∀ acc w processed w1,
    processContent_loop content imagePaths platforms acc w = (Ok processed, w1) →
    ∀ p, p ∈ platforms ∨ is_Some (obj_get p acc) → is_Some (obj_get p processed).
Proof.
  induction platforms as [|q qs IH]; simpl; intros acc w processed w1 Hrun p Hp.
  - inversion Hrun; subst. destruct Hp as [Hp | Hp]; [by apply elem_of_nil in Hp | done].
  - destruct (processPlatformContent content imagePaths q w) as [[pc | e] w2];
      [| discriminate].
    eapply IH; [exact Hrun |].
    rewrite obj_get_set.
    destruct (String.eqb_spec p q) as [-> | Hne]; [right; eauto |].
    destruct Hp as [Hp | Hp]; [| by right].
    apply elem_of_cons in Hp as [-> | Hp]; [contradiction | by left].
Qed.

(** The platform loop: every platform that can be read from the
    processed content is published to, in order, whatever the earlier
    ones returned, and gets its entry. *)
Lemma postAll_loop processed platforms :
  (∀ p, p ∈ platforms → is_Some (obj_get p processed)) →
  ∀ results w calls results1 w1 calls1,
    fold_left (postOne processed) platforms (results, w, calls) = (results1, w1, calls1) →
    ∃ new, calls1 = calls ++ new
           ∧ published new = platforms
           ∧ reports new = []
           ∧ obj_keys results1 = obj_keys results ∪ (list_to_set platforms ∖ {["__proto__"]})
           ∧ (∀ p, p ≠ "__proto__" →
                   is_Some (own results1 !! p) ↔ p ∈ platforms ∨ is_Some (own results !! p)).
Proof.
  induction platforms as [|q qs IH]; simpl; intros Hall results w calls results1 w1 calls1 Hrun.
  - inversion Hrun; subst. exists []. rewrite app_nil_r.
    split_and!; try done; [set_solver |].
    intros p _. split; [by right |].
    intros [Hp | Hp]; [by apply elem_of_nil in Hp | done].
  - destruct (Hall q) as [pc Hpc]; [left |].
    unfold postOne at 1 in Hrun. rewrite Hpc in Hrun.
    set (postData := mkPostData _ _) in Hrun.
    destruct (postToPlatform q postData w) as [[id | e] w2].
    all: apply IH in Hrun as (new & -> & Hpub & Hrep & Hkeys & Hown);
      [| intros p Hp; apply Hall; by right].
    all: exists (Publish q postData :: new);
      rewrite <- app_assoc; rewrite Hkeys, obj_keys_set.
    all: split_and!;
      [done | by rewrite published_Publish, Hpub | by rewrite reports_Publish, Hrep
      | set_solver |].
    all: intros p Hp; rewrite Hown by done; rewrite obj_own_set_is_Some by done;
      rewrite elem_of_cons; naive_solver.
Qed.

Lemma postAll_spec processed platforms w results w1 calls :
  (∀ p, p ∈ platforms → is_Some (obj_get p processed)) →
  postAll processed platforms w = (results, w1, calls) →
  published calls = platforms
  ∧ reports calls = []
  ∧ obj_keys results = list_to_set platforms ∖ {["__proto__"]}
  ∧ (∀ p, p ≠ "__proto__" → is_Some (own results !! p) ↔ p ∈ platforms).
Proof.
  intros Hall Hrun. unfold postAll in Hrun.
  apply postAll_loop in Hrun as (new & -> & Hpub & Hrep & Hkeys & Hown); [| done].
  rewrite obj_keys_empty in Hkeys.
  split_and!; try done; [set_solver |].
  intros p Hp. rewrite Hown by done. cbn. rewrite lookup_empty.
  split; [intros [? | [? ?]]; done | by left].
Qed.

Lemma prepareContent_complete postConfig w processed w1 platforms :
  prepareContent postConfig w = (Ok processed, w1) →
  Post.platforms postConfig = Some platforms →
  ∀ p, p ∈ platforms → is_Some (obj_get p processed).
Proof.
  unfold prepareContent, processContent. intros Hrun Hps p Hp.
  destruct (loadContent postConfig w) as [[content | e] w2]; [| discriminate].
  rewrite Hps in Hrun.
  eapply processContent_loop_complete; [exact Hrun | by left].
Qed.

(** What the steps of [executePost] leave alone. *)
Lemma removeOneTime_log jobId st : log (removeOneTime jobId st) = log st.
Proof.
  unfold removeOneTime. destruct (cronJobs st !! jobId) as [jd |]; [| done].
  by destruct (JobType_eqb (type jd) scheduled_post).
Qed.

Lemma removeOneTime_activeJobs jobId st :
  activeJobs (removeOneTime jobId st) = activeJobs st.
Proof.
  unfold removeOneTime. destruct (cronJobs st !! jobId) as [jd |]; [| done].
  by destruct (JobType_eqb (type jd) scheduled_post).
Qed.

Lemma executePost_catch_activeJobs jobId postConfig t e st :
  activeJobs (executePost_catch jobId postConfig t e st) = activeJobs st.
Proof. unfold executePost_catch. by destruct (dateNow (world st)). Qed.

Lemma executePost_try_activeJobs jobId postConfig t st :
  activeJobs (executePost_try jobId postConfig t st) = activeJobs st.
Proof.
  unfold executePost_try.
  destruct (prepareContent postConfig (world st)) as [[processed | e] w1].
  - destruct (Post.platforms postConfig) as [platforms |].
    + destruct (postAll processed platforms w1) as [[results w2] calls].
      destruct (dateNow w2) as [timerEnd w3].
      by rewrite removeOneTime_activeJobs.
    + by rewrite executePost_catch_activeJobs.
  - by rewrite executePost_catch_activeJobs.
Qed.

Lemma executePost_begin_activeJobs jobId postConfig st :
  is_Some (activeJobs (executePost_begin jobId postConfig st).2 !! jobId)
  ∧ ∀ other, other ≠ jobId →
             activeJobs (executePost_begin jobId postConfig st).2 !! other
             = activeJobs st !! other.
Proof.
  unfold executePost_begin.
  destruct (dateNow (world st)) as [t w]. destruct (dateNow w) as [now w1]. simpl.
  split.
  - rewrite lookup_insert_eq. eauto.
  - intros other Hne. by rewrite lookup_insert_ne.
Qed.
End Executor.

Section ExecutorPass.
Context {W : Type} {env : Collaborators W}.
Implicit Types (st : App W) (jobId platform : string) (postConfig : Post.config).

Lemma forallb_success_values (results : JsObject Outcome) :
  forallb success (obj_values results) = true
  ↔ ∀ p o, own results !! p = Some o → success o = true.
Proof.
  unfold obj_values. rewrite forallb_forall. split.
  - intros Hall p o Hp. apply Hall. apply list_elem_of_In.
    apply list_elem_of_fmap. exists (p, o). split; [done |].
    by apply elem_of_map_to_list.
  - intros Hall o Ho. apply list_elem_of_In in Ho.
    apply list_elem_of_fmap in Ho as ([p o'] & -> & Hin).
    apply elem_of_map_to_list in Hin. by apply (Hall p).
Qed.

Lemma executePost_catch_log jobId postConfig t e st :
  ∃ duration,
    log (executePost_catch jobId postConfig t e st)
    = log st ++ [JobExecuted jobId duration false (Post.id postConfig) (Error e)].
Proof. unfold executePost_catch. destruct (dateNow (world st)) as [tEnd w]. by eexists. Qed.

Lemma executePost_try_log jobId postConfig t st :
  ∃ new, log (executePost_try jobId postConfig t st) = log st ++ new
         ∧ PassLog jobId postConfig new.
Proof.
  unfold executePost_try.
  destruct (prepareContent postConfig (world st)) as [[processed | e] w1] eqn:Hprep.
  - destruct (Post.platforms postConfig) as [platforms |] eqn:Hps.
    + destruct (postAll processed platforms w1) as [[results w2] calls] eqn:Hall.
      destruct (dateNow w2) as [timerEnd w3].
      rewrite removeOneTime_log. cbn.
      eexists. split; [reflexivity |].
      apply postAll_spec in Hall as (Hpub & Hrep & Hkeys & Hown);
        [| by eapply prepareContent_complete].
      by apply PassFinished.
    + destruct (executePost_catch_log jobId postConfig t
                  "postConfig.platforms is not iterable" (setWorld w1 st)) as [d ->].
      eexists. split; [reflexivity | apply PassThrew].
  - destruct (executePost_catch_log jobId postConfig t e (setWorld w1 st)) as [d ->].
    eexists. split; [reflexivity | apply PassThrew].
Qed.

Lemma executePost_begin_log jobId postConfig st :
  log (executePost_begin jobId postConfig st).2 = log st.
Proof.
  unfold executePost_begin.
  destruct (dateNow (world st)) as [t w]. by destruct (dateNow w).
Qed.

Lemma executePost_log jobId postConfig st :
  isShuttingDown st = false →
  ∃ new, log (executePost jobId postConfig st) = log st ++ new
         ∧ PassLog jobId postConfig new.
Proof.
  intros Hflag. unfold executePost. rewrite Hflag.
  destruct (executePost_begin jobId postConfig st) as [t st1] eqn:Hbegin.
  destruct (executePost_try_log jobId postConfig t st1) as (new & Hlog & Hpass).
  exists new. split; [| done].
  cbn. rewrite Hlog. f_equal.
  pose proof (executePost_begin_log jobId postConfig st) as Hb.
  by rewrite Hbegin in Hb.
Qed.

Lemma noneArmed_same st st' :
  tasks st' = tasks st → cronJobs st' = cronJobs st → noneArmed st st'.
Proof. intros Ht Hc. unfold noneArmed. rewrite Ht, Hc. by split_and!. Qed.

Lemma noneArmed_refl st : noneArmed st st.
Proof. by apply noneArmed_same. Qed.

Lemma stopTask_lookup h (ts : list ScheduledTask) i t' :
  stopTask h ts !! i = Some t' → started t' = true → ts !! i = Some t'.
Proof.
  unfold stopTask. intros Hlook Hstarted.
  destruct (decide (h = i)) as [-> | Hne].
  - rewrite list_lookup_alter_eq in Hlook.
    destruct (ts !! i) as [t |]; [| done].
    cbn in Hlook. inversion Hlook; subst. done.
  - by rewrite list_lookup_alter_ne in Hlook.
Qed.

Lemma removeOneTime_noneArmed jobId st : noneArmed st (removeOneTime jobId st).
Proof.
  unfold removeOneTime.
  destruct (cronJobs st !! jobId) as [jd |]; [| apply noneArmed_refl].
  destruct (JobType_eqb (type jd) scheduled_post); [| apply noneArmed_refl].
  split_and!; cbn.
  - unfold stopTask. by rewrite length_alter.
  - intros h t'. apply stopTask_lookup.
  - apply delete_subseteq.
Qed.

Lemma executePost_try_noneArmed jobId postConfig t st :
  noneArmed st (executePost_try jobId postConfig t st).
Proof.
  unfold executePost_try, executePost_catch.
  destruct (prepareContent postConfig (world st)) as [[processed | e] w1].
  - destruct (Post.platforms postConfig) as [platforms |].
    + destruct (postAll processed platforms w1) as [[results w2] calls].
      destruct (dateNow w2) as [timerEnd w3].
      match goal with |- noneArmed _ (removeOneTime _ ?s) =>
        pose proof (removeOneTime_noneArmed jobId s) as Hrem end.
      exact Hrem.
    + cbn. destruct (dateNow w1). by apply noneArmed_same.
  - cbn. destruct (dateNow w1). by apply noneArmed_same.
Qed.

Lemma executePost_noneArmed jobId postConfig st :
  noneArmed st (executePost jobId postConfig st).
Proof.
  unfold executePost. destruct (isShuttingDown st); [apply noneArmed_refl |].
  destruct (executePost_begin jobId postConfig st) as [t st1] eqn:Hbegin.
  pose proof (executePost_try_noneArmed jobId postConfig t st1) as Htry.
  assert (tasks st1 = tasks st ∧ cronJobs st1 = cronJobs st) as [Ht Hc].
  { unfold executePost_begin in Hbegin.
    destruct (dateNow (world st)) as [t0 w]. destruct (dateNow w) as [now w1].
    by inversion Hbegin; subst. }
  unfold noneArmed in *. cbn. by rewrite <- Ht, <- Hc.
Qed.
End ExecutorPass.

(** ** The executor: claims *)

Section ExecutorClaims.
Context {W : Type} {env : Collaborators W}.
Implicit Types (st : App W) (jobId platform : string) (postConfig : Post.config).

(** C8.  An execution that begins puts its identifier into [activeJobs];
    when [executePost] returns the identifier is gone, whatever the
    collaborators did (success, a platform that failed, a throw of the
    file reader or of the content processor, a platform list that cannot
    be iterated): the [finally] block removes it from whatever state the
    [try] and [catch] blocks leave.  No other identifier is touched. *)
Theorem executePost_releases_activeJobs jobId postConfig st :
  isShuttingDown st = false →
  is_Some (activeJobs (executePost_begin jobId postConfig st).2 !! jobId)
  ∧ activeJobs (executePost jobId postConfig st) !! jobId = None
  ∧ (∀ st2, activeJobs (executePost_finally jobId st2) !! jobId = None)
  ∧ (∀ other, other ≠ jobId →
        activeJobs (executePost jobId postConfig st) !! other = activeJobs st !! other).
Proof.
  intros Hflag.
  destruct (executePost_begin_activeJobs jobId postConfig st) as [Hin Hothers].
  split_and!.
  - exact Hin.
  - unfold executePost. rewrite Hflag.
    destruct (executePost_begin jobId postConfig st) as [t st1].
    cbn. apply lookup_delete_eq.
  - intros st2. cbn. apply lookup_delete_eq.
  - intros other Hne. unfold executePost. rewrite Hflag.
    destruct (executePost_begin jobId postConfig st) as [t st1] eqn:Hbegin.
    cbn. rewrite lookup_delete_ne by done.
    rewrite executePost_try_activeJobs.
    exact (Hothers other Hne).
Qed.

(** C3, amended.  A pass that begins either gets its content loaded and
    processed for the whole platform list, or one of the two throws.  In
    the first case every platform of the list is published to, in order
    and whatever the other platforms returned, and the pass is reported
    with an outcome map that has one entry per platform (the name
    [__proto__] apart, which an object does not keep as a key).  In the
    second case, whatever the job, its configuration and the error, no
    platform is published to: the pass writes its report and nothing
    else, a failure that carries the error and no outcome map. *)
Theorem executePost_publishes_to_every_platform jobId postConfig st :
  isShuttingDown st = false →
  match prepareContent postConfig (world (executePost_begin jobId postConfig st).2) with
  | (Ok processed, _) =>
      ∀ platforms,
        Post.platforms postConfig = Some platforms →
        ∃ calls duration results,
          log (executePost jobId postConfig st)
          = log st ++ calls ++
            [JobExecuted jobId duration (forallb success (obj_values results))
                         (Post.id postConfig) (Results platforms results)]
          ∧ published calls = platforms
          ∧ obj_keys results = list_to_set platforms ∖ {["__proto__"]}
          ∧ (∀ p, p ∈ platforms → p ≠ "__proto__" → is_Some (own results !! p))
  | (Throw e, _) =>
      ∃ duration,
        log (executePost jobId postConfig st)
        = log st ++ [JobExecuted jobId duration false (Post.id postConfig) (Error e)]
  end.
Proof.
  intros Hflag. unfold executePost. rewrite Hflag.
  pose proof (executePost_begin_log jobId postConfig st) as Hlog.
  destruct (executePost_begin jobId postConfig st) as [t st1]. cbn in Hlog. cbn [snd].
  destruct (prepareContent postConfig (world st1)) as [[processed | e] w1] eqn:Hprep.
  - intros platforms Hps.
    unfold executePost_try. rewrite Hprep, Hps.
    destruct (postAll processed platforms w1) as [[results w2] calls] eqn:Hall.
    destruct (dateNow w2) as [timerEnd w3].
    apply postAll_spec in Hall as (Hpub & _ & Hkeys & Hown);
      [| by eapply prepareContent_complete].
    exists calls, (timerEnd - t), results.
    split_and!; try done.
    + cbn. rewrite removeOneTime_log. cbn. by rewrite Hlog.
    + intros p Hp Hne. by apply Hown.
  - unfold executePost_try. rewrite Hprep.
    destruct (executePost_catch_log jobId postConfig t e (setWorld w1 st1)) as [d Hd].
    exists d. cbn. rewrite Hd. cbn. by rewrite Hlog.
Qed.

(** The shutdown flag, in every state.  Once it is set, [executePost]
    returns the state it was given: nothing is added to [activeJobs] and
    nothing is published or reported, also when a trigger still fires.
    The drain loop removes nothing from [activeJobs] while it waits; only
    the exit after the timeout clears the set.  Setting the flag leaves
    [activeJobs] as it is, and a pass in flight that finishes removes its
    own identifier only: an identifier that it may share with another
    pass. *)
Lemma shutdown_flag_stops_new_executions st :
  isShuttingDown st = true →
  (∀ jobId postConfig, executePost jobId postConfig st = st)
  ∧ (∀ h, activeJobs (fire h st) = activeJobs st
          ∧ log (fire h st) = log st
          ∧ isShuttingDown (fire h st) = true)
  ∧ (∀ startTime,
        match shutdown_poll startTime st with
        | inl waiting =>
            activeJobs waiting = activeJobs st ∧ isShuttingDown waiting = true
        | inr exiting =>
            activeJobs exiting = activeJobs st
            ∨ shutdownTimeout ≤ (dateNow (world st)).1 - startTime
        end)
  ∧ (∀ st0, shutdown_begin st0 = Some st → activeJobs st = activeJobs st0)
  ∧ (∀ jobId postConfig timerStart other,
        other ≠ jobId →
        activeJobs (executePost_finally jobId
                      (executePost_try jobId postConfig timerStart st)) !! other
        = activeJobs st !! other).
Proof.
  intros Hflag.
  assert (Hexec : ∀ jobId postConfig s,
             isShuttingDown s = true → executePost jobId postConfig s = s).
  { intros jobId postConfig s Hs. unfold executePost. by rewrite Hs. }
  split_and!.
  - intros jobId postConfig. by apply Hexec.
  - intros h. unfold fire.
    destruct (tasks st !! h) as [task |]; [| done].
    destruct (started task); [| done].
    destruct (callback task) as [jobId postConfig | jobId r | |]; try done.
    + by rewrite Hexec.
    + unfold executeRecurringPost.
      destruct (match Post.variables r with
                | Some variables =>
                    processTemplate_opt (Post.content r) variables (world st)
                | None => (Ok (Post.content r), world st)
                end) as [[content | e] w]; [| done].
      destruct (dateNow w) as [now1 w1]. destruct (dateNow w1) as [now2 w2].
      cbn. by rewrite Hexec.
  - intros startTime. unfold shutdown_poll.
    case_bool_decide; [by left |].
    destruct (dateNow (world st)) as [now w]. cbn.
    destruct (Z.ltb_spec (now - startTime) shutdownTimeout); [done |].
    by right.
  - intros st0. unfold shutdown_begin.
    destruct (isShuttingDown st0); [done |].
    intros [= <-]. done.
  - intros jobId postConfig timerStart other Hne. cbn.
    rewrite lookup_delete_ne by done. by rewrite executePost_try_activeJobs.
Qed.

(** The removal of a one-off job is the last step of the [try] block:
    it happens when the platform loop was reached, *)
Lemma executePost_removes_one_off jobId postConfig st platforms processed w1 jobData :
  isShuttingDown st = false →
  Post.platforms postConfig = Some platforms →
  prepareContent postConfig (world (executePost_begin jobId postConfig st).2)
  = (Ok processed, w1) →
  cronJobs st !! jobId = Some jobData →
  type jobData = scheduled_post →
  cronJobs (executePost jobId postConfig st) = delete jobId (cronJobs st)
  ∧ tasks (executePost jobId postConfig st) = stopTask (job jobData) (tasks st).
Proof.
  intros Hflag Hps Hprep Hjob Htype. unfold executePost. rewrite Hflag.
  assert (Hsame : cronJobs (executePost_begin jobId postConfig st).2 = cronJobs st
                  ∧ tasks (executePost_begin jobId postConfig st).2 = tasks st).
  { unfold executePost_begin.
    destruct (dateNow (world st)) as [t0 w]. by destruct (dateNow w). }
  destruct (executePost_begin jobId postConfig st) as [t st1].
  cbn in Hprep, Hsame. destruct Hsame as [Hc Ht].
  unfold executePost_try. rewrite Hprep, Hps.
  destruct (postAll processed platforms w1) as [[results w2] calls].
  destruct (dateNow w2) as [timerEnd w3].
  unfold removeOneTime. cbn. rewrite Hc, Hjob, Htype, Ht. by cbn.
Qed.

(** and not when the content could not be prepared. *)
Lemma executePost_keeps_job_when_preparation_throws jobId postConfig st e w1 :
  isShuttingDown st = false →
  prepareContent postConfig (world (executePost_begin jobId postConfig st).2)
  = (Throw e, w1) →
  cronJobs (executePost jobId postConfig st) = cronJobs st
  ∧ tasks (executePost jobId postConfig st) = tasks st.
Proof.
  intros Hflag Hprep. unfold executePost. rewrite Hflag.
  assert (Hsame : cronJobs (executePost_begin jobId postConfig st).2 = cronJobs st
                  ∧ tasks (executePost_begin jobId postConfig st).2 = tasks st).
  { unfold executePost_begin.
    destruct (dateNow (world st)) as [t0 w]. by destruct (dateNow w). }
  destruct (executePost_begin jobId postConfig st) as [t st1].
  cbn in Hprep, Hsame. destruct Hsame as [Hc Ht].
  unfold executePost_try, executePost_catch. rewrite Hprep. cbn.
  by destruct (dateNow w1).
Qed.

(** Scheduling an identifier that is in the registry binds the entry to
    a new task and leaves the task it was bound to as it was. *)
Lemma schedulePost_keeps_prior_task postConfig st id jobData task :
  Post.id postConfig = Some id → id ≠ EmptyString →
  isOk (cronValidate (Some (dateToCron localTZA
                                       (parseDate (Post.scheduledTime postConfig))
                                       (Post.timezone postConfig)))
                     (orDefault (Post.timezone postConfig) defaultTimezone)) = true →
  cronJobs st !! ("post_" +:+ id) = Some jobData →
  tasks st !! job jobData = Some task →
  job <$> cronJobs (schedulePost postConfig st) !! ("post_" +:+ id)
  = Some (length (tasks st))
  ∧ job jobData ≠ length (tasks st)
  ∧ tasks (schedulePost postConfig st) !! job jobData = Some task.
Proof.
  intros Hid Hne Hvalid Hjob Htask. unfold schedulePost.
  assert (Htruthy : truthy (Post.id postConfig) = true).
  { rewrite Hid. cbn. by destruct (String.eqb_spec id EmptyString). }
  rewrite Htruthy, Hid. cbn [interpolate].
  destruct (cronValidate _ _) as [u | e]; [| discriminate]. cbn.
  assert (Hlt : (job jobData < length (tasks st))%nat) by by eapply lookup_lt_Some.
  split_and!.
  - by rewrite lookup_insert_eq.
  - lia.
  - unfold startTask. rewrite list_lookup_alter_ne by lia.
    by rewrite lookup_app_l.
Qed.

(** C1, amended.  A call of [executePost] is one pass, whatever the job,
    its configuration and the errors of the collaborators: the platform
    client is called not at all or once for every entry of the platform
    list, in the order of the list; at most one report is written, a
    failure as soon as one recorded outcome is an error; and no task is
    started and no registry entry added: a task that is started after
    the pass was started before it.  When the platform loop was reached,
    a one-off job is removed from the registry and the task of its entry
    is stopped, whatever the platforms returned.  (The retry table is
    not read by any function of the engine.) *)
Theorem executePost_single_pass jobId postConfig st :
  (∃ new,
      log (executePost jobId postConfig st) = log st ++ new
      ∧ (published new = [] ∨ Post.platforms postConfig = Some (published new))
      ∧ (length (reports new) ≤ 1)%nat
      ∧ (∀ ok platforms results,
            (jobId, ok, Results platforms results) ∈ reports new →
            ok = true ↔ ∀ p o, own results !! p = Some o → success o = true))
  ∧ noneArmed st (executePost jobId postConfig st)
  ∧ (∀ platforms processed w1 jobData,
        isShuttingDown st = false →
        Post.platforms postConfig = Some platforms →
        prepareContent postConfig (world (executePost_begin jobId postConfig st).2)
        = (Ok processed, w1) →
        cronJobs st !! jobId = Some jobData →
        type jobData = scheduled_post →
        cronJobs (executePost jobId postConfig st) = delete jobId (cronJobs st)
        ∧ tasks (executePost jobId postConfig st) = stopTask (job jobData) (tasks st)).
Proof.
  split; [| split; [apply executePost_noneArmed |]].
  - destruct (isShuttingDown st) eqn:Hflag.
    + exists []. unfold executePost. rewrite Hflag, app_nil_r.
      split_and!; [done | by left | cbn; lia |].
      intros ok ps results Hin. by apply elem_of_nil in Hin.
    + destruct (executePost_log jobId postConfig st Hflag) as (new & Hlog & Hpass).
      exists new. split; [done |].
      destruct Hpass as [d e | calls d ps results Hps Hpub Hrep Hkeys Hown].
      * split_and!; [by left | cbn; lia |].
        intros ok ps results Hin. cbn in Hin.
        apply list_elem_of_singleton in Hin. discriminate.
      * rewrite published_app, reports_app, Hrep, Hpub. cbn. rewrite app_nil_r.
        split_and!; [by right | lia |].
        intros ok ps' results' Hin.
        apply list_elem_of_singleton in Hin. inversion Hin; subst.
        apply forallb_success_values.
  - intros platforms processed w1 jobData Hflag Hps Hprep Hjob Htype.
    by eapply executePost_removes_one_off.
Qed.

(** A pass that is resumed at once is the pass of [executePost], *)
Lemma executePost_call_resume jobId postConfig st :
  executePost jobId postConfig st = settle (executePost_call jobId postConfig st).
Proof.
  unfold executePost, executePost_call, settle.
  destruct (isShuttingDown st); [done |].
  by destruct (executePost_begin jobId postConfig st).
Qed.

(** and a callback that is resumed at once is the firing of [fire]. *)
Lemma fire_call_resume h st : fire h st = settle (fire_call h st).
Proof.
  unfold fire, fire_call.
  destruct (tasks st !! h) as [task |]; [| done].
  destruct (started task); [| done].
  destruct (callback task) as [jobId postConfig | jobId r | |]; try done.
  - apply executePost_call_resume.
  - unfold executeRecurringPost, executeRecurringPost_call.
    destruct (match Post.variables r with
              | Some variables =>
                  processTemplate_opt (Post.content r) variables (world st)
              | None => (Ok (Post.content r), world st)
              end) as [[content | e] w]; [| done].
    destruct (dateNow w) as [now1 w1]. destruct (dateNow w1) as [now2 w2].
    cbn [snd]. apply executePost_call_resume.
Qed.

(** A pass leaves [activeJobs] without its identifier, whoever had put
    it there. *)
Lemma executePost_resume_activeJobs (pass : Pass) st :
  activeJobs (executePost_resume pass st) = delete (pass_jobId pass) (activeJobs st).
Proof.
  unfold executePost_resume. cbn. by rewrite executePost_try_activeJobs.
Qed.
End ExecutorClaims.

(** On an input: a post to two platforms, every collaborator healthy. *)
Lemma executePost_releases_activeJobs_witness :
  activeJobs (executePost (env := Fixture.healthy) "post_morning_post" Fixture.morning
                          (newApp 0%nat)) !! "post_morning_post" = None.
Proof.
  destruct (executePost_releases_activeJobs (env := Fixture.healthy)
              "post_morning_post" Fixture.morning (newApp 0%nat))
    as (_ & Hgone & _); [reflexivity | exact Hgone].
Defined.

(** The specification's wording, with no condition on the content, fails:
    the text of the post is in a file and has 2300 characters, which the
    content processor accepts for Facebook and rejects for Instagram;
    Facebook is never called and the pass ends without an outcome map. *)
Lemma executePost_content_failure_skips_every_platform :
  let st := executePost (env := Fixture.longFiles) "post_long" Fixture.fromFile
                        (newApp 0%nat) in
  Post.platforms Fixture.fromFile = Some ["facebook"; "instagram"]
  ∧ published (log st) = []
  ∧ reports (log st)
    = [("post_long", false,
        Error "Content too long for instagram: 2300/2200 characters")].
Proof. vm_compute. done. Qed.

(** On two inputs: Facebook fails and Instagram is still published to;
    the text of the file is too long for Instagram and nothing is
    published. *)
Lemma executePost_publishes_to_every_platform_witness :
  (∃ calls duration results,
      log (executePost (env := Fixture.facebookDown) "post_morning_post" Fixture.morning
                       (newApp 0%nat))
      = [] ++ calls ++
        [JobExecuted "post_morning_post" duration (forallb success (obj_values results))
                     (Post.id Fixture.morning) (Results ["facebook"; "instagram"] results)]
      ∧ published calls = ["facebook"; "instagram"]
      ∧ obj_keys results = list_to_set ["facebook"; "instagram"] ∖ {["__proto__"]}
      ∧ (∀ p, p ∈ ["facebook"; "instagram"] → p ≠ "__proto__" →
              is_Some (own results !! p)))
  ∧ (∃ duration,
        log (executePost (env := Fixture.longFiles) "post_long" Fixture.fromFile
                         (newApp 0%nat))
        = [] ++ [JobExecuted "post_long" duration false (Post.id Fixture.fromFile)
                             (Error "Content too long for instagram: 2300/2200 characters")]).
Proof.
  split.
  - pose proof (executePost_publishes_to_every_platform (env := Fixture.facebookDown)
                  "post_morning_post" Fixture.morning (newApp 0%nat) eq_refl) as Hpass.
    exact (Hpass ["facebook"; "instagram"] eq_refl).
  - exact (executePost_publishes_to_every_platform (env := Fixture.longFiles)
             "post_long" Fixture.fromFile (newApp 0%nat) eq_refl).
Defined.

(** The retry cycle of the specification does not take place: every call
    to Facebook fails with a network error, a class with four attempts in
    the retry table; the job is published to once, reported failed,
    removed and its task stopped; no task is left started and a later
    firing does nothing. *)
Lemma executePost_does_not_retry_network_error :
  let armed := schedulePost (env := Fixture.facebookDown) Fixture.facebookOnly
                            (newApp 0%nat) in
  let st := fire (env := Fixture.facebookDown) 0 armed in
  maxAttempts retry.network_error = 4
  ∧ published (log st) = ["facebook"]
  ∧ fst <$> reports (log st) = [("post_a", false)]
  ∧ cronJobs st = ∅
  ∧ started <$> tasks st = [false]
  ∧ fire (env := Fixture.facebookDown) 0 st = st.
Proof. vm_compute. done. Qed.

(** On an input: the flag is set while [post_b] is in flight. *)
Lemma shutdown_flag_stops_new_executions_witness :
  executePost (env := Fixture.healthy) "post_a" Fixture.facebookOnly Fixture.draining
  = Fixture.draining.
Proof.
  destruct (shutdown_flag_stops_new_executions (env := Fixture.healthy) Fixture.draining)
    as (Hnoop & _); [reflexivity | apply Hnoop].
Defined.

(** On an input: every call to Facebook fails, and the job is removed
    and its task stopped. *)
Lemma executePost_single_pass_witness :
  let armed := schedulePost (env := Fixture.facebookDown) Fixture.facebookOnly
                            (newApp 0%nat) in
  cronJobs (executePost (env := Fixture.facebookDown) "post_a" Fixture.facebookOnly armed)
  = delete "post_a" (cronJobs armed)
  ∧ tasks (executePost (env := Fixture.facebookDown) "post_a" Fixture.facebookOnly armed)
    = stopTask 0 (tasks armed).
Proof.
  intros armed.
  destruct (executePost_single_pass (env := Fixture.facebookDown)
              "post_a" Fixture.facebookOnly armed) as (_ & _ & Hremoved).
  eapply (Hremoved ["facebook"] _ _
            (mkJobData 0 (Some Fixture.facebookOnly) scheduled_post)).
  - reflexivity.
  - reflexivity.
  - vm_compute. reflexivity.
  - reflexivity.
  - reflexivity.
Defined.

(** C6.  The code at the failing input: a schedule in which two posts
    have the same identifier and the same minute passes validation and
    both tasks are started.  Both triggers fire, and the two passes are in
    flight under one key of [activeJobs].  [shutdown] begins and its drain
    loop waits.  The first pass finishes and its [finally] block deletes
    the key: [activeJobs] is empty while the second pass is still in
    flight, so the next evaluation of the loop condition ends the loop
    and the process exits, the timeout not having elapsed and the second
    pass not having finished. *)
Theorem shutdown_exits_with_pass_in_flight :
  Validators.validateScheduleConfig (libraries := Fixture.libraries) (Some Overlap.doc)
  = true
  ∧ started <$> tasks Overlap.scheduled = [true; true; true; true]
  ∧ pass_jobId <$> Overlap.first.1 = Some "post_a"
  ∧ pass_jobId <$> Overlap.second.1 = Some "post_a"
  ∧ (map_to_list (activeJobs Overlap.second.2)).*1 = ["post_a"]
  ∧ shutdown_begin Overlap.second.2 = Some Overlap.flagged
  ∧ shutdown_poll (env := Fixture.healthy) Overlap.startTime Overlap.draining
    = inl Overlap.waiting
  ∧ activeJobs Overlap.waiting = activeJobs Overlap.second.2
  ∧ activeJobs Overlap.firstDone = ∅
  ∧ published (log Overlap.firstDone) = ["facebook"]
  ∧ shutdown_poll (env := Fixture.healthy) Overlap.startTime Overlap.firstDone
    = inr Overlap.firstDone
  ∧ (Fixture.clock (world Overlap.firstDone)).1 - Overlap.startTime < shutdownTimeout.
Proof. vm_compute. done. Qed.

(** C5.  The code at the failing input: a one-off post whose text is in
    a file passes validation and is armed; its trigger fires and the
    content processor throws, the text being too long for Instagram.  The
    pass is reported failed, and the job is still in the registry with its
    task started.  Had the pass reached the platform loop (the same post
    with a short text) the job would have been removed and stopped. *)
Theorem one_off_job_survives_failed_preparation :
  let doc := mkSchedule (Some [Fixture.fromFile]) None None in
  let armed := schedulePost (env := Fixture.longFiles) Fixture.fromFile (newApp 0%nat) in
  let st := fire (env := Fixture.longFiles) 0 armed in
  let st' := fire (env := Fixture.healthy) 0 armed in
  Validators.validateScheduleConfig (libraries := Fixture.libraries) (Some doc) = true
  ∧ reports (log st)
    = [("post_long", false,
        Error "Content too long for instagram: 2300/2200 characters")]
  ∧ (type <$> cronJobs st !! "post_long") = Some scheduled_post
  ∧ started <$> tasks st = [true]
  ∧ activeJobs st = ∅
  ∧ cronJobs st' = ∅
  ∧ started <$> tasks st' = [false].
Proof. vm_compute. done. Qed.

(** C4.  The code at the failing input: a schedule in which two posts
    have the same identifier passes validation and is scheduled.  The
    registry has one entry for the identifier, bound to the second task;
    the first task is still started and no entry refers to it.  When it
    fires it removes the entry and stops the second task, and stays
    started itself; [shutdown] stops the tasks of the registry, not this
    one. *)
Theorem schedulePost_twice_leaves_first_task_started :
  let doc := mkSchedule (Some [Fixture.facebookOnly; Fixture.facebookOnly]) None None in
  let scheduled := startScheduler (env := Fixture.healthy) doc (newApp 0%nat) in
  let fired := fire (env := Fixture.healthy) 0 scheduled in
  Validators.validateScheduleConfig (libraries := Fixture.libraries) (Some doc) = true
  ∧ (job <$> cronJobs scheduled !! "post_a") = Some 1%nat
  ∧ size (cronJobs scheduled) = 3%nat
  ∧ started <$> tasks scheduled = [true; true; true; true]
  ∧ cronJobs fired !! "post_a" = None
  ∧ started <$> tasks fired = [true; false; true; true]
  ∧ (λ st, started <$> tasks st) <$> shutdown_begin scheduled
    = Some [true; false; false; false].
Proof. vm_compute. done. Qed.

(** ** The trigger converter *)


Section Calendar.
Import JsDate.

Lemma YearFromDay_spec d :
  DayFromYear (YearFromDay d) <= d < DayFromYear (YearFromDay d + 1).
Proof.
  unfold YearFromDay.
  set (y := 1970 + 400 * d / 146097).
  assert (Hy : DayFromYear (y - 1) <= d < DayFromYear (y + 2)).
  { subst y. unfold DayFromYear. Z.div_mod_to_equations. lia. }
  destruct (Z.leb_spec (DayFromYear (y + 1)) d).
  - replace (y + 1 + 1) with (y + 2) by lia. lia.
  - destruct (Z.leb_spec (DayFromYear y) d).
    + lia.
    + replace (y - 1 + 1) with y by lia. lia.
Qed.

Lemma DaysInYear_spec y : DayFromYear (y + 1) - DayFromYear y = DaysInYear y.
Proof.
  unfold DayFromYear, DaysInYear.
  repeat match goal with
         | |- context [Z.eqb ?a ?b] => destruct (Z.eqb_spec a b); cbn [negb]
         end;
    Z.div_mod_to_equations; lia.
Qed.

Lemma DaysInYear_cases y : DaysInYear y = 365 ∨ DaysInYear y = 366.
Proof.
  unfold DaysInYear.
  repeat match goal with
         | |- context [Z.eqb ?a ?b] => destruct (Z.eqb_spec a b); cbn [negb]
         end; auto.
Qed.

Lemma DayWithinYear_bounds t :
  0 <= DayWithinYear t < DaysInYear (YearFromTime t).
Proof.
  unfold DayWithinYear, YearFromTime.
  pose proof (YearFromDay_spec (Day t)).
  pose proof (DaysInYear_spec (YearFromDay (Day t))).
  lia.
Qed.

Lemma InLeapYear_leapDays t : InLeapYear t = Calendar.leapDays (YearFromTime t).
Proof.
  unfold InLeapYear, Calendar.leapDays.
  destruct (DaysInYear_cases (YearFromTime t)) as [-> | ->]; reflexivity.
Qed.

Lemma time_split t :
  t / msPerMinute = (Day t * 24 + HourFromTime t) * 60 + MinFromTime t
  ∧ 0 <= HourFromTime t < 24 ∧ 0 <= MinFromTime t < 60.
Proof.
  unfold Day, HourFromTime, MinFromTime, msPerDay, msPerHour, msPerMinute.
  Z.div_mod_to_equations. lia.
Qed.

(** The getters read the calendar: month and day of the month are in
    range and, with hour and minute, name the minute the local time
    falls into. *)
Lemma local_fields t :
  let year := YearFromTime t in
  let month := MonthFromTime t + 1 in
  let day := DateFromTime t in
  1 <= month <= 12
  ∧ 1 <= day <= Calendar.daysInMonth year month
  ∧ 0 <= HourFromTime t < 24
  ∧ 0 <= MinFromTime t < 60
  ∧ t / msPerMinute
    = Calendar.minuteOf year month day (HourFromTime t) (MinFromTime t).
Proof.
  intros year month day.
  destruct (time_split t) as (Hsplit & Hhour & Hmin).
  pose proof (DayWithinYear_bounds t) as Hd.
  pose proof (InLeapYear_leapDays t) as Hleap.
  assert (Hday : Day t = DayFromYear year + DayWithinYear t)
    by (unfold DayWithinYear, year; lia).
  unfold Calendar.minuteOf. rewrite Hsplit, Hday.
  subst month day. unfold Calendar.daysInMonth, DateFromTime, MonthFromTime.
  fold year in Hd, Hleap |- *. rewrite Hleap.
  unfold Calendar.leapDays in *.
  destruct (DaysInYear_cases year) as [Hy | Hy]; rewrite Hy in *;
    repeat match goal with
           | |- context [Z.ltb ?a ?b] => destruct (Z.ltb_spec a b)
           end;
    literals; unfold Calendar.daysBefore; cbv beta iota; lia.
Qed.
End Calendar.

Section TriggerConverterClaims.
Variable localTZA : Z -> Z.

(** C2, amended.  When the offset of the given time zone at the
    timestamp is the offset of the local zone of the process,
    [dateToCron] returns the five-field expression the specification
    describes: minute, hour, day of the month and month are those of the
    timestamp in that zone, they are in range and name the minute the
    timestamp falls into (what is below the minute is dropped), and the
    day of the week is a wildcard.  The expression has no year: every
    instant with the same four local values has the same expression.
    [dateToCron] returns an expression for every argument: an invalid
    date gives the fields [NaN]. *)
Theorem dateToCron_local_fields
        (zoneOffset : string → option (Z → Z)) t timezone offset :
  zoneOffset timezone = Some offset →
  offset t = localTZA t →
  Claimed.dateToCron zoneOffset (JsDate.TimeValue t) timezone
  = Some (dateToCron localTZA (JsDate.TimeValue t) (Some timezone))
  ∧ (∃ year month day hour minute,
        dateToCron localTZA (JsDate.TimeValue t) (Some timezone)
        = pretty minute +:+ " " +:+ pretty hour +:+ " " +:+ pretty day +:+ " "
          +:+ pretty month +:+ " *"
        ∧ 0 <= minute < 60 ∧ 0 <= hour < 24
        ∧ 1 <= month <= 12 ∧ 1 <= day <= Calendar.daysInMonth year month
        ∧ (t + offset t) / 60000 = Calendar.minuteOf year month day hour minute)
  ∧ (∀ t' timezone',
        JsDate.MinFromTime (t' + localTZA t') = JsDate.MinFromTime (t + localTZA t) →
        JsDate.HourFromTime (t' + localTZA t') = JsDate.HourFromTime (t + localTZA t) →
        JsDate.DateFromTime (t' + localTZA t') = JsDate.DateFromTime (t + localTZA t) →
        JsDate.MonthFromTime (t' + localTZA t') = JsDate.MonthFromTime (t + localTZA t) →
        dateToCron localTZA (JsDate.TimeValue t') timezone'
        = dateToCron localTZA (JsDate.TimeValue t) (Some timezone))
  ∧ dateToCron localTZA JsDate.InvalidDate (Some timezone) = "NaN NaN NaN NaN *".
Proof.
  intros Hzone Hoffset.
  split_and!.
  - unfold Claimed.dateToCron. rewrite Hzone, Hoffset. reflexivity.
  - pose proof (local_fields (t + localTZA t)) as (Hmonth & Hday & Hhour & Hmin & Hminute).
    exists (JsDate.YearFromTime (t + localTZA t)),
           (JsDate.MonthFromTime (t + localTZA t) + 1),
           (JsDate.DateFromTime (t + localTZA t)),
           (JsDate.HourFromTime (t + localTZA t)),
           (JsDate.MinFromTime (t + localTZA t)).
    split; [reflexivity |].
    rewrite Hoffset. unfold JsDate.msPerMinute in Hminute.
    split_and!; solve [lia | exact Hminute].
  - intros t' timezone' Hmin Hhour Hday Hmonth.
    unfold dateToCron, JsDate.getMinutes, JsDate.getHours, JsDate.getDate,
      JsDate.getMonth, JsDate.getter, JsDate.LocalTime.
    by rewrite Hmin, Hhour, Hday, Hmonth.
  - reflexivity.
Qed.
End TriggerConverterClaims.

(** On an input: a process in UTC and the zone [UTC]. *)
Lemma dateToCron_local_fields_witness :
  Claimed.dateToCron Fixture.zones (JsDate.TimeValue Fixture.nineOClock) "UTC"
  = Some (dateToCron (fun _ => 0) (JsDate.TimeValue Fixture.nineOClock) (Some "UTC")).
Proof.
  destruct (dateToCron_local_fields (fun _ => 0) Fixture.zones Fixture.nineOClock
                                    "UTC" (fun _ => 0))
    as (Hsame & _); [reflexivity | reflexivity | exact Hsame].
Defined.

(** The specification's wording fails: in a process that runs in UTC,
    09:00 UTC converted for [Asia/Tokyo] keeps the fields of 09:00 where
    the time in that zone is 18:00; an identifier that names no time zone
    is converted all the same; and the expression is also that of the same
    day and time a year later. *)
Lemma dateToCron_ignores_timezone :
  dateToCron (fun _ => 0) (JsDate.TimeValue Fixture.nineOClock) (Some "Asia/Tokyo")
  = "0 9 15 12 *"
  ∧ dateToCron (fun _ => 0) (JsDate.TimeValue (Fixture.nineOClock + 365 * 86400000))
               (Some "Asia/Tokyo")
    = "0 9 15 12 *"
  ∧ Claimed.dateToCron Fixture.zones (JsDate.TimeValue Fixture.nineOClock) "Asia/Tokyo"
    = Some "0 18 15 12 *"
  ∧ dateToCron (fun _ => 0) (JsDate.TimeValue Fixture.nineOClock) (Some "Mars/Olympus")
    = "0 9 15 12 *"
  ∧ Claimed.dateToCron Fixture.zones (JsDate.TimeValue Fixture.nineOClock) "Mars/Olympus"
    = None.
Proof. vm_compute. done. Qed.

(** ** Template substitution *)

Section Replace.
Import JsString.
Implicit Types (s p r a b : string).

Lemma append_cons x a b : String x a +:+ b = String x (a +:+ b).
Proof. reflexivity. Qed.

Lemma append_nil b : EmptyString +:+ b = b.
Proof. reflexivity. Qed.

Lemma strip_spec p s a : strip p s = Some a ↔ s = p +:+ a.
Proof.
  revert s. induction p as [|x p IH]; intros s.
  - cbn. split; [by intros [= ->] | by intros ->].
  - rewrite append_cons. destruct s as [|y s]; cbn; [split; discriminate |].
    destruct (Ascii.eqb_spec x y) as [-> | Hne].
    + rewrite IH. split; [by intros -> | by intros [= ->]].
    + split; [discriminate | intros [= -> _]; contradiction].
Qed.

Lemma splitFirst_unfold p s :
  splitFirst p s
  = match strip p s with
    | Some after => Some (EmptyString, after)
    | None =>
        match s with
        | EmptyString => None
        | String c s' =>
            match splitFirst p s' with
            | Some (before, after) => Some (String c before, after)
            | None => None
            end
        end
    end.
Proof. by destruct s. Qed.

(** [splitFirst] cuts around an occurrence of the pattern, *)
Lemma splitFirst_Some p s :
  ∀ b a, splitFirst p s = Some (b, a) → s = b +:+ p +:+ a.
Proof.
  induction s as [|y s IH]; intros b a; rewrite splitFirst_unfold.
  - destruct (strip p EmptyString) as [a0 |] eqn:Hs; [| discriminate].
    intros [= <- <-]. rewrite append_nil. by apply strip_spec.
  - destruct (strip p (String y s)) as [a0 |] eqn:Hs.
    + intros [= <- <-]. rewrite append_nil. by apply strip_spec.
    + destruct (splitFirst p s) as [[b0 a0] |] eqn:Hrec; [| discriminate].
      intros [= <- <-]. rewrite append_cons. f_equal. by apply IH.
Qed.

(** the first one, *)
Lemma splitFirst_first p s :
  ∀ b a, splitFirst p s = Some (b, a) →
  ∀ b' a', s = b' +:+ p +:+ a' → (String.length b ≤ String.length b')%nat.
Proof.
  induction s as [|y s IH]; intros b a; rewrite splitFirst_unfold.
  - destruct (strip p EmptyString) as [a0 |]; [| discriminate].
    intros [= <- <-] b' a' _. cbn. lia.
  - destruct (strip p (String y s)) as [a0 |] eqn:Hs.
    + intros [= <- <-] b' a' _. cbn. lia.
    + destruct (splitFirst p s) as [[b0 a0] |] eqn:Hrec; [| discriminate].
      intros [= <- <-] b' a' Heq.
      destruct b' as [|z b'].
      * rewrite append_nil in Heq.
        apply strip_spec in Heq. congruence.
      * rewrite append_cons in Heq. injection Heq as -> Heq. cbn.
        specialize (IH b0 a0 eq_refl b' a' Heq). lia.
Qed.

(** and finds one whenever there is one. *)
Lemma splitFirst_None p s :
  splitFirst p s = None → ∀ b a, s ≠ b +:+ p +:+ a.
Proof.
  induction s as [|y s IH]; rewrite splitFirst_unfold.
  - destruct (strip p EmptyString) as [a0 |] eqn:Hs; [discriminate |].
    intros _ b a Heq. destruct b as [|z b]; [| by rewrite append_cons in Heq].
    rewrite append_nil in Heq.
    apply strip_spec in Heq. congruence.
  - destruct (strip p (String y s)) as [a0 |] eqn:Hs; [discriminate |].
    destruct (splitFirst p s) as [[b0 a0] |] eqn:Hrec; [discriminate |].
    intros _ b a Heq. destruct b as [|z b].
    + rewrite append_nil in Heq.
      apply strip_spec in Heq. congruence.
    + rewrite append_cons in Heq. injection Heq as -> Heq.
      by eapply IH.
Qed.

Lemma substitute_plain matched before after r :
  contains "$" r = false → substitute matched before after r = r.
Proof.
  induction r as [|c r IH]; [done |].
  cbn [contains substitute]. rewrite Ascii.eqb_sym.
  destruct (Ascii.eqb c "$"); [discriminate |].
  rewrite orb_false_l. intros Hr. by rewrite IH.
Qed.

Lemma replace_plain s p r :
  contains "$" r = false → replace s p r = replaceLiteral s p r.
Proof.
  intros Hr. unfold replace, replaceLiteral.
  destruct (splitFirst p s) as [[b a] |]; [| done].
  by rewrite substitute_plain.
Qed.

Lemma replace_absent s p r : splitFirst p s = None → replace s p r = s.
Proof. intros Hs. unfold replace. by rewrite Hs. Qed.

Lemma replaceLiteral_absent s p r : splitFirst p s = None → replaceLiteral s p r = s.
Proof. intros Hs. unfold replaceLiteral. by rewrite Hs. Qed.

Lemma noExpansion_unfold c r :
  noExpansion (String c r)
  = match r with
    | String d _ =>
        negb (Ascii.eqb c "$"
              && (Ascii.eqb d "$" || Ascii.eqb d "&" || Ascii.eqb d "`"
                  || Ascii.eqb d "'"))
    | EmptyString => true
    end
    && noExpansion r.
Proof. reflexivity. Qed.

Lemma substitute_unfold matched before after c rest :
  substitute matched before after (String c rest)
  = if Ascii.eqb c "$" then
      match rest with
      | String d rest' =>
          if Ascii.eqb d "$" then String "$" (substitute matched before after rest')
          else if Ascii.eqb d "&" then matched +:+ substitute matched before after rest'
          else if Ascii.eqb d "`" then before +:+ substitute matched before after rest'
          else if Ascii.eqb d "'" then after +:+ substitute matched before after rest'
          else String c (substitute matched before after rest)
      | EmptyString => String c EmptyString
      end
    else String c (substitute matched before after rest).
Proof. reflexivity. Qed.

(** Where nothing is to be expanded the replacement text is put in as it
    is, with the [$] it may hold. *)
Lemma substitute_noExpansion matched before after r :
  noExpansion r = true → substitute matched before after r = r.
Proof.
  induction r as [|c r IH]; [done |].
  rewrite noExpansion_unfold, substitute_unfold.
  intros [Hhead Hrest]%andb_true_iff. specialize (IH Hrest).
  destruct (Ascii.eqb c "$"); [| by rewrite IH].
  destruct r as [|d r']; [done |].
  cbn [andb] in Hhead. apply negb_true_iff in Hhead.
  apply orb_false_iff in Hhead as [Hhead Hq].
  apply orb_false_iff in Hhead as [Hhead Hb].
  apply orb_false_iff in Hhead as [Hd Ha].
  rewrite Hd, Ha, Hb, Hq. by rewrite IH.
Qed.

Lemma replace_noExpansion s p r :
  noExpansion r = true → replace s p r = replaceLiteral s p r.
Proof.
  intros Hr. unfold replace, replaceLiteral.
  destruct (splitFirst p s) as [[b a] |]; [| done].
  by rewrite substitute_noExpansion.
Qed.

(** What the literal replacement does. *)
Lemma replaceLiteral_spec s p r :
  (replaceLiteral s p r = s ∧ ∀ b a, s ≠ b +:+ p +:+ a)
  ∨ (∃ b a, s = b +:+ p +:+ a
            ∧ (∀ b' a', s = b' +:+ p +:+ a' → (String.length b ≤ String.length b')%nat)
            ∧ replaceLiteral s p r = b +:+ r +:+ a).
Proof.
  unfold replaceLiteral.
  destruct (splitFirst p s) as [[b a] |] eqn:Hsplit.
  - right. exists b, a. split_and!; [| | done].
    + by apply splitFirst_Some.
    + by eapply splitFirst_first.
  - left. split; [done | by apply splitFirst_None].
Qed.
End Replace.

Section TemplateClaims.
Context {W : Type} {env : Collaborators W}.

(** C10, amended.  [processTemplate] goes through the variables in order
    and, for each one whose value is an array, replaces the first
    occurrence of its placeholder in the text as the earlier
    substitutions left it (if there is one) by the element of the array
    that the random index picks, as it is; variables whose value is not
    an array and placeholders without a variable change nothing, and so
    do the later occurrences of a placeholder.  This holds of every run
    in which each placeholder that is found gets an element (its array
    is not empty) that holds none of the four sequences [$$], [$&],
    [$`] and [$']; any other [$], as in [$5], is as good as a letter,
    and where the placeholder is not in the text neither an empty array
    nor such a sequence matters. *)
Theorem processTemplate_replaces_first_occurrence content variables w :
  insertsElements content variables w = true →
  processTemplate content variables w = Claimed.processTemplate content variables w
  ∧ (∀ s p r,
        (JsString.replaceLiteral s p r = s ∧ ∀ b a, s ≠ b +:+ p +:+ a)
        ∨ (∃ b a, s = b +:+ p +:+ a
                  ∧ (∀ b' a', s = b' +:+ p +:+ a' →
                              (String.length b ≤ String.length b')%nat)
                  ∧ JsString.replaceLiteral s p r = b +:+ r +:+ a)).
Proof.
  intros Hrun. split; [| apply replaceLiteral_spec].
  revert content w Hrun.
  induction variables as [|[key value] rest IH]; intros content w Hrun.
  - reflexivity.
  - destruct value as [values |];
      cbn [processTemplate Claimed.processTemplate insertsElements] in Hrun |- *.
    + destruct (randomIndex (length values) w) as [i w1].
      destruct (JsString.splitFirst ("{" +:+ key +:+ "}") content) as [found |] eqn:Hsplit.
      * destruct (values !! i) as [element |]; [| discriminate].
        apply andb_true_iff in Hrun as [Hliteral Hrest].
        cbn [interpolate].
        rewrite <- replace_noExpansion by done. by apply IH.
      * rewrite replace_absent by done.
        destruct (values !! i) as [element |]; [| by apply IH].
        rewrite replaceLiteral_absent by done. by apply IH.
    + by apply IH.
Qed.
End TemplateClaims.

(** On an input: the placeholder occurs twice and the element holds a
    [$]; the array of a placeholder that is not in the text is empty. *)
Lemma processTemplate_replaces_first_occurrence_witness :
  processTemplate (env := Fixture.healthy) "{price}, {price}!"
                  [("price", Post.VArray ["$5 off"; "US$"]); ("name", Post.VOther);
                   ("day", Post.VArray [])]
                  0%nat
  = ("$5 off, {price}!", 0%nat).
Proof.
  destruct (processTemplate_replaces_first_occurrence (env := Fixture.healthy)
              "{price}, {price}!"
              [("price", Post.VArray ["$5 off"; "US$"]); ("name", Post.VOther);
               ("day", Post.VArray [])] 0%nat)
    as [Hsame _]; [reflexivity |].
  rewrite Hsame. reflexivity.
Defined.

(** Stated for every variables map, the property fails: an empty
    candidate array puts the text [undefined] in place of the placeholder,
    and a candidate with [$$] or [$&] is not put in as it is. *)
Lemma processTemplate_inserts_other_text :
  (processTemplate (env := Fixture.healthy) "Hello {name}!"
                   [("name", Post.VArray [])] 0%nat).1 = "Hello undefined!"
  ∧ (Claimed.processTemplate (env := Fixture.healthy) "Hello {name}!"
                   [("name", Post.VArray [])] 0%nat).1 = "Hello {name}!"
  ∧ (processTemplate (env := Fixture.healthy) "Only {price} today"
                   [("price", Post.VArray ["$$5 ($&)"])] 0%nat).1
    = "Only $5 ({price}) today"
  ∧ (Claimed.processTemplate (env := Fixture.healthy) "Only {price} today"
                   [("price", Post.VArray ["$$5 ($&)"])] 0%nat).1
    = "Only $$5 ($&) today".
Proof. vm_compute. done. Qed.

(** ** Startup validation *)

Section ValidatorLemmas.
Context {libraries : Validators.Libraries}.
Import Validators.

Lemma concat_imap_nil {A B} (f : nat → A → list B) (l : list A) :
  concat (imap f l) = [] ↔ ∀ i x, l !! i = Some x → f i x = [].
Proof.
  revert f. induction l as [|y l IH]; intros f; cbn.
  - split; [intros _ i x Hi; by rewrite lookup_nil in Hi | done].
  - rewrite app_nil, IH. split.
    + intros [H0 HS] [|i] x Hi; cbn in Hi; [by inversion Hi; subst | by apply HS].
    + intros H. split; [by apply (H 0%nat) | intros i x Hi; by apply (H (S i))].
Qed.

Lemma concat_map_nil {A B} (f : A → list B) (l : list A) :
  concat (map f l) = [] ↔ ∀ x, x ∈ l → f x = [].
Proof.
  induction l as [|y l IH]; cbn.
  - split; [intros _ x Hx; by apply elem_of_nil in Hx | done].
  - rewrite app_nil, IH. split.
    + intros [Hy Hl] x Hx. apply elem_of_cons in Hx as [-> | Hx]; auto.
    + intros H. split; [apply H; by left | intros x Hx; apply H; by right].
Qed.

Lemma validatePlatforms_forallb ps :
  validatePlatforms ps = match ps with
                         | [] => false
                         | _ => forallb (includes validPlatforms) ps
                         end.
Proof.
  unfold validatePlatforms. destruct ps as [|p ps]; [done |].
  generalize (p :: ps). clear. intros l.
  induction l as [|q l IH]; [done |].
  cbn [forallb]. rewrite filter_cons.
  destruct (includes validPlatforms q); cbn.
  - rewrite decide_False by (intros []). exact IH.
  - by rewrite decide_True.
Qed.

Lemma imageErrors_nil index images :
  imageErrors index images = [] ↔ ∀ image, image ∈ images → image ≠ Post.NotAString.
Proof.
  unfold imageErrors. rewrite concat_imap_nil. split.
  - intros H image Hin ->. apply list_elem_of_lookup in Hin as [i Hi].
    by specialize (H i _ Hi).
  - intros H i image Hi. destruct image; [done |].
    exfalso. eapply H; [| reflexivity]. by eapply list_elem_of_lookup_2.
Qed.
End ValidatorLemmas.

Section ValidationClaims.
Context {W : Type} {env : Collaborators W} {libraries : Validators.Libraries}.
Import Validators.

(** A post passes [validateSchedulePost] when it has none of the three
    basic defects and its time, images and text pass their checks. *)
Lemma validateSchedulePost_nil post index :
  validateSchedulePost post index = []
  ↔ postDefect post = false ∧ postAccepted post.
Proof.
  unfold validateSchedulePost, postDefect, postAccepted.
  destruct post as [id content file platforms images time pattern zone priority vars].
  cbn [Post.content Post.file Post.platforms Post.images Post.scheduledTime
       Post.timezone].
  rewrite !app_nil, !orb_false_iff.
  assert (Htime :
            match time with
            | Some t =>
                if String.eqb t EmptyString then [MissingScheduledTime index]
                else if validateDateTime t zone
                     then [] else [DateTimeError index]
            | None => [MissingScheduledTime index]
            end = []
            ↔ negb (truthy time) = false
              ∧ ∃ t, time = Some t
                     ∧ validateDateTime t zone
                       = true).
  { destruct time as [t |]; cbn [truthy].
    - destruct (String.eqb t EmptyString) eqn:Ht; cbn.
      + split; [discriminate | intros [? _]; discriminate].
      + destruct (validateDateTime t zone) eqn:Hv.
        * split; [eauto | done].
        * split; [discriminate | intros [_ (t' & [= <-] & Hv')]; congruence].
    - cbn. split; [discriminate | intros [? _]; discriminate]. }
  assert (Hplatforms :
            match platforms with
            | None | Some [] => [NoPlatform index]
            | Some ps => if validatePlatforms ps then []
                         else [PlatformError index]
            end = []
            ↔ match platforms with
              | None | Some [] => true
              | Some ps =>
                  negb (forallb (includes validPlatforms) ps)
              end = false).
  { destruct platforms as [[|p ps] |]; try (split; discriminate).
    rewrite validatePlatforms_forallb.
    destruct (forallb _ (p :: ps)); cbn; split; done || discriminate. }
  assert (Hbasic :
            (if negb (truthy content) && negb (truthy file)
             then [MissingContentOrFile index] else []) = []
            ↔ negb (truthy content) && negb (truthy file) = false).
  { destruct (negb (truthy content) && negb (truthy file)); split; done || discriminate. }
  assert (Himages :
            match images with
            | Some images => imageErrors index images
            | None => []
            end = []
            ↔ ∀ l, images = Some l → ∀ image, image ∈ l → image ≠ Post.NotAString).
  { destruct images as [l |].
    - rewrite imageErrors_nil. split; [intros H l' [= <-]; exact H | eauto].
    - split; [intros _ l [=] | done]. }
  assert (Htext :
            match content, platforms with
            | Some c, Some ps =>
                if String.eqb c EmptyString then []
                else concat (map (fun platform =>
                                    if validateTextContent c platform
                                    then [] else [TextError index platform])
                                 ps)
            | _, _ => []
            end = []
            ↔ ∀ c ps, content = Some c → c ≠ EmptyString → platforms = Some ps →
                      ∀ platform, platform ∈ ps →
                                  validateTextContent c platform = true).
  { destruct content as [c |]; [| split; [intros _ ? ? [=] | done]].
    destruct platforms as [ps |]; [| split; [intros _ ? ? _ _ [=] | done]].
    destruct (String.eqb_spec c EmptyString) as [-> | Hc].
    - split; [intros _ ? ? [= <-] ?; contradiction | done].
    - rewrite concat_map_nil. split.
      + intros H c' ps' [= <-] _ [= <-] platform Hin.
        specialize (H platform Hin).
        by destruct (validateTextContent c platform).
      + intros H platform Hin. by rewrite (H c ps). }
  rewrite Hbasic, Htime, Hplatforms, Himages, Htext.
  tauto.
Qed.

(** C7, amended.  Validation rejects, and startup stops with an error
    without scheduling anything, every document in which some entry of
    [posts] has no platform or a platform outside [facebook],
    [instagram], has neither content nor file, or has no scheduled time.
    The recurring templates are not looked at.  A document passes when
    [posts] is an array, every post is free of these defects and passes
    the checks of its time, images and text, and the settings pass; it
    is then, once the health server listens, handed to the scheduler. *)
Theorem validateScheduleConfig_checks_posts (doc : ScheduleConfig) :
  (∀ ps index post (st : App W),
      posts doc = Some ps → ps !! index = Some post →
      postDefect post = true →
      validateScheduleConfig (Some doc) = false
      ∧ loadScheduleConfig (Some doc) = Throw "Invalid schedule configuration"
      ∧ initialize (Some doc) st = (Throw "Invalid schedule configuration", st))
  ∧ (∀ templates,
        validateScheduleConfig (Some (mkSchedule (posts doc) templates (settings doc)))
        = validateScheduleConfig (Some doc))
  ∧ (validateScheduleConfig (Some doc) = true
     ↔ ∃ ps, posts doc = Some ps
             ∧ (∀ index post, ps !! index = Some post →
                              postDefect post = false ∧ postAccepted post)
             ∧ (∀ s, settings doc = Some s →
                     validateScheduleSettings s = []))
  ∧ (validateScheduleConfig (Some doc) = true →
     loadScheduleConfig (Some doc) = Ok doc
     ∧ ∀ (st : App W) w,
         startHttpServer (world st) = (Ok tt, w) →
         initialize (Some doc) st = (Ok tt, startScheduler doc (setWorld w st))).
Proof.
  assert (Hvalid :
            validateScheduleConfig (Some doc) = true
            ↔ ∃ ps, posts doc = Some ps
                    ∧ (∀ index post, ps !! index = Some post →
                                     validateSchedulePost post index = [])
                    ∧ (∀ s, settings doc = Some s →
                            validateScheduleSettings s = [])).
  { unfold validateScheduleConfig, validateScheduleConfig_errors.
    destruct (posts doc) as [ps |]; [| split; [discriminate | intros (? & [=] & _)]].
    rewrite Nat.eqb_eq, length_zero_iff_nil, app_nil, concat_imap_nil. split.
    - intros [Hposts Hsettings]. exists ps. split_and!; [done | done |].
      intros s Hs. by rewrite Hs in Hsettings.
    - intros (ps' & [= <-] & Hposts & Hsettings). split; [done |].
      destruct (settings doc); [by apply Hsettings | done]. }
  split_and!.
  - intros ps index post st Hps Hindex Hdefect.
    assert (Hfalse : validateScheduleConfig (Some doc) = false).
    { apply not_true_is_false. intros Hv.
      apply Hvalid in Hv as (ps' & Hps' & Hposts & _).
      rewrite Hps in Hps'. injection Hps' as <-.
      apply Hposts in Hindex. apply validateSchedulePost_nil in Hindex as [Hno _].
      congruence. }
    unfold initialize, loadScheduleConfig. by rewrite Hfalse.
  - intros templates. reflexivity.
  - rewrite Hvalid. split.
    + intros (ps & Hps & Hposts & Hsettings). exists ps. split_and!; [done | | done].
      intros index post Hindex. apply (validateSchedulePost_nil post index).
      by apply (Hposts index post).
    + intros (ps & Hps & Hposts & Hsettings). exists ps. split_and!; [done | | done].
      intros index post Hindex. apply validateSchedulePost_nil. by apply (Hposts index post).
  - intros Hv. unfold initialize, loadScheduleConfig. rewrite Hv.
    split; [done |]. intros st w Hlisten. by rewrite Hlisten.
Qed.
End ValidationClaims.

(** The specification's wording of the validation fails both ways: a
    document whose recurring template has no platform, no content and no
    trigger pattern passes validation, and a post that has content, a
    platform and a trigger pattern, so none of the listed defects, is
    rejected for want of a scheduled time. *)
Lemma validateScheduleConfig_differs_from_claim :
  let templates := mkSchedule (Some []) (Some [Fixture.emptyTemplate]) None in
  let pattern := mkSchedule (Some [Fixture.patternPost]) None None in
  (∀ libraries : Validators.Libraries,
      Validators.validateScheduleConfig (Some templates) = true)
  ∧ Claimed.validateScheduleConfig templates = false
  ∧ (∀ libraries : Validators.Libraries,
        Validators.validateScheduleConfig (Some pattern) = false)
  ∧ Claimed.validateScheduleConfig pattern = true.
Proof. split_and!; try (intros libraries); vm_compute; reflexivity. Qed.

(** On an input: a document with one post and the empty template passes
    and is scheduled. *)
Lemma validateScheduleConfig_checks_posts_witness :
  let doc := mkSchedule (Some [Fixture.morning]) (Some [Fixture.emptyTemplate]) None in
  initialize (env := Fixture.healthy) (libraries := Fixture.libraries) (Some doc)
             (newApp 0%nat)
  = (Ok tt, startScheduler (env := Fixture.healthy) doc (setWorld 0%nat (newApp 0%nat))).
Proof.
  intros doc.
  destruct (validateScheduleConfig_checks_posts (env := Fixture.healthy)
              (libraries := Fixture.libraries) doc) as (_ & _ & _ & Hhanded).
  apply Hhanded; vm_compute; reflexivity.
Defined.

(** ** The priority label *)

Section Priority.
Context {W : Type} {env : Collaborators W}.
Implicit Types (st : App W) (c : Post.config).

Lemma erase_stopTask h (ts : list ScheduledTask) :
  Erase.ofTask <$> stopTask h ts = stopTask h (Erase.ofTask <$> ts).
Proof. unfold stopTask. apply list_fmap_alter, Forall_forall. by intros []. Qed.

Lemma erase_startTask h (ts : list ScheduledTask) :
  Erase.ofTask <$> startTask h ts = startTask h (Erase.ofTask <$> ts).
Proof. unfold startTask. apply list_fmap_alter, Forall_forall. by intros []. Qed.

Lemma erase_prepareContent c w :
  prepareContent (Erase.ofConfig c) w = prepareContent c w.
Proof. by destruct c. Qed.

Lemma erase_removeOneTime jobId st :
  Erase.ofApp (removeOneTime jobId st) = removeOneTime jobId (Erase.ofApp st).
Proof.
  unfold removeOneTime. cbn [cronJobs Erase.ofApp]. rewrite lookup_fmap.
  destruct (cronJobs st !! jobId) as [jobData |]; [| done]. cbn.
  destruct (JobType_eqb (type jobData) scheduled_post); [| done].
  unfold Erase.ofApp. cbn. by rewrite fmap_delete, erase_stopTask.
Qed.

Lemma erase_executePost_catch jobId c t e st :
  Erase.ofApp (executePost_catch jobId c t e st)
  = executePost_catch jobId (Erase.ofConfig c) t e (Erase.ofApp st).
Proof.
  unfold executePost_catch. cbn [world Erase.ofApp].
  destruct (dateNow (world st)) as [timerEnd w]. by destruct c.
Qed.

Lemma erase_executePost_try jobId c t st :
  Erase.ofApp (executePost_try jobId c t st)
  = executePost_try jobId (Erase.ofConfig c) t (Erase.ofApp st).
Proof.
  unfold executePost_try. cbn [world Erase.ofApp].
  rewrite erase_prepareContent.
  destruct (prepareContent c (world st)) as [[processed | e] w1].
  - replace (Post.platforms (Erase.ofConfig c)) with (Post.platforms c) by by destruct c.
    destruct (Post.platforms c) as [platforms |].
    + destruct (postAll processed platforms w1) as [[results w2] calls].
      destruct (dateNow w2) as [timerEnd w3].
      rewrite erase_removeOneTime. by destruct c.
    + apply (erase_executePost_catch jobId c t _ (setWorld w1 st)).
  - apply (erase_executePost_catch jobId c t _ (setWorld w1 st)).
Qed.

Lemma erase_executePost_finally jobId st :
  Erase.ofApp (executePost_finally jobId st) = executePost_finally jobId (Erase.ofApp st).
Proof. unfold executePost_finally, Erase.ofApp. cbn. by rewrite fmap_delete. Qed.

Lemma erase_executePost_begin jobId c st :
  executePost_begin jobId (Erase.ofConfig c) (Erase.ofApp st)
  = ((executePost_begin jobId c st).1, Erase.ofApp (executePost_begin jobId c st).2).
Proof.
  unfold executePost_begin. cbn [world Erase.ofApp].
  destruct (dateNow (world st)) as [timerStart w]. destruct (dateNow w) as [now w1].
  unfold Erase.ofApp. cbn. by rewrite fmap_insert.
Qed.

Lemma erase_executePost jobId c st :
  Erase.ofApp (executePost jobId c st)
  = executePost jobId (Erase.ofConfig c) (Erase.ofApp st).
Proof.
  unfold executePost. rewrite erase_executePost_begin.
  cbn [isShuttingDown Erase.ofApp].
  destruct (isShuttingDown st); [done |].
  destruct (executePost_begin jobId c st) as [timerStart st1]. cbn [fst snd].
  by rewrite erase_executePost_finally, erase_executePost_try.
Qed.

Lemma erase_executeRecurringPost jobId c st :
  Erase.ofApp (executeRecurringPost jobId c st).2
  = (executeRecurringPost jobId (Erase.ofConfig c) (Erase.ofApp st)).2
  ∧ (executeRecurringPost jobId c st).1
    = (executeRecurringPost jobId (Erase.ofConfig c) (Erase.ofApp st)).1.
Proof.
  unfold executeRecurringPost. cbn [world Erase.ofApp].
  replace (Post.variables (Erase.ofConfig c)) with (Post.variables c) by by destruct c.
  replace (Post.content (Erase.ofConfig c)) with (Post.content c) by by destruct c.
  replace (Post.id (Erase.ofConfig c)) with (Post.id c) by by destruct c.
  destruct (match Post.variables c with
            | Some variables => processTemplate_opt (Post.content c) variables (world st)
            | None => (Ok (Post.content c), world st)
            end) as [[content | e] w]; [| done].
  destruct (dateNow w) as [now1 w1]. destruct (dateNow w1) as [now2 w2]. cbn.
  split; [| done].
  rewrite erase_executePost. by destruct c.
Qed.

Lemma erase_fire h st :
  Erase.ofApp (fire h st) = fire h (Erase.ofApp st).
Proof.
  unfold fire. cbn [tasks Erase.ofApp]. rewrite list_lookup_fmap.
  destruct (tasks st !! h) as [task |]; [| done]. cbn.
  destruct (started task); [| done].
  destruct (callback task) as [jobId c | jobId c | |]; cbn; try done.
  - apply erase_executePost.
  - apply erase_executeRecurringPost.
Qed.

Lemma erase_schedulePost c st :
  Erase.ofApp (schedulePost c st) = schedulePost (Erase.ofConfig c) (Erase.ofApp st).
Proof.
  unfold schedulePost. cbn [world Erase.ofApp].
  replace (Post.id (Erase.ofConfig c)) with (Post.id c) by by destruct c.
  replace (Post.scheduledTime (Erase.ofConfig c)) with (Post.scheduledTime c)
    by by destruct c.
  replace (Post.timezone (Erase.ofConfig c)) with (Post.timezone c) by by destruct c.
  replace (Post.platforms (Erase.ofConfig c)) with (Post.platforms c) by by destruct c.
  destruct (if truthy (Post.id c) then (interpolate (Post.id c), world st)
            else let '(now, w) := dateNow (world st) in (pretty now, w))
    as [suffix w].
  destruct (cronValidate _ _); [| done].
  unfold Erase.ofApp. cbn.
  rewrite fmap_insert, erase_startTask, fmap_app, !length_fmap. reflexivity.
Qed.

Lemma erase_scheduleRecurringPost c st :
  Erase.ofApp (scheduleRecurringPost c st)
  = scheduleRecurringPost (Erase.ofConfig c) (Erase.ofApp st).
Proof.
  unfold scheduleRecurringPost.
  replace (Post.id (Erase.ofConfig c)) with (Post.id c) by by destruct c.
  replace (Post.cronPattern (Erase.ofConfig c)) with (Post.cronPattern c)
    by by destruct c.
  replace (Post.timezone (Erase.ofConfig c)) with (Post.timezone c) by by destruct c.
  replace (Post.platforms (Erase.ofConfig c)) with (Post.platforms c) by by destruct c.
  destruct (cronValidate _ _); [| done].
  unfold Erase.ofApp. cbn.
  rewrite fmap_insert, erase_startTask, fmap_app, !length_fmap. reflexivity.
Qed.

Lemma erase_startMaintenanceJobs st :
  Erase.ofApp (startMaintenanceJobs st) = startMaintenanceJobs (Erase.ofApp st).
Proof.
  unfold startMaintenanceJobs, Erase.ofApp. cbn.
  rewrite !fmap_insert, !erase_startTask, !fmap_app, !length_app, !length_fmap.
  reflexivity.
Qed.

Lemma erase_startScheduler doc st :
  Erase.ofApp (startScheduler doc st)
  = startScheduler (Erase.ofSchedule doc) (Erase.ofApp st).
Proof.
  unfold startScheduler. rewrite erase_startMaintenanceJobs. f_equal.
  cbn [posts recurring Erase.ofSchedule].
  assert (Hposts : ∀ ps s,
             Erase.ofApp (fold_left (λ s post, schedulePost post s) ps s)
             = fold_left (λ s post, schedulePost post s) (Erase.ofList ps)
                         (Erase.ofApp s)).
  { induction ps as [|p ps IH]; intros s; [done |].
    cbn. by rewrite IH, erase_schedulePost. }
  assert (Htemplates : ∀ rs s,
             Erase.ofApp (fold_left (λ s r, scheduleRecurringPost r s) rs s)
             = fold_left (λ s r, scheduleRecurringPost r s) (Erase.ofList rs)
                         (Erase.ofApp s)).
  { induction rs as [|r rs IH]; intros s; [done |].
    cbn. by rewrite IH, erase_scheduleRecurringPost. }
  destruct (recurring doc) as [rs |]; destruct (posts doc) as [ps |]; cbn;
    rewrite ?Htemplates, ?Hposts; reflexivity.
Qed.

Lemma erase_fires firings st :
  Erase.ofApp (fold_left (λ s h, fire h s) firings st)
  = fold_left (λ s h, fire h s) firings (Erase.ofApp st).
Proof.
  revert st. induction firings as [|h hs IH]; intros st; [done |].
  cbn. by rewrite IH, erase_fire.
Qed.

Lemma erase_validateSchedulePost {libraries : Validators.Libraries} c index :
  Validators.validateSchedulePost (Erase.ofConfig c) index
  = Validators.validateSchedulePost c index.
Proof. by destruct c. Qed.

Lemma erase_validateScheduleConfig {libraries : Validators.Libraries} doc :
  Validators.validateScheduleConfig (Some (Erase.ofSchedule doc))
  = Validators.validateScheduleConfig (Some doc).
Proof.
  unfold Validators.validateScheduleConfig, Validators.validateScheduleConfig_errors.
  cbn [posts settings Erase.ofSchedule].
  destruct (posts doc) as [ps |]; [| done]. cbn.
  unfold Erase.ofList. rewrite imap_fmap.
  assert (Hposts :
            imap (λ n, (λ post, Validators.validateSchedulePost post n) ∘ Erase.ofConfig) ps
            = imap (λ index post, Validators.validateSchedulePost post index) ps).
  { apply imap_ext. intros i c _. apply erase_validateSchedulePost. }
  by rewrite Hposts.
Qed.

(** C9.  Two schedule documents that differ in priority labels only,
    started from states that differ in priority labels only, pass or
    fail validation together, and after scheduling and any sequence of
    trigger firings the two runs have written the same log (the same
    calls to the platforms and the same outcome maps), left the outside
    world in the same state, and hold registries, tasks and active sets
    that again differ in priority labels only: the same identifiers, the
    same expressions, the same tasks started. *)
Theorem priority_noninterference {libraries : Validators.Libraries}
        (doc1 doc2 : ScheduleConfig) (st1 st2 : App W) (firings : list nat) :
  Erase.ofSchedule doc1 = Erase.ofSchedule doc2 →
  Erase.ofApp st1 = Erase.ofApp st2 →
  let run doc st := fold_left (λ s h, fire h s) firings (startScheduler doc st) in
  Validators.validateScheduleConfig (Some doc1)
  = Validators.validateScheduleConfig (Some doc2)
  ∧ Erase.ofApp (run doc1 st1) = Erase.ofApp (run doc2 st2)
  ∧ log (run doc1 st1) = log (run doc2 st2)
  ∧ world (run doc1 st1) = world (run doc2 st2)
  ∧ dom (cronJobs (run doc1 st1)) = dom (cronJobs (run doc2 st2))
  ∧ dom (activeJobs (run doc1 st1)) = dom (activeJobs (run doc2 st2))
  ∧ expression <$> tasks (run doc1 st1) = expression <$> tasks (run doc2 st2)
  ∧ started <$> tasks (run doc1 st1) = started <$> tasks (run doc2 st2).
Proof.
  intros Hdoc Hst run.
  assert (Hrun : Erase.ofApp (run doc1 st1) = Erase.ofApp (run doc2 st2)).
  { unfold run. by rewrite !erase_fires, !erase_startScheduler, Hdoc, Hst. }
  split_and!.
  - by rewrite <- (erase_validateScheduleConfig doc1), Hdoc, erase_validateScheduleConfig.
  - exact Hrun.
  - exact (f_equal log Hrun).
  - exact (f_equal world Hrun).
  - pose proof (f_equal (λ s, dom (cronJobs s)) Hrun) as H. cbn in H.
    by rewrite !dom_fmap_L in H.
  - pose proof (f_equal (λ s, dom (activeJobs s)) Hrun) as H. cbn in H.
    by rewrite !dom_fmap_L in H.
  - pose proof (f_equal (λ s, expression <$> tasks s) Hrun) as H. cbn in H.
    by rewrite <- !list_fmap_compose in H.
  - pose proof (f_equal (λ s, started <$> tasks s) Hrun) as H. cbn in H.
    by rewrite <- !list_fmap_compose in H.
Qed.
End Priority.

(** On an input: the same post with the labels [high] and [low], the
    trigger fired once. *)
Lemma priority_noninterference_witness :
  let low := Post.set_priority (Some "low") Fixture.morning in
  let run doc :=
    fold_left (λ s h, fire (env := Fixture.facebookDown) h s) [0%nat]
              (startScheduler (env := Fixture.facebookDown) doc (newApp 0%nat)) in
  log (run (mkSchedule (Some [Fixture.morning]) None None))
  = log (run (mkSchedule (Some [low]) None None)).
Proof.
  intros low run.
  destruct (priority_noninterference (env := Fixture.facebookDown)
              (libraries := Fixture.libraries)
              (mkSchedule (Some [Fixture.morning]) None None)
              (mkSchedule (Some [low]) None None)
              (newApp 0%nat) (newApp 0%nat) [0%nat])
    as (_ & _ & Hlog & _); [reflexivity | reflexivity | exact Hlog].
Defined.

(** * Further properties of the code *)

(** ** The registry and its tasks *)

Section RegistryLemmas.
Context {W : Type} {env : Collaborators W}.
Implicit Types (st : App W) (jobId : string) (c : Post.config).

Lemma executePost_begin_registry jobId c st :
  cronJobs (executePost_begin jobId c st).2 = cronJobs st
  ∧ tasks (executePost_begin jobId c st).2 = tasks st
  ∧ isShuttingDown (executePost_begin jobId c st).2 = isShuttingDown st.
Proof.
  unfold executePost_begin.
  destruct (dateNow (world st)) as [t0 w]. by destruct (dateNow w).
Qed.

(** What a pass of the executor does to the registry and to the tasks:
    nothing, or the removal of its own one-time entry with the stop of
    the task of that entry. *)
Lemma executePost_registry jobId c st :
  (cronJobs (executePost jobId c st) = cronJobs st
   ∧ tasks (executePost jobId c st) = tasks st)
  ∨ (∃ jobData, cronJobs st !! jobId = Some jobData
                ∧ type jobData = scheduled_post
                ∧ cronJobs (executePost jobId c st) = delete jobId (cronJobs st)
                ∧ tasks (executePost jobId c st) = stopTask (job jobData) (tasks st)).
Proof.
  unfold executePost. destruct (isShuttingDown st); [by left |].
  destruct (executePost_begin_registry jobId c st) as (Hc & Ht & _).
  destruct (executePost_begin jobId c st) as [t st1]. cbn in Hc, Ht.
  unfold executePost_try, executePost_catch.
  destruct (prepareContent c (world st1)) as [[processed | e] w1].
  - destruct (Post.platforms c) as [platforms |].
    + destruct (postAll processed platforms w1) as [[results w2] calls].
      destruct (dateNow w2) as [timerEnd w3].
      unfold removeOneTime. cbn. rewrite Hc.
      destruct (cronJobs st !! jobId) as [jobData |] eqn:Hjob; [| left; by cbn].
      destruct (type jobData) eqn:Htype; cbn; try (left; by cbn).
      right. exists jobData. by rewrite Ht.
    + cbn. destruct (dateNow w1). left. by cbn.
  - cbn. destruct (dateNow w1). left. by cbn.
Qed.

Lemma executePost_flag jobId c st :
  isShuttingDown (executePost jobId c st) = isShuttingDown st.
Proof.
  unfold executePost. destruct (isShuttingDown st) eqn:Hflag; [done |].
  destruct (executePost_begin_registry jobId c st) as (_ & _ & Hf).
  destruct (executePost_begin jobId c st) as [t st1]. cbn in Hf.
  unfold executePost_try, executePost_catch.
  destruct (prepareContent c (world st1)) as [[processed | e] w1].
  - destruct (Post.platforms c) as [platforms |].
    + destruct (postAll processed platforms w1) as [[results w2] calls].
      destruct (dateNow w2) as [timerEnd w3].
      unfold removeOneTime. cbn.
      destruct (cronJobs st1 !! jobId) as [jobData |]; [| by cbn; rewrite Hf, Hflag].
      destruct (JobType_eqb (type jobData) scheduled_post); cbn; by rewrite Hf, Hflag.
    + cbn. destruct (dateNow w1). cbn. by rewrite Hf, Hflag.
  - cbn. destruct (dateNow w1). cbn. by rewrite Hf, Hflag.
Qed.

Lemma stopTask_callback h (ts : list ScheduledTask) i task :
  stopTask h ts !! i = Some task →
  ∃ task0, ts !! i = Some task0 ∧ callback task = callback task0
           ∧ (i ≠ h → task = task0).
Proof.
  unfold stopTask. intros Hlook.
  destruct (decide (h = i)) as [-> | Hne].
  - rewrite list_lookup_alter_eq in Hlook.
    destruct (ts !! i) as [t |]; [| done].
    cbn in Hlook. inversion Hlook; subst. exists t. by split_and!.
  - rewrite list_lookup_alter_ne in Hlook by done. exists task. by split_and!.
Qed.

Lemma stopTask_other h (ts : list ScheduledTask) i :
  i ≠ h → stopTask h ts !! i = ts !! i.
Proof. intros Hne. unfold stopTask. by rewrite list_lookup_alter_ne. Qed.

Lemma stopTask_same h (ts : list ScheduledTask) task :
  stopTask h ts !! h = Some task → started task = false.
Proof.
  unfold stopTask. rewrite list_lookup_alter_eq.
  destruct (ts !! h) as [t |]; [| done]. cbn. by intros [= <-].
Qed.

(** An entry removed with its task stopped leaves the other entries
    bound. *)
Lemma registryBound_remove st st' jobId jobData :
  registryBound st →
  cronJobs st !! jobId = Some jobData →
  cronJobs st' = delete jobId (cronJobs st) →
  tasks st' = stopTask (job jobData) (tasks st) →
  registryBound st'.
Proof.
  intros [Hbound Hown] Hjob Hc Ht. split.
  - intros k d Hk. rewrite Hc in Hk.
    apply lookup_delete_Some in Hk as [Hne Hk].
    destruct (Hbound k d Hk) as (task & Htask & Hstarted & Hcb).
    exists task. split_and!; try done.
    rewrite Ht, stopTask_other; [done |].
    intros Heq. apply Hne. symmetry. by eapply (Hown k jobId).
  - intros k1 k2 d1 d2 H1 H2. rewrite Hc in H1, H2.
    apply lookup_delete_Some in H1 as [_ H1].
    apply lookup_delete_Some in H2 as [_ H2].
    by eapply Hown.
Qed.

Lemma registryBound_same st st' :
  registryBound st → cronJobs st' = cronJobs st → tasks st' = tasks st →
  registryBound st'.
Proof. unfold registryBound. intros H Hc Ht. by rewrite Hc, Ht. Qed.

Lemma executePost_bound jobId c st :
  registryBound st → registryBound (executePost jobId c st).
Proof.
  intros Hb.
  destruct (executePost_registry jobId c st) as [[Hc Ht] | (jd & Hjob & _ & Hc & Ht)].
  - by eapply registryBound_same.
  - by eapply registryBound_remove.
Qed.

Lemma executeRecurringPost_unfold jobId r st :
  (executeRecurringPost jobId r st).2 = st
  ∨ (∃ w, (executeRecurringPost jobId r st).2 = setWorld w st)
  ∨ (∃ (now : Z) w c,
        (executeRecurringPost jobId r st).2
        = executePost (jobId +:+ "_" +:+ pretty now) c (setWorld w st)).
Proof.
  unfold executeRecurringPost.
  destruct (match Post.variables r with
            | Some variables => processTemplate_opt (Post.content r) variables (world st)
            | None => (Ok (Post.content r), world st)
            end) as [[content | e] w].
  - destruct (dateNow w) as [now1 w1]. destruct (dateNow w1) as [now2 w2].
    right. right. by eexists _, _, _.
  - right. left. by eexists.
Qed.

Lemma executeRecurringPost_bound jobId r st :
  registryBound st → registryBound (executeRecurringPost jobId r st).2.
Proof.
  intros Hb.
  destruct (executeRecurringPost_unfold jobId r st)
    as [-> | [[w ->] | (now & w & c & ->)]]; [done | done |].
  by apply executePost_bound.
Qed.

Lemma fire_bound h st : registryBound st → registryBound (fire h st).
Proof.
  intros Hb. unfold fire.
  destruct (tasks st !! h) as [task |]; [| done].
  destruct (started task); [| done].
  destruct (callback task) as [jobId c | jobId r | |]; try done.
  - by apply executePost_bound.
  - by apply executeRecurringPost_bound.
Qed.

(** A new entry bound to a new started task, the tasks there were being
    left as they are. *)
Lemma registryBound_arm st st' jobId jobData task :
  registryBound st →
  cronJobs st' = <[jobId := jobData]> (cronJobs st) →
  job jobData = length (tasks st) →
  tasks st' = tasks st ++ [task] →
  started task = true →
  entryCallback jobId jobData (callback task) →
  registryBound st'.
Proof.
  intros [Hbound Hown] Hc Hjob Ht Hstarted Hcb.
  assert (Hlt : ∀ k d, cronJobs st !! k = Some d → (job d < length (tasks st))%nat).
  { intros k d Hk. destruct (Hbound k d Hk) as (t & Hlook & _).
    by eapply lookup_lt_Some. }
  split.
  - intros k d Hk. rewrite Hc in Hk. rewrite Ht.
    apply lookup_insert_Some in Hk as [[<- <-] | [Hne Hk]].
    + exists task. rewrite Hjob. split_and!; try done.
      rewrite lookup_app_r by lia. by rewrite Nat.sub_diag.
    + destruct (Hbound k d Hk) as (t & Hlook & Hs & Hcallback).
      exists t. split_and!; try done.
      by rewrite lookup_app_l by by eapply lookup_lt_Some.
  - intros k1 k2 d1 d2 H1 H2 Heq. rewrite Hc in H1, H2.
    apply lookup_insert_Some in H1 as [[<- <-] | [Hne1 H1]];
      apply lookup_insert_Some in H2 as [[<- <-] | [Hne2 H2]]; try done.
    + specialize (Hlt _ _ H2). lia.
    + specialize (Hlt _ _ H1). lia.
    + by eapply Hown.
Qed.

Lemma startTask_new (ts : list ScheduledTask) task :
  startTask (length ts) (ts ++ [task]) = ts ++ [setStarted true task].
Proof.
  unfold startTask. rewrite alter_app_r_alt by lia.
  by rewrite Nat.sub_diag.
Qed.

Lemma schedulePost_registry c st :
  (cronJobs (schedulePost c st) = cronJobs st ∧ tasks (schedulePost c st) = tasks st
   ∧ accepted (Some (postExpression c)) c = false)
  ∨ (∃ jobId,
        cronJobs (schedulePost c st)
        = <[jobId := mkJobData (length (tasks st)) (Some c) scheduled_post]> (cronJobs st)
        ∧ tasks (schedulePost c st)
          = tasks st ++ [mkTask (Some (postExpression c)) (CbExecutePost jobId c)
                                (Some (zoneOf c)) true]
        ∧ accepted (Some (postExpression c)) c = true).
Proof.
  unfold schedulePost, accepted, postExpression, zoneOf.
  destruct (if truthy (Post.id c) then (interpolate (Post.id c), world st)
            else let '(now, w) := dateNow (world st) in (pretty now, w))
    as [suffix w].
  destruct (cronValidate _ _) as [u | e]; cbn.
  - right. eexists. split_and!; [reflexivity | | reflexivity].
    by rewrite startTask_new.
  - left. done.
Qed.

Lemma scheduleRecurringPost_registry r st :
  (cronJobs (scheduleRecurringPost r st) = cronJobs st
   ∧ tasks (scheduleRecurringPost r st) = tasks st
   ∧ accepted (Post.cronPattern r) r = false)
  ∨ (cronJobs (scheduleRecurringPost r st)
     = <["recurring_" +:+ interpolate (Post.id r)
         := mkJobData (length (tasks st)) (Some r) recurring_post]> (cronJobs st)
     ∧ tasks (scheduleRecurringPost r st)
       = tasks st ++ [mkTask (Post.cronPattern r)
                             (CbExecuteRecurringPost
                                ("recurring_" +:+ interpolate (Post.id r)) r)
                             (Some (zoneOf r)) true]
     ∧ accepted (Post.cronPattern r) r = true).
Proof.
  unfold scheduleRecurringPost, accepted, zoneOf.
  destruct (cronValidate _ _) as [u | e]; cbn.
  - right. split_and!; [reflexivity | | reflexivity].
    by rewrite startTask_new.
  - left. done.
Qed.

Lemma schedulePost_bound c st : registryBound st → registryBound (schedulePost c st).
Proof.
  intros Hb.
  destruct (schedulePost_registry c st) as [(Hc & Ht & _) | (jobId & Hc & Ht & _)].
  - by eapply registryBound_same.
  - eapply registryBound_arm; [exact Hb | exact Hc | reflexivity | exact Ht | done |].
    reflexivity.
Qed.

Lemma scheduleRecurringPost_bound r st :
  registryBound st → registryBound (scheduleRecurringPost r st).
Proof.
  intros Hb.
  destruct (scheduleRecurringPost_registry r st) as [(Hc & Ht & _) | (Hc & Ht & _)].
  - by eapply registryBound_same.
  - eapply registryBound_arm; [exact Hb | exact Hc | reflexivity | exact Ht | done |].
    reflexivity.
Qed.

Lemma startTask_two (ts : list ScheduledTask) a b :
  startTask (S (length ts)) (startTask (length ts) ((ts ++ [a]) ++ [b]))
  = (ts ++ [setStarted true a]) ++ [setStarted true b].
Proof.
  unfold startTask. rewrite <- !app_assoc. cbn.
  rewrite (alter_app_r_alt _ ts) by lia. rewrite Nat.sub_diag. cbn.
  rewrite (alter_app_r_alt _ ts) by lia.
  by replace (S (length ts) - length ts)%nat with 1%nat by lia.
Qed.

Lemma startMaintenanceJobs_registry st :
  cronJobs (startMaintenanceJobs st)
  = <["log_cleanup" := mkJobData (S (length (tasks st))) None maintenance]>
      (<["health_check" := mkJobData (length (tasks st)) None maintenance]> (cronJobs st))
  ∧ tasks (startMaintenanceJobs st)
    = (tasks st ++ [mkTask (Some "*/5 * * * *") CbUpdateHealthStatus None true])
        ++ [mkTask (Some "0 2 * * 0") CbLogCleanup None true].
Proof.
  unfold startMaintenanceJobs. cbn. rewrite length_app. cbn.
  replace (length (tasks st) + 1)%nat with (S (length (tasks st))) by lia.
  split; [done |]. by rewrite startTask_two.
Qed.

Lemma startMaintenanceJobs_bound st :
  registryBound st → registryBound (startMaintenanceJobs st).
Proof.
  intros Hb. destruct (startMaintenanceJobs_registry st) as [Hc Ht].
  set (mid := setCronJobs (<["health_check" := mkJobData (length (tasks st)) None maintenance]>
                             (cronJobs st))
                (setTasks (tasks st ++ [mkTask (Some "*/5 * * * *") CbUpdateHealthStatus
                                               None true]) st)).
  assert (Hmid : registryBound mid).
  { eapply registryBound_arm; [exact Hb | reflexivity | reflexivity | reflexivity | done |].
    by left. }
  eapply registryBound_arm; [exact Hmid | exact Hc | | exact Ht | done | by right].
  cbn. rewrite length_app. cbn. lia.
Qed.

Lemma startScheduler_bound doc st :
  registryBound st → registryBound (startScheduler doc st).
Proof.
  intros Hb. unfold startScheduler. apply startMaintenanceJobs_bound.
  assert (Hposts : ∀ ps s, registryBound s →
                           registryBound (fold_left (λ s post, schedulePost post s) ps s)).
  { induction ps as [|p ps IH]; intros s Hs; [done |].
    cbn. by apply IH, schedulePost_bound. }
  assert (Htemplates : ∀ rs s, registryBound s →
                               registryBound
                                 (fold_left (λ s r, scheduleRecurringPost r s) rs s)).
  { induction rs as [|r rs IH]; intros s Hs; [done |].
    cbn. by apply IH, scheduleRecurringPost_bound. }
  destruct (recurring doc) as [rs |]; destruct (posts doc) as [ps |]; auto.
Qed.

Lemma foldr_stopTask_length (handles : list nat) (ts : list ScheduledTask) :
  length (foldr stopTask ts handles) = length ts.
Proof.
  induction handles as [|h hs IH]; [done |].
  cbn. unfold stopTask at 1. by rewrite length_alter.
Qed.

Lemma foldr_stopTask_in (handles : list nat) (ts : list ScheduledTask) h task :
  h ∈ handles → foldr stopTask ts handles !! h = Some task → started task = false.
Proof.
  induction handles as [|h0 hs IH]; [by intros ?%elem_of_nil |].
  intros Hin Hlook. cbn in Hlook.
  destruct (decide (h = h0)) as [-> | Hne].
  - by eapply stopTask_same.
  - rewrite stopTask_other in Hlook by done.
    apply elem_of_cons in Hin as [? | Hin]; [done | by apply IH].
Qed.

Lemma foldr_stopTask_notin (handles : list nat) (ts : list ScheduledTask) h :
  h ∉ handles → foldr stopTask ts handles !! h = ts !! h.
Proof.
  induction handles as [|h0 hs IH]; [done |].
  intros Hnotin. apply not_elem_of_cons in Hnotin as [Hne Hnotin].
  cbn. rewrite stopTask_other by done. by apply IH.
Qed.

Lemma shutdown_begin_unfold st st' :
  shutdown_begin st = Some st' →
  isShuttingDown st = false
  ∧ st' = setCronJobs ∅
            (setTasks (foldr stopTask (tasks st) (job <$> (map_to_list (cronJobs st)).*2))
                      (setShuttingDown true st)).
Proof.
  unfold shutdown_begin. destruct (isShuttingDown st); [done |].
  intros [= <-]. split; [done |]. f_equal. f_equal. cbn.
  induction ((map_to_list (cronJobs st)).*2) as [|jd l IH]; [done |].
  cbn. by rewrite IH.
Qed.

Lemma shutdown_registry_bound st : registryBound st → registryBound (shutdown_registry st).
Proof.
  intros Hb. unfold shutdown_registry.
  destruct (shutdown_begin st) as [st' |] eqn:Hs; [| done].
  apply shutdown_begin_unfold in Hs as [_ ->].
  split; cbn; intros *; by rewrite lookup_empty.
Qed.

Lemma perform_bound op st : registryBound st → registryBound (perform st op).
Proof.
  intros Hb. destruct op; cbn.
  - by apply startScheduler_bound.
  - by apply schedulePost_bound.
  - by apply scheduleRecurringPost_bound.
  - by apply fire_bound.
  - by apply shutdown_registry_bound.
Qed.
End RegistryLemmas.

Lemma length_append (a b : string) :
  String.length (a +:+ b) = (String.length a + String.length b)%nat.
Proof.
  induction a as [|x a IH]; [done |].
  rewrite append_cons. cbn [String.length]. by rewrite IH.
Qed.

Section RegistryProperties.
Context {W : Type} {env : Collaborators W}.
Implicit Types (st : App W) (jobId : string) (c : Post.config).

Lemma registryBound_newApp (w : W) : registryBound (newApp w).
Proof. split; cbn; intros *; by rewrite lookup_empty. Qed.

(** X1.  In every state the process reaches from its constructor by
    arming a schedule, scheduling a post or a template, a trigger that
    fires, or a shutdown, every entry of the registry refers to a task
    that exists, is started and runs the job of that entry, and no two
    entries refer to the same task. *)
Theorem registry_entries_stay_bound (ops : list Operation) (w : W) :
  registryBound (performAll ops w).
Proof.
  unfold performAll. generalize (registryBound_newApp w). generalize (newApp w).
  induction ops as [|op ops IH]; intros st Hb; [done |].
  cbn. by apply IH, perform_bound.
Qed.

(** X2.  A pass of [executeRecurringPost] runs under an identifier of its
    own (the identifier of the job, an underscore and the time), so it
    neither removes the entry of the job it was fired for nor stops the
    task of that entry: the job stays armed, whatever the pass does. *)
Theorem recurring_job_stays_armed jobId r st jobData :
  registryBound st →
  cronJobs st !! jobId = Some jobData →
  cronJobs (executeRecurringPost jobId r st).2 !! jobId = Some jobData
  ∧ ∃ task, tasks (executeRecurringPost jobId r st).2 !! job jobData = Some task
            ∧ started task = true.
Proof.
  intros [Hbound Hown] Hjob.
  destruct (Hbound _ _ Hjob) as (task & Htask & Hstarted & _).
  destruct (executeRecurringPost_unfold jobId r st)
    as [-> | [[w ->] | (now & w & c & ->)]]; [by eauto | by eauto |].
  set (eid := jobId +:+ "_" +:+ pretty now).
  assert (Hne : eid ≠ jobId).
  { intros Heq. apply (f_equal String.length) in Heq.
    subst eid. rewrite !length_append in Heq. cbn in Heq. lia. }
  destruct (executePost_registry eid c (setWorld w st))
    as [[-> ->] | (jd & Hjd & _ & -> & ->)]; [by eauto |].
  cbn in Hjd |- *. rewrite lookup_delete_ne by done. split; [done |].
  exists task. split; [| done].
  rewrite stopTask_other; [done |].
  intros Heq. apply Hne. by eapply (Hown eid jobId).
Qed.

(** X3.  [shutdown], when the flag is not yet set, sets it, stops the
    task of every entry of the registry and empties the registry; the
    tasks no entry refers to are left as they are, no task is added or
    dropped, and a second call returns at its guard. *)
Theorem shutdown_stops_registered_tasks st :
  isShuttingDown st = false →
  ∃ st', shutdown_begin st = Some st'
         ∧ isShuttingDown st' = true
         ∧ cronJobs st' = ∅
         ∧ length (tasks st') = length (tasks st)
         ∧ (∀ jobId jobData task,
               cronJobs st !! jobId = Some jobData →
               tasks st' !! job jobData = Some task → started task = false)
         ∧ (∀ h, (∀ jobId jobData, cronJobs st !! jobId = Some jobData →
                                   job jobData ≠ h) →
                 tasks st' !! h = tasks st !! h)
         ∧ shutdown_begin st' = None.
Proof.
  intros Hflag.
  destruct (shutdown_begin st) as [st' |] eqn:Hs;
    [| unfold shutdown_begin in Hs; by rewrite Hflag in Hs].
  exists st'. split; [done |].
  apply shutdown_begin_unfold in Hs as [_ ->]. cbn.
  split_and!; try done.
  - apply foldr_stopTask_length.
  - intros jobId jobData task Hjob. apply foldr_stopTask_in.
    apply list_elem_of_fmap. exists jobData. split; [done |].
    apply list_elem_of_fmap. exists (jobId, jobData). split; [done |].
    by apply elem_of_map_to_list.
  - intros h Hfree. apply foldr_stopTask_notin.
    intros Hin. apply list_elem_of_fmap in Hin as (jd & -> & Hin).
    apply list_elem_of_fmap in Hin as ([k d] & -> & Hin).
    apply elem_of_map_to_list in Hin. by eapply Hfree.
Qed.

(** X4.  A one-time post whose content could be prepared is published in
    one pass only: when its trigger fires, the pass removes the entry and
    stops the task, and a later firing of that trigger changes nothing. *)
Theorem one_off_fires_once st jobId jobData c platforms processed w1 :
  registryBound st →
  isShuttingDown st = false →
  cronJobs st !! jobId = Some jobData →
  type jobData = scheduled_post →
  config jobData = Some c →
  Post.platforms c = Some platforms →
  prepareContent c (world (executePost_begin jobId c st).2) = (Ok processed, w1) →
  fire (job jobData) st = executePost jobId c st
  ∧ cronJobs (fire (job jobData) st) = delete jobId (cronJobs st)
  ∧ tasks (fire (job jobData) st) = stopTask (job jobData) (tasks st)
  ∧ fire (job jobData) (fire (job jobData) st) = fire (job jobData) st.
Proof.
  intros [Hbound Hown] Hflag Hjob Htype Hconfig Hps Hprep.
  destruct (Hbound _ _ Hjob) as (task & Htask & Hstarted & Hcb).
  unfold entryCallback in Hcb. rewrite Htype, Hconfig in Hcb.
  assert (Hfire : fire (job jobData) st = executePost jobId c st).
  { unfold fire. by rewrite Htask, Hstarted, Hcb. }
  destruct (executePost_removes_one_off jobId c st platforms processed w1 jobData)
    as [Hc Ht]; try done.
  rewrite Hfire. split_and!; try done.
  unfold fire at 1. rewrite Ht.
  destruct (stopTask (job jobData) (tasks st) !! job jobData) as [stopped |] eqn:Hlook;
    [| done].
  by rewrite (stopTask_same _ _ _ Hlook).
Qed.

Lemma fold_schedulePost_tasks (ps : list Post.config) :
  ∀ st, ∃ new,
    tasks (fold_left (λ s post, schedulePost post s) ps st) = tasks st ++ new
    ∧ expression <$> new
      = (λ p, Some (postExpression p))
          <$> filter (λ p, accepted (Some (postExpression p)) p) ps
    ∧ Forall (λ t, started t = true) new.
Proof.
  induction ps as [|p ps IH]; intros st.
  - exists []. by rewrite app_nil_r.
  - cbn [fold_left]. destruct (IH (schedulePost p st)) as (new & -> & Hexp & Hall).
    destruct (schedulePost_registry p st) as [(_ & -> & Hacc) | (jobId & _ & -> & Hacc)].
    + exists new. rewrite filter_cons_False by (rewrite Hacc; by intros []). done.
    + eexists (_ :: new). rewrite <- app_assoc. split; [reflexivity |].
      rewrite filter_cons_True by by rewrite Hacc.
      split; [cbn; by rewrite Hexp | by constructor].
Qed.

Lemma fold_scheduleRecurringPost_tasks (rs : list Post.config) :
  ∀ st, ∃ new,
    tasks (fold_left (λ s r, scheduleRecurringPost r s) rs st) = tasks st ++ new
    ∧ expression <$> new
      = Post.cronPattern <$> filter (λ r, accepted (Post.cronPattern r) r) rs
    ∧ Forall (λ t, started t = true) new.
Proof.
  induction rs as [|r rs IH]; intros st.
  - exists []. by rewrite app_nil_r.
  - cbn [fold_left].
    destruct (IH (scheduleRecurringPost r st)) as (new & -> & Hexp & Hall).
    destruct (scheduleRecurringPost_registry r st) as [(_ & -> & Hacc) | (_ & -> & Hacc)].
    + exists new. rewrite filter_cons_False by (rewrite Hacc; by intros []). done.
    + eexists (_ :: new). rewrite <- app_assoc. split; [reflexivity |].
      rewrite filter_cons_True by by rewrite Hacc.
      split; [cbn; by rewrite Hexp | by constructor].
Qed.

(** X5.  [startScheduler] leaves the tasks there are as they are and
    adds, in this order, one started task for every post of the document
    whose expression the cron library takes, one for every recurring
    template whose pattern it takes, and the two maintenance tasks; a
    descriptor the cron library refuses is passed over and the ones after
    it are still scheduled. *)
Theorem startScheduler_arms_accepted (scheduleConfig : ScheduleConfig) st :
  ∃ new,
    tasks (startScheduler scheduleConfig st) = tasks st ++ new
    ∧ expression <$> new = armedExpressions scheduleConfig
    ∧ Forall (λ t, started t = true) new.
Proof.
  unfold startScheduler, armedExpressions.
  set (st1 := match posts scheduleConfig with
              | Some ps => fold_left (λ s post, schedulePost post s) ps st
              | None => st
              end).
  set (st2 := match recurring scheduleConfig with
              | Some rs => fold_left (λ s r, scheduleRecurringPost r s) rs st1
              | None => st1
              end).
  assert (H1 : ∃ new, tasks st1 = tasks st ++ new
                      ∧ expression <$> new
                        = (λ p, Some (postExpression p))
                            <$> filter (λ p, accepted (Some (postExpression p)) p)
                                       (default [] (posts scheduleConfig))
                      ∧ Forall (λ t, started t = true) new).
  { subst st1. destruct (posts scheduleConfig) as [ps |]; cbn.
    - apply fold_schedulePost_tasks.
    - exists []. by rewrite app_nil_r. }
  assert (H2 : ∃ new, tasks st2 = tasks st1 ++ new
                      ∧ expression <$> new
                        = Post.cronPattern
                            <$> filter (λ r, accepted (Post.cronPattern r) r)
                                       (default [] (recurring scheduleConfig))
                      ∧ Forall (λ t, started t = true) new).
  { subst st2. destruct (recurring scheduleConfig) as [rs |]; cbn.
    - apply fold_scheduleRecurringPost_tasks.
    - exists []. by rewrite app_nil_r. }
  destruct H1 as (new1 & Ht1 & Hexp1 & Hall1).
  destruct H2 as (new2 & Ht2 & Hexp2 & Hall2).
  destruct (startMaintenanceJobs_registry st2) as [_ ->].
  rewrite Ht2, Ht1.
  eexists (new1 ++ new2 ++ [_; _]).
  split; [by rewrite <- !app_assoc |].
  split.
  - rewrite !fmap_app, Hexp1, Hexp2. reflexivity.
  - rewrite !Forall_app. split_and!; try done. by repeat constructor.
Qed.
End RegistryProperties.

(** On an input: the weekly template, armed, fires. *)
Lemma recurring_job_stays_armed_witness :
  let st := scheduleRecurringPost (env := Fixture.healthy) Scenario.weekly (newApp 0%nat) in
  let jobData := mkJobData 0 (Some Scenario.weekly) recurring_post in
  cronJobs (executeRecurringPost (env := Fixture.healthy) "recurring_weekly"
                                 Scenario.weekly st).2 !! "recurring_weekly"
  = Some jobData
  ∧ ∃ task, tasks (executeRecurringPost (env := Fixture.healthy) "recurring_weekly"
                                        Scenario.weekly st).2 !! job jobData
            = Some task
            ∧ started task = true.
Proof.
  cbv zeta.
  apply (recurring_job_stays_armed (env := Fixture.healthy)).
  - apply scheduleRecurringPost_bound, registryBound_newApp.
  - vm_compute. reflexivity.
Defined.

(** On an input: a document with a post and a template, armed and shut
    down. *)
Lemma shutdown_stops_registered_tasks_witness :
  ∃ st', shutdown_begin (startScheduler (env := Fixture.healthy) Scenario.document
                                        (newApp 0%nat)) = Some st'
         ∧ isShuttingDown st' = true
         ∧ cronJobs st' = ∅.
Proof.
  destruct (shutdown_stops_registered_tasks
              (startScheduler (env := Fixture.healthy) Scenario.document (newApp 0%nat)))
    as (st' & Hrun & Hflag & Hregistry & _); [reflexivity |].
  exists st'. split; [exact Hrun |]. split; [exact Hflag | exact Hregistry].
Defined.

(** On an input: a post to Facebook, armed, fires twice. *)
Lemma one_off_fires_once_witness :
  let st := schedulePost (env := Fixture.healthy) Fixture.facebookOnly (newApp 0%nat) in
  fire (env := Fixture.healthy) 0 (fire (env := Fixture.healthy) 0 st)
  = fire (env := Fixture.healthy) 0 st.
Proof.
  cbv zeta.
  edestruct (one_off_fires_once (env := Fixture.healthy)
               (schedulePost (env := Fixture.healthy) Fixture.facebookOnly (newApp 0%nat))
               "post_a" (mkJobData 0 (Some Fixture.facebookOnly) scheduled_post)
               Fixture.facebookOnly ["facebook"])
    as (_ & _ & _ & Honce).
  - apply schedulePost_bound, registryBound_newApp.
  - reflexivity.
  - vm_compute. reflexivity.
  - reflexivity.
  - reflexivity.
  - reflexivity.
  - vm_compute. reflexivity.
  - exact Honce.
Defined.

(** ** The check of the file reader *)

Section FileReaderProperties.
Import FileReader.

Lemma checkPost_None i post :
  checkPost i post = None ↔ Validators.postDefect post = false.
Proof.
  unfold checkPost, Validators.postDefect.
  destruct (negb (truthy (Post.content post)) && negb (truthy (Post.file post)));
    [rewrite orb_true_r; cbn; split; discriminate |].
  rewrite orb_false_r.
  destruct (negb (truthy (Post.scheduledTime post)));
    [rewrite orb_true_r; split; discriminate |].
  rewrite orb_false_r.
  destruct (Post.platforms post) as [[|p ps] |]; try (split; discriminate).
  generalize (p :: ps). clear. intros l.
  induction l as [|q l IH]; [done |].
  cbn [forallb]. rewrite filter_cons.
  unfold Validators.includes, Validators.validPlatforms, validPlatforms in *.
  destruct (existsb (String.eqb q) ["facebook"; "instagram"]); cbn.
  - rewrite decide_False by (intros []). exact IH.
  - rewrite decide_True by done. split; [| discriminate].
    by destruct (filter _ l).
Qed.

Lemma checkPost_index i j post :
  checkPost i post = None → checkPost j post = None.
Proof. rewrite !checkPost_None. done. Qed.

Lemma checkPosts_None ps :
  ∀ i, checkPosts i ps = None
       ↔ ∀ j post, ps !! j = Some post → Validators.postDefect post = false.
Proof.
  induction ps as [|p ps IH]; intros i; cbn.
  - split; [intros _ j post Hj; by rewrite lookup_nil in Hj | done].
  - destruct (checkPost i p) as [e |] eqn:Hp.
    + split; [discriminate |]. intros Hall.
      specialize (Hall 0%nat p eq_refl). apply (checkPost_None i) in Hall. congruence.
    + rewrite IH. apply checkPost_None in Hp. split.
      * intros Hall [|j] post Hj; cbn in Hj; [by inversion Hj; subst | by eapply Hall].
      * intros Hall j post Hj. by apply (Hall (S j)).
Qed.

Lemma checkPosts_Some ps :
  ∀ i e, checkPosts i ps = Some e →
         ∃ j post, ps !! j = Some post
                   ∧ checkPost (i + j) post = Some e
                   ∧ ∀ k earlier, (k < j)%nat → ps !! k = Some earlier →
                                  Validators.postDefect earlier = false.
Proof.
  induction ps as [|p ps IH]; intros i e; cbn; [discriminate |].
  destruct (checkPost i p) as [e' |] eqn:Hp.
  - intros [= ->]. exists 0%nat, p. rewrite Nat.add_0_r. split_and!; try done.
    intros k earlier Hk. lia.
  - intros Hrest. apply IH in Hrest as (j & post & Hj & He & Hbefore).
    exists (S j), post. split_and!; try done.
    + by replace (i + S j)%nat with (S i + j)%nat by lia.
    + intros [|k] earlier Hk Hlook; cbn in Hlook.
      * inversion Hlook; subst. by apply (checkPost_None i).
      * apply (Hbefore k); [lia | done].
Qed.

(** X6.  The check of the file reader lets a document through exactly
    when [posts] is an array and no post has one of the three basic
    defects of the validators: neither content nor file, no scheduled
    time, no platform or a platform other than [facebook] and
    [instagram]. *)
Theorem fileReader_accepts_without_defect (config : option ScheduleConfig) :
  validateScheduleConfig config = None
  ↔ ∃ doc ps, config = Some doc ∧ posts doc = Some ps
              ∧ ∀ j post, ps !! j = Some post → Validators.postDefect post = false.
Proof.
  unfold validateScheduleConfig.
  destruct config as [doc |]; [| split; [discriminate | by intros (? & ? & [=] & _)]].
  destruct (posts doc) as [ps |] eqn:Hps.
  - rewrite checkPosts_None. split.
    + intros Hall. by exists doc, ps.
    + intros (doc' & ps' & [= <-] & Hps' & Hall). rewrite Hps in Hps'.
      by inversion Hps'; subst.
  - split; [discriminate |]. intros (doc' & ps' & [= <-] & Hps' & _). congruence.
Qed.

(** X7.  The error the file reader throws for a document whose [posts]
    is an array is that of the first post with a defect: the posts before
    it have none, and the error carries the index of that post and names
    the first check it fails, in the order content or file, scheduled
    time, platforms. *)
Theorem fileReader_throws_first_defect doc ps e :
  posts doc = Some ps →
  validateScheduleConfig (Some doc) = Some e →
  ∃ j post,
    ps !! j = Some post
    ∧ Validators.postDefect post = true
    ∧ (∀ k earlier, (k < j)%nat → ps !! k = Some earlier →
                    Validators.postDefect earlier = false)
    ∧ e = (if negb (truthy (Post.content post)) && negb (truthy (Post.file post))
           then MissingContentOrFile j
           else if negb (truthy (Post.scheduledTime post))
                then MissingScheduledTime j
                else match Post.platforms post with
                     | None | Some [] => NoPlatform j
                     | Some platforms =>
                         InvalidPlatforms
                           j (filter (λ p, negb (existsb (String.eqb p) validPlatforms))
                                     platforms)
                     end).
Proof.
  intros Hps. unfold validateScheduleConfig. rewrite Hps. intros Hcheck.
  apply checkPosts_Some in Hcheck as (j & post & Hj & He & Hbefore).
  exists j, post. cbn in He. split_and!; try done.
  - destruct (Validators.postDefect post) eqn:Hd; [done |].
    apply (checkPost_None j) in Hd. congruence.
  - unfold checkPost in He.
    destruct (negb (truthy (Post.content post)) && negb (truthy (Post.file post)));
      [congruence |].
    destruct (negb (truthy (Post.scheduledTime post))); [congruence |].
    destruct (Post.platforms post) as [[|p l] |]; try congruence.
    destruct (filter _ (p :: l)); congruence.
Qed.
End FileReaderProperties.

(** On an input: the second post has neither content nor file. *)
Lemma fileReader_throws_first_defect_witness :
  ∃ j post,
    [Fixture.morning; Fixture.emptyTemplate] !! j = Some post
    ∧ Validators.postDefect post = true
    ∧ (∀ k earlier, (k < j)%nat →
                    [Fixture.morning; Fixture.emptyTemplate] !! k = Some earlier →
                    Validators.postDefect earlier = false)
    ∧ FileReader.MissingContentOrFile 1
      = (if negb (truthy (Post.content post)) && negb (truthy (Post.file post))
         then FileReader.MissingContentOrFile j
         else if negb (truthy (Post.scheduledTime post))
              then FileReader.MissingScheduledTime j
              else match Post.platforms post with
                   | None | Some [] => FileReader.NoPlatform j
                   | Some platforms =>
                       FileReader.InvalidPlatforms
                         j (filter (λ p, negb (existsb (String.eqb p)
                                                       FileReader.validPlatforms))
                                   platforms)
                   end).
Proof.
  apply (fileReader_throws_first_defect Scenario.defective); reflexivity.
Defined.

Section StartupOrder.
Context {libraries : Validators.Libraries}.

(** X8.  At startup the document goes through the check of the file
    reader before it reaches the validators.  Whatever the validators
    accept the file reader accepts; so a document with a basic defect in
    a post is refused by the file reader, and [loadScheduleConfig] throws
    its own error only for a document whose posts have no basic defect
    and fail one of the further checks of the validators (or whose
    settings do); a document that is loaded has passed both.  A parsed
    document the file reader throws for was refused by its check, or
    passed it and [fs.stat] failed. *)
Theorem startup_checks_in_order (configPath : string) (file : FileReader.ConfigFile) :
  (∀ config, Validators.validateScheduleConfig config = true →
             FileReader.validateScheduleConfig config = None)
  ∧ match loadScheduleFile configPath file with
    | ReaderThrew e =>
        ∀ config stat,
          file = FileReader.Parsed config stat →
          (∃ e', e = FileReader.Rejected e'
                 ∧ FileReader.validateScheduleConfig config = Some e'
                 ∧ Validators.validateScheduleConfig config = false)
          ∨ (∃ message, stat = Some message
                        ∧ e = FileReader.ReadFailed message
                        ∧ FileReader.validateScheduleConfig config = None)
    | LoadThrew message =>
        ∃ doc ps, file = FileReader.Parsed (Some doc) None
                  ∧ posts doc = Some ps
                  ∧ (∀ j post, ps !! j = Some post →
                               Validators.postDefect post = false)
                  ∧ Validators.validateScheduleConfig (Some doc) = false
                  ∧ message = "Invalid schedule configuration"
    | LoadedConfig doc =>
        file = FileReader.Parsed (Some doc) None
        ∧ FileReader.validateScheduleConfig (Some doc) = None
        ∧ Validators.validateScheduleConfig (Some doc) = true
    end.
Proof.
  assert (Hsub : ∀ config, Validators.validateScheduleConfig config = true →
                           FileReader.validateScheduleConfig config = None).
  { intros config Hvalid.
    unfold Validators.validateScheduleConfig in Hvalid.
    apply Nat.eqb_eq, length_zero_iff_nil in Hvalid.
    unfold Validators.validateScheduleConfig_errors in Hvalid.
    destruct config as [doc |]; [| discriminate].
    destruct (posts doc) as [ps |] eqn:Hps; [| discriminate].
    unfold FileReader.validateScheduleConfig. rewrite Hps.
    apply checkPosts_None.
    apply app_nil in Hvalid as [Hposts _].
    intros j post Hj.
    pose proof (proj1 (concat_imap_nil _ _) Hposts j post Hj) as Hpost.
    cbn in Hpost. by apply validateSchedulePost_nil in Hpost as [? _]. }
  split; [exact Hsub |].
  unfold loadScheduleFile, FileReader.readScheduleConfig.
  destruct file as [| m | m | config stat].
  - intros config stat [=].
  - intros config stat [=].
  - intros config stat [=].
  - destruct (FileReader.validateScheduleConfig config) as [e |] eqn:Hreader.
    + intros config' stat' [= <- <-]. left. exists e. split_and!; try done.
      destruct (Validators.validateScheduleConfig config) eqn:Hv; [| done].
      apply Hsub in Hv. congruence.
    + destruct stat as [message |].
      * intros config' stat' [= <- <-]. right. by exists message.
      * unfold loadScheduleConfig.
        pose proof Hreader as Hposts.
        unfold FileReader.validateScheduleConfig in Hposts.
        destruct config as [doc |]; [| discriminate].
        destruct (posts doc) as [ps |] eqn:Hps; [| discriminate].
        pose proof (proj1 (checkPosts_None ps 0) Hposts) as Hall.
        destruct (Validators.validateScheduleConfig (Some doc)) eqn:Hv.
        -- done.
        -- by exists doc, ps.
Qed.
End StartupOrder.

(** ** The text pipeline of the content processor *)

Section TextPipeline.
Import ContentProcessor.
Implicit Types (s t : string) (c : ascii).

Lemma trimStart_length s : (String.length (trimStart s) ≤ String.length s)%nat.
Proof.
  induction s as [|c r IH]; cbn; [lia |].
  destruct (isSpace c); cbn; lia.
Qed.

Lemma trimEnd_length s : (String.length (trimEnd s) ≤ String.length s)%nat.
Proof.
  induction s as [|c r IH]; cbn; [lia |].
  destruct (trimEnd r); [destruct (isSpace c) |]; cbn in *; lia.
Qed.

Lemma trim_length s : (String.length (trim s) ≤ String.length s)%nat.
Proof.
  unfold trim. pose proof (trimEnd_length (trimStart s)).
  pose proof (trimStart_length s). lia.
Qed.

Lemma processTextContent_other content platform :
  content ≠ EmptyString → platform ≠ "instagram" →
  processTextContent (Some content) platform = trim content.
Proof.
  intros Hc Hp. unfold processTextContent, processHashtags, processMentions,
    optimizeForFacebook. cbn [truthy interpolate].
  destruct (String.eqb_spec content EmptyString); [done |]. cbn [negb].
  destruct (String.eqb_spec platform "instagram"); [done |].
  by destruct (String.eqb platform "facebook").
Qed.

Lemma consHead_join c (parts : list string) sep :
  parts ≠ [] → join sep (consHead c parts) = String c (join sep parts).
Proof. destruct parts as [|p [|q l]]; done. Qed.

Lemma paragraphs_nonempty s : paragraphs s ≠ [].
Proof.
  induction s as [|c r IH]; [done |].
  cbn. destruct r as [|d r']; [by destruct (paragraphs EmptyString) |].
  destruct (Ascii.eqb c LF && Ascii.eqb d LF); [done |].
  by destruct (paragraphs (String d r')).
Qed.

Lemma paragraphs_unfold c d r :
  paragraphs (String c (String d r))
  = if Ascii.eqb c LF && Ascii.eqb d LF then EmptyString :: paragraphs r
    else consHead c (paragraphs (String d r)).
Proof. reflexivity. Qed.

Lemma breakSentences_unfold c d r :
  breakSentences (String c (String d r))
  = if Ascii.eqb c "." && Ascii.eqb d " "
    then String c (String LF (breakSentences r))
    else String c (breakSentences (String d r)).
Proof. reflexivity. Qed.

(** Splitting a text into paragraphs and joining them again gives the
    text back. *)
Lemma join_paragraphs s : join (String LF (String LF EmptyString)) (paragraphs s) = s.
Proof.
  assert (H : ∀ n s, (String.length s ≤ n)%nat →
                     join (String LF (String LF EmptyString)) (paragraphs s) = s).
  { clear s. induction n as [|n IH]; intros s Hn.
    - by destruct s; [| cbn in Hn; lia].
    - destruct s as [|c [|d r']]; [done | done |].
      rewrite paragraphs_unfold.
      destruct (Ascii.eqb_spec c LF) as [-> | Hc]; cbn [andb].
      + destruct (Ascii.eqb_spec d LF) as [-> | Hd].
        * assert (Hr : join (String LF (String LF EmptyString)) (paragraphs r') = r')
            by (apply IH; cbn in Hn; lia).
          pose proof (paragraphs_nonempty r') as Hne.
          destruct (paragraphs r') as [|p l]; [done |].
          change (join (String LF (String LF EmptyString)) (EmptyString :: p :: l))
            with (String LF (String LF (join (String LF (String LF EmptyString)) (p :: l)))).
          by rewrite Hr.
        * rewrite consHead_join by apply paragraphs_nonempty.
          f_equal. apply IH. cbn in Hn |- *. lia.
      + rewrite consHead_join by apply paragraphs_nonempty.
        f_equal. apply IH. cbn in Hn |- *. lia. }
  by apply (H (String.length s)).
Qed.

Lemma breakSentences_length s : String.length (breakSentences s) = String.length s.
Proof.
  assert (H : ∀ n s, (String.length s ≤ n)%nat →
                     String.length (breakSentences s) = String.length s).
  { clear s. induction n as [|n IH]; intros s Hn.
    - by destruct s; [| cbn in Hn; lia].
    - destruct s as [|c [|d r']]; [done | done |].
      rewrite breakSentences_unfold.
      destruct (Ascii.eqb c "." && Ascii.eqb d " ").
      + cbn [String.length]. rewrite IH; [done | cbn in Hn; lia].
      + cbn [String.length]. rewrite IH; [done | cbn in Hn |- *; lia]. }
  by apply (H (String.length s)).
Qed.

Lemma join_length_fmap (f : string → string) sep (parts : list string) :
  (∀ p, String.length (f p) = String.length p) →
  String.length (join sep (f <$> parts)) = String.length (join sep parts).
Proof.
  intros Hf. induction parts as [|p [|q l] IH]; [done | apply Hf |].
  change (String.length (f p +:+ sep +:+ join sep (f <$> q :: l))
          = String.length (p +:+ sep +:+ join sep (q :: l))).
  rewrite !length_append, IH, Hf. done.
Qed.

End TextPipeline.

Section TextAtExecution.
Context {W : Type} {env : Collaborators W}.

(** X10.  When the text transform of the engine is the one of
    content-processor.js, a text that the validators accept for Facebook
    never fails the length check of the content processor: for every
    platform other than Instagram the processed text is the trimmed
    content, which is not longer.  The pass then fails or succeeds with
    the images alone. *)
Theorem facebook_text_passes_length_check content imagePaths (w : W) :
  (∀ c platform, c ≠ EmptyString →
                 processTextContent c platform
                 = ContentProcessor.processTextContent (Some c) platform) →
  Validators.validateTextContent content "facebook" = true →
  processPlatformContent (Some content) imagePaths "facebook" w
  = match processImages imagePaths "facebook" w with
    | (Ok processedImages, w1) =>
        (Ok (mkPlatformContent (ContentProcessor.trim content) processedImages), w1)
    | (Throw e, w1) => (Throw e, w1)
    end.
Proof.
  intros Horacle Hvalid. unfold Validators.validateTextContent in Hvalid.
  destruct (String.eqb_spec content EmptyString) as [| Hne]; [done |].
  unfold processPlatformContent.
  replace (platformLimits "facebook") with (MaxTextLength 63206) in * by reflexivity.
  cbn [truthy interpolate].
  destruct (String.eqb_spec content EmptyString); [done |]. cbn [negb].
  rewrite Horacle by done. rewrite processTextContent_other by done.
  apply negb_true_iff, Z.ltb_ge in Hvalid.
  pose proof (trim_length content) as Htrim.
  destruct (Z.ltb_spec 63206 (Z.of_nat (String.length (ContentProcessor.trim content))));
    [lia |].
  done.
Qed.
End TextAtExecution.

(** On an input: a short text, no image. *)
Lemma facebook_text_passes_length_check_witness :
  processPlatformContent (env := Scenario.processor) (Some "  Good morning!  ") []
                         "facebook" 0%nat
  = (Ok (mkPlatformContent "Good morning!" []), 0%nat).
Proof.
  rewrite (facebook_text_passes_length_check (env := Scenario.processor)).
  - reflexivity.
  - intros c platform _. reflexivity.
  - reflexivity.
Defined.

Section Hashtags.
Import ContentProcessor.
Implicit Types (s t : string) (c : ascii).

Lemma pieces_unfold c r :
  pieces 0 (String c r)
  = if Ascii.eqb c "#" then
      match takeWord r with
      | EmptyString => Char c :: pieces 0 r
      | String a w => Tag (String c (String a w)) :: pieces (S (String.length w)) r
      end
    else Char c :: pieces 0 r.
Proof. reflexivity. Qed.

Lemma textOf_Char c (l : list piece) : textOf (Char c :: l) = String c (textOf l).
Proof. reflexivity. Qed.

Lemma textOf_Tag t (l : list piece) : textOf (Tag t :: l) = textOf l.
Proof. reflexivity. Qed.

Lemma tagsOf_Char c (l : list piece) : tagsOf (Char c :: l) = tagsOf l.
Proof. reflexivity. Qed.

Lemma tagsOf_Tag t (l : list piece) : tagsOf (Tag t :: l) = t :: tagsOf l.
Proof. reflexivity. Qed.

Lemma takeWord_empty r : takeWord r = EmptyString ↔ startsNonWord r = true.
Proof.
  destruct r as [|c r]; [done |]. cbn.
  destruct (isWord c); cbn; split; done.
Qed.

Lemma takeWord_rest r : startsNonWord (dropS (String.length (takeWord r)) r) = true.
Proof.
  induction r as [|c r IH]; [done |].
  cbn [takeWord]. destruct (isWord c) eqn:Hc; cbn; [done | by rewrite Hc].
Qed.

Lemma takeWord_length r : (String.length (takeWord r) ≤ String.length r)%nat.
Proof.
  induction r as [|c r IH]; [done |].
  cbn [takeWord]. destruct (isWord c); cbn; lia.
Qed.

Lemma takeWord_allWord r : allWord (takeWord r) = true.
Proof.
  induction r as [|c r IH]; [done |].
  cbn [takeWord]. destruct (isWord c) eqn:Hc; cbn; [by rewrite Hc | done].
Qed.

Lemma takeWord_all w : allWord w = true → takeWord w = w.
Proof.
  induction w as [|c w IH]; [done |].
  cbn. destruct (isWord c); [| done]. cbn. intros Hw. by rewrite IH.
Qed.

Lemma takeWord_app r s :
  startsNonWord s = true → takeWord (r +:+ s) = takeWord r.
Proof.
  intros Hs. induction r as [|c r IH].
  - rewrite append_nil. by apply takeWord_empty.
  - rewrite append_cons. cbn [takeWord]. destruct (isWord c); [by rewrite IH | done].
Qed.

(** The code units outside of the matches hold no match, *)
Lemma textOf_noHashtag s :
  ∀ k, noHashtag (textOf (pieces k s)) = true
       ∧ (startsNonWord (dropS k s) = true →
          startsNonWord (textOf (pieces k s)) = true).
Proof.
  induction s as [|c r IH]; intros k; [by destruct k |].
  destruct k as [|k]; [| apply (IH k)].
  rewrite pieces_unfold. cbn [dropS].
  destruct (Ascii.eqb_spec c "#") as [-> | Hc].
  - destruct (takeWord r) as [|a w] eqn:Hw.
    + apply takeWord_empty in Hw.
      destruct (IH 0%nat) as [Hclean Hstart]. cbn [dropS] in Hstart.
      rewrite textOf_Char. cbn [noHashtag startsNonWord].
      rewrite Hclean, Hstart by done. by rewrite orb_true_r.
    + destruct (IH (S (String.length w))) as [Hclean Hstart].
      rewrite textOf_Tag. split; [exact Hclean |]. intros _. apply Hstart.
      pose proof (takeWord_rest r) as Hrest. by rewrite Hw in Hrest.
  - destruct (IH 0%nat) as [Hclean _].
    rewrite textOf_Char. cbn [noHashtag startsNonWord]. rewrite Hclean.
    destruct (Ascii.eqb_spec c "#"); [done |]. done.
Qed.

Lemma pieces_noHashtag s : noHashtag s = true → tagsOf (pieces 0 s) = [].
Proof.
  induction s as [|c r IH]; [done |].
  cbn [noHashtag]. intros [Hc Hr]%andb_true_iff.
  rewrite pieces_unfold.
  destruct (Ascii.eqb c "#"); cbn [negb orb] in Hc.
  - apply takeWord_empty in Hc. rewrite Hc, tagsOf_Char. by apply IH.
  - rewrite tagsOf_Char. by apply IH.
Qed.

Lemma trimStart_noHashtag s : noHashtag s = true → noHashtag (trimStart s) = true.
Proof.
  induction s as [|c r IH]; [done |].
  cbn [trimStart]. destruct (isSpace c); [| done].
  cbn [noHashtag]. intros [_ Hr]%andb_true_iff. by apply IH.
Qed.

Lemma trimEnd_head r :
  startsNonWord r = true → startsNonWord (trimEnd r) = true.
Proof.
  destruct r as [|c r]; [done |]. cbn.
  destruct (trimEnd r); [by destruct (isSpace c) | done].
Qed.

Lemma trimEnd_noHashtag s : noHashtag s = true → noHashtag (trimEnd s) = true.
Proof.
  induction s as [|c r IH]; [done |].
  cbn [noHashtag]. intros [Hc Hr]%andb_true_iff.
  specialize (IH Hr). cbn [trimEnd].
  destruct (trimEnd r) as [|d t] eqn:Ht.
  - destruct (isSpace c); [done |]. cbn. by rewrite orb_true_r.
  - change (noHashtag (String c (String d t)))
      with ((negb (Ascii.eqb c "#") || startsNonWord (String d t))
            && noHashtag (String d t)).
    rewrite IH, andb_true_r.
    destruct (Ascii.eqb c "#"); [| done]. cbn [negb orb] in Hc |- *.
    apply trimEnd_head in Hc. by rewrite Ht in Hc.
Qed.

Lemma hashtags_body s : hashtags (trim (withoutHashtags s)) = [].
Proof.
  unfold hashtags, trim, withoutHashtags. apply pieces_noHashtag.
  apply trimEnd_noHashtag, trimStart_noHashtag, textOf_noHashtag.
Qed.

Lemma pieces_skip_all s : ∀ k, (String.length s ≤ k)%nat → pieces k s = [].
Proof.
  induction s as [|c r IH]; intros k Hk; [by destruct k |].
  destruct k as [|k]; [cbn in Hk; lia |].
  cbn. apply IH. cbn in Hk. lia.
Qed.

(** and a text is cut independently of what follows it, when that does
    not start with a word character. *)
Lemma pieces_app s t :
  startsNonWord t = true →
  ∀ k, (k ≤ String.length s)%nat → pieces k (s +:+ t) = pieces k s ++ pieces 0 t.
Proof.
  intros Ht. induction s as [|c r IH]; intros k Hk.
  - cbn in Hk. replace k with 0%nat by lia. by rewrite append_nil.
  - rewrite append_cons. destruct k as [|k].
    + rewrite !pieces_unfold, takeWord_app by done.
      destruct (Ascii.eqb c "#").
      * destruct (takeWord r) as [|a w] eqn:Hw.
        -- cbn. f_equal. apply IH. lia.
        -- cbn. f_equal. apply IH.
           pose proof (takeWord_length r) as Hlen. rewrite Hw in Hlen. exact Hlen.
      * cbn. f_equal. apply IH. lia.
    + cbn [pieces]. apply IH. cbn in Hk. lia.
Qed.

Lemma pieces_tag t : isTag t → pieces 0 t = [Tag t].
Proof.
  intros (w & -> & Hne & Hw). rewrite pieces_unfold. cbn.
  rewrite takeWord_all by done.
  destruct w as [|a w]; [done |].
  by rewrite pieces_skip_all by (cbn; lia).
Qed.

Lemma tagsOf_app (l1 l2 : list piece) : tagsOf (l1 ++ l2) = tagsOf l1 ++ tagsOf l2.
Proof. apply omap_app. Qed.

Lemma hashtags_isTag s : ∀ k, Forall isTag (tagsOf (pieces k s)).
Proof.
  induction s as [|c r IH]; intros k; [destruct k; constructor |].
  destruct k as [|k]; [| apply (IH k)].
  rewrite pieces_unfold.
  destruct (Ascii.eqb_spec c "#") as [-> | Hc]; [| apply (IH 0%nat)].
  destruct (takeWord r) as [|a w] eqn:Hw; [apply (IH 0%nat) |].
  cbn. constructor; [| apply IH].
  exists (String a w). split_and!; [done | done |].
  rewrite <- Hw. apply takeWord_allWord.
Qed.

Lemma lowerChar_isWord c : isWord (lowerChar c) = isWord c.
Proof. destruct c as [[] [] [] [] [] [] [] []]; reflexivity. Qed.

Lemma toLowerCase_isTag t : isTag t → isTag (toLowerCase t).
Proof.
  intros (w & -> & Hne & Hw). exists (toLowerCase w). split_and!.
  - reflexivity.
  - by destruct w.
  - clear Hne. induction w as [|c w IH]; [done |].
    cbn in Hw |- *. apply andb_true_iff in Hw as [Hc Hw].
    by rewrite lowerChar_isWord, Hc, IH.
Qed.

Lemma hashtags_join (tags : list string) :
  Forall isTag tags → hashtags (join " " tags) = tags.
Proof.
  unfold hashtags. induction 1 as [|t l Ht Hl IH]; [done |].
  destruct l as [|t2 l].
  - cbn [join]. by rewrite pieces_tag.
  - change (join " " (t :: t2 :: l)) with (t +:+ " " +:+ join " " (t2 :: l)).
    rewrite pieces_app by (done || lia).
    rewrite tagsOf_app, pieces_tag, tagsOf_Tag by done.
    change (" " +:+ join " " (t2 :: l)) with (String " " (join " " (t2 :: l))).
    rewrite pieces_unfold.
    replace (Ascii.eqb " " "#") with false by reflexivity.
    rewrite tagsOf_Char, IH. reflexivity.
Qed.

Lemma hashtags_processHashtags s :
  hashtags (processHashtags s "instagram") = take 30 (toLowerCase <$> hashtags s).
Proof.
  unfold processHashtags.
  replace (String.eqb "instagram" "instagram") with true by reflexivity.
  assert (Htags : Forall isTag (take 30 (toLowerCase <$> hashtags s))).
  { apply Forall_take, Forall_fmap.
    eapply Forall_impl; [apply hashtags_isTag |].
    intros t Ht. by apply toLowerCase_isTag. }
  destruct (take 30 (toLowerCase <$> hashtags s)) as [|t l] eqn:Hkept.
  - apply hashtags_body.
  - unfold hashtags at 1.
    rewrite pieces_app by (done || lia).
    rewrite tagsOf_app.
    change (tagsOf (pieces 0 (trim (withoutHashtags s))))
      with (hashtags (trim (withoutHashtags s))).
    rewrite hashtags_body.
    change (String LF (String LF EmptyString) +:+ join " " (t :: l))
      with (String LF (String LF (join " " (t :: l)))).
    rewrite pieces_unfold.
    replace (Ascii.eqb LF "#") with false by reflexivity.
    rewrite tagsOf_Char, pieces_unfold.
    replace (Ascii.eqb LF "#") with false by reflexivity.
    rewrite tagsOf_Char. cbn [app].
    by apply hashtags_join.
Qed.

(** Spaces turned into line feeds move no match. *)
Lemma brokenLines_refl s : brokenLines s s.
Proof. induction s; by constructor. Qed.

Lemma brokenLines_app s1 t1 s2 t2 :
  brokenLines s1 t1 → brokenLines s2 t2 → brokenLines (s1 +:+ s2) (t1 +:+ t2).
Proof.
  induction 1; intros H2; rewrite ?append_nil, ?append_cons; [done | |];
    constructor; auto.
Qed.

Lemma brokenLines_takeWord s t : brokenLines s t → takeWord t = takeWord s.
Proof.
  induction 1 as [| c s t H IH | s t H IH]; [done | | done].
  cbn. by rewrite IH.
Qed.

Lemma brokenLines_length s t : brokenLines s t → String.length t = String.length s.
Proof. induction 1; cbn; congruence. Qed.

Lemma brokenLines_tags s t :
  brokenLines s t → ∀ k, tagsOf (pieces k t) = tagsOf (pieces k s).
Proof.
  induction 1 as [| c s t H IH | s t H IH]; intros k; [done | |].
  - destruct k as [|k]; [| apply IH].
    rewrite !pieces_unfold, (brokenLines_takeWord s t) by done.
    destruct (Ascii.eqb c "#"); [| cbn; apply IH].
    destruct (takeWord s); cbn; [apply IH | by rewrite IH].
  - destruct k as [|k]; [| apply IH].
    rewrite !pieces_unfold. cbn. apply IH.
Qed.

Lemma brokenLines_breakSentences s : brokenLines s (breakSentences s).
Proof.
  assert (H : ∀ n s, (String.length s ≤ n)%nat → brokenLines s (breakSentences s)).
  { clear s. induction n as [|n IH]; intros s Hn.
    - destruct s; [constructor | cbn in Hn; lia].
    - destruct s as [|c [|d r']]; [constructor | apply brokenLines_refl |].
      rewrite breakSentences_unfold.
      destruct (Ascii.eqb c "."); cbn [andb].
      + destruct (Ascii.eqb_spec d " ") as [-> | Hd].
        * constructor. constructor. apply IH. cbn in Hn. lia.
        * constructor. apply IH. cbn in Hn |- *. lia.
      + constructor. apply IH. cbn in Hn |- *. lia. }
  by apply (H (String.length s)).
Qed.

Lemma brokenLines_join (f : string → string) sep (parts : list string) :
  (∀ p, brokenLines p (f p)) →
  brokenLines (join sep parts) (join sep (f <$> parts)).
Proof.
  intros Hf. induction parts as [|p [|q l] IH]; [constructor | apply Hf |].
  change (brokenLines (p +:+ sep +:+ join sep (q :: l))
                      (f p +:+ sep +:+ join sep (f <$> q :: l))).
  apply brokenLines_app; [apply Hf |].
  apply brokenLines_app; [apply brokenLines_refl | apply IH].
Qed.

Lemma brokenLines_optimizeForInstagram s : brokenLines s (optimizeForInstagram s).
Proof.
  unfold optimizeForInstagram. rewrite <- (join_paragraphs s) at 1.
  apply brokenLines_join. intros p.
  destruct (150 <? String.length p)%nat;
    [apply brokenLines_breakSentences | apply brokenLines_refl].
Qed.

(** X9.  [optimizeForInstagram] changes nothing in a text but spaces,
    which it turns into line feeds: the length stays the same; and it
    returns the text as it is when no paragraph (the parts between blank
    lines) has more than 150 code units. *)
Theorem optimizeForInstagram_breaks_lines_only s :
  brokenLines s (optimizeForInstagram s)
  ∧ String.length (optimizeForInstagram s) = String.length s
  ∧ (Forall (λ p, (String.length p ≤ 150)%nat) (paragraphs s) →
     optimizeForInstagram s = s).
Proof.
  split; [apply brokenLines_optimizeForInstagram |].
  split; [apply brokenLines_length, brokenLines_optimizeForInstagram |].
  unfold optimizeForInstagram.
  intros Hall. rewrite <- (join_paragraphs s) at 2. f_equal.
  rewrite <- (list_fmap_id (paragraphs s)) at 2.
  apply list_fmap_ext. intros i p Hp. cbv beta. unfold id.
  rewrite Forall_lookup in Hall. specialize (Hall i p Hp). cbv beta in Hall.
  destruct (Nat.ltb_spec 150 (String.length p)); [lia | done].
Qed.

(** X11.  The text that goes to Instagram carries, as its hashtags, the
    first thirty hashtags of the trimmed content, in lower case and in
    the order of the content, and no other: hashtags beyond the thirtieth
    are dropped and the count is never above thirty. *)
Theorem instagram_text_keeps_thirty_hashtags content :
  content ≠ EmptyString →
  hashtags (processTextContent (Some content) "instagram")
  = take 30 (toLowerCase <$> hashtags (trim content))
  ∧ (countHashtags (processTextContent (Some content) "instagram") ≤ 30)%nat.
Proof.
  intros Hne.
  assert (Hh : hashtags (processTextContent (Some content) "instagram")
               = take 30 (toLowerCase <$> hashtags (trim content))).
  { unfold processTextContent, processMentions. cbn [truthy interpolate].
    destruct (String.eqb_spec content EmptyString); [done |]. cbn [negb].
    replace (String.eqb "instagram" "instagram") with true by reflexivity.
    unfold hashtags at 1.
    rewrite (brokenLines_tags _ _ (brokenLines_optimizeForInstagram _)).
    apply hashtags_processHashtags. }
  split; [exact Hh |].
  unfold countHashtags. rewrite Hh, length_take. lia.
Qed.

Lemma pieces_length s :
  ∀ k, (k ≤ String.length s)%nat →
       (String.length (textOf (pieces k s))
        + sum_list (String.length <$> tagsOf (pieces k s)) + k
        = String.length s)%nat.
Proof.
  induction s as [|c r IH]; intros k Hk; [cbn in Hk; by replace k with 0%nat by lia |].
  destruct k as [|k].
  - rewrite pieces_unfold.
    destruct (Ascii.eqb c "#").
    + destruct (takeWord r) as [|a w] eqn:Hw.
      * rewrite textOf_Char, tagsOf_Char. cbn [String.length].
        specialize (IH 0%nat). lia.
      * rewrite textOf_Tag, tagsOf_Tag. cbn [String.length fmap list_fmap sum_list].
        pose proof (takeWord_length r) as Hlen. rewrite Hw in Hlen. cbn in Hlen.
        specialize (IH (S (String.length w)) Hlen).
        unfold id in *. lia.
    + rewrite textOf_Char, tagsOf_Char. cbn [String.length].
      specialize (IH 0%nat). lia.
  - cbn [pieces String.length]. cbn in Hk. specialize (IH k). lia.
Qed.

Lemma toLowerCase_length s : String.length (toLowerCase s) = String.length s.
Proof. induction s as [|c r IH]; cbn; congruence. Qed.

Lemma join_space_length t (l : list string) :
  (String.length (join " " (t :: l)) + 1
   ≤ sum_list (String.length <$> t :: l) + length (t :: l))%nat.
Proof.
  revert t. induction l as [|t2 l IH]; intros t.
  - cbn. unfold id. lia.
  - change (join " " (t :: t2 :: l)) with (t +:+ " " +:+ join " " (t2 :: l)).
    rewrite !length_append. specialize (IH t2).
    rewrite fmap_cons. cbn [String.length sum_list_with length] in IH |- *.
    unfold id in *. lia.
Qed.

Lemma sum_list_take (l : list nat) n : (sum_list (take n l) ≤ sum_list l)%nat.
Proof.
  revert n. induction l as [|x l IH]; intros [|n]; cbn; try lia.
  specialize (IH n). lia.
Qed.

(** X12.  What the processing for Instagram can add to the length of a
    text: nothing when the trimmed content has no hashtag, and otherwise
    at most one code unit for each hashtag that is kept (thirty at most)
    and one more. *)
Theorem instagram_text_length content :
  content ≠ EmptyString →
  let kept := length (take 30 (hashtags (trim content))) in
  (String.length (processTextContent (Some content) "instagram")
   ≤ String.length content + (if kept is O then 0 else kept + 1))%nat.
Proof.
  intros Hne kept.
  unfold processTextContent, processMentions. cbn [truthy interpolate].
  destruct (String.eqb_spec content EmptyString); [done |]. cbn [negb].
  replace (String.eqb "instagram" "instagram") with true by reflexivity.
  rewrite (brokenLines_length _ _ (brokenLines_optimizeForInstagram _)).
  pose proof (trim_length content) as Htrim.
  set (t := trim content) in *.
  pose proof (pieces_length t 0 ltac:(lia)) as Hsplit.
  fold (withoutHashtags t) in Hsplit. fold (hashtags t) in Hsplit.
  pose proof (trim_length (withoutHashtags t)) as Hbody.
  unfold processHashtags.
  replace (String.eqb "instagram" "instagram") with true by reflexivity.
  assert (Hkept : length (take 30 (toLowerCase <$> hashtags t)) = kept).
  { subst kept. by rewrite !length_take, length_fmap. }
  assert (Hsum : (sum_list (String.length <$> take 30 (toLowerCase <$> hashtags t))
                  ≤ sum_list (String.length <$> hashtags t))%nat).
  { rewrite <- fmap_take, <- list_fmap_compose.
    erewrite (list_fmap_ext _ String.length);
      [| intros i x _; apply toLowerCase_length].
    rewrite fmap_take. apply sum_list_take. }
  destruct (take 30 (toLowerCase <$> hashtags t)) as [|tag l] eqn:Htake.
  - cbn in Hkept. rewrite <- Hkept. lia.
  - pose proof (join_space_length tag l) as Hjoin.
    rewrite !length_append. cbn [String.length].
    rewrite <- Hkept. cbn [length] in Hjoin, Hkept |- *. lia.
Qed.
End Hashtags.

(** On an input: two hashtags, one of them in capitals. *)
Lemma instagram_text_keeps_thirty_hashtags_witness :
  ContentProcessor.hashtags
    (ContentProcessor.processTextContent (Some "Sale! #Deal today #SALE") "instagram")
  = ["#deal"; "#sale"].
Proof.
  destruct (instagram_text_keeps_thirty_hashtags "Sale! #Deal today #SALE")
    as [Htags _]; [discriminate |].
  rewrite Htags. reflexivity.
Defined.

(** On an input: two hashtags side by side, and nothing else. *)
Lemma instagram_text_length_witness :
  (String.length (ContentProcessor.processTextContent (Some "#a#b") "instagram")
   ≤ 4 + 3)%nat.
Proof.
  apply (instagram_text_length "#a#b"). discriminate.
Defined.


(** ** The quota of the platform client *)

Section Quota.
Import MetaClient.
Context {W : Type} {out : Outside W}.
Implicit Types (st : State (W := W)) (c : Client) (platform : Platform).

Lemma keeps_ret I {A} (a : A) : keeps (W := W) I (ret a).
Proof. by intros st. Qed.

Lemma keeps_throw I {A} e : keeps (W := W) I (throw (A := A) e).
Proof. by intros st. Qed.

Lemma keeps_bind I {A B} (m : M A) (k : A → M (W := W) B) :
  keeps I m → (∀ a, keeps I (k a)) → keeps I (bind m k).
Proof.
  intros Hm Hk st Hst. unfold bind. specialize (Hm st Hst).
  destruct (m st) as [[a | e] st1]; [| done]. by apply Hk.
Qed.

Lemma keeps_now I : keeps (W := W) I now.
Proof. intros st. unfold now. by destruct (clock (outside st)). Qed.

Lemma keeps_makeRequest I r : keeps (W := W) I (makeRequest r).
Proof. intros st. unfold makeRequest. by destruct (request r (outside st)). Qed.

Lemma keeps_getClient I : keeps (W := W) I getClient.
Proof. by intros st. Qed.

Lemma keeps_setClient (I : Client → Prop) f :
  (∀ c, I c → I (f c)) → keeps (W := W) I (setClient f).
Proof. intros Hf st. apply Hf. Qed.

Lemma keeps_field I {A} data (f : Response → option A) fieldName :
  keeps (W := W) I (field data f fieldName).
Proof. destruct data; [apply keeps_ret | apply keeps_throw]. Qed.

Lemma withinQuota_setPageAccessToken t c :
  withinQuota c → withinQuota (setPageAccessToken t c).
Proof. intros H platform. specialize (H platform). by destruct platform. Qed.

Lemma rateLimit_set_same platform l c :
  rateLimit platform (setRateLimit platform l c) = l.
Proof. by destruct platform. Qed.

Lemma rateLimit_set_other platform platform' l c :
  platform ≠ platform' →
  rateLimit platform (setRateLimit platform' l c) = rateLimit platform c.
Proof. by destruct platform, platform'. Qed.

Lemma setRateLimit_twice platform l1 l2 c :
  setRateLimit platform l2 (setRateLimit platform l1 c) = setRateLimit platform l2 c.
Proof. by destruct platform. Qed.

(** [checkRateLimit], path by path. *)
Lemma checkRateLimit_unfold platform st :
  checkRateLimit platform st
  = let '(t, w1) := clock (outside st) in
    let limit := rateLimit platform (client st) in
    if resetTime limit <? t then
      let '(t2, w2) := clock w1 in
      (Ok tt, mkState (setRateLimit platform (mkRateLimit 1 (t2 + 3600000)) (client st))
                      w2 (sent st))
    else if maxRequestsPerHour <=? requests limit then
      let '(t3, w3) := clock w1 in
      (Throw ("Rate limit exceeded for " +:+ name platform +:+ ". Try again in "
              +:+ pretty (minutesUp (resetTime limit - t3)) +:+ " minutes."),
       mkState (client st) w3 (sent st))
    else
      (Ok tt, mkState (setRateLimit platform
                         (mkRateLimit (requests limit + 1) (resetTime limit)) (client st))
                      w1 (sent st)).
Proof.
  unfold checkRateLimit, bind, now, getClient, setClient, ret, throw.
  destruct (clock (outside st)) as [t w1].
  cbn [client outside sent].
  destruct (resetTime (rateLimit platform (client st)) <? t) eqn:Hexpired.
  - cbn [client outside sent]. destruct (clock w1) as [t2 w2].
    cbn [client outside sent].
    rewrite rateLimit_set_same. cbn [requests resetTime].
    replace (maxRequestsPerHour <=? 0) with false by reflexivity.
    cbn [client outside sent]. by rewrite setRateLimit_twice.
  - cbn [client outside sent].
    destruct (maxRequestsPerHour <=? requests (rateLimit platform (client st))).
    + cbn [client outside sent]. by destruct (clock w1) as [t3 w3].
    + done.
Qed.

Lemma keeps_checkRateLimit platform : keeps (W := W) withinQuota (checkRateLimit platform).
Proof.
  intros st Hst. rewrite checkRateLimit_unfold.
  destruct (clock (outside st)) as [t w1]. cbn zeta.
  destruct (resetTime (rateLimit platform (client st)) <? t).
  - destruct (clock w1) as [t2 w2]. cbn [snd client].
    intros p. pose proof (Hst p) as Hp.
    destruct p, platform; cbn in *; unfold maxRequestsPerHour in *; lia.
  - destruct (Z.leb_spec maxRequestsPerHour (requests (rateLimit platform (client st)))).
    + by destruct (clock w1).
    + cbn [snd client]. intros p.
      pose proof (Hst p). pose proof (Hst platform).
      destruct p, platform; cbn in *; unfold maxRequestsPerHour in *; lia.
Qed.

Lemma keeps_getFacebookPageInfo : keeps (W := W) withinQuota getFacebookPageInfo.
Proof.
  unfold getFacebookPageInfo.
  apply keeps_bind; [apply keeps_getClient | intros c].
  apply keeps_bind; [apply keeps_makeRequest | intros response].
  apply keeps_bind; [apply keeps_field | intros token].
  apply keeps_bind; [| intros _; apply keeps_ret].
  destruct (truthy token); [| apply keeps_ret].
  apply keeps_setClient. intros c'. apply withinQuota_setPageAccessToken.
Qed.

Lemma keeps_ensurePageAccessToken : keeps (W := W) withinQuota ensurePageAccessToken.
Proof.
  unfold ensurePageAccessToken.
  apply keeps_bind; [apply keeps_getClient | intros c].
  destruct (negb (truthy (pageAccessToken c))); [| apply keeps_ret].
  apply keeps_bind; [apply keeps_getFacebookPageInfo | intros _; apply keeps_ret].
Qed.

Lemma keeps_uploadFacebookImage imagePath :
  keeps (W := W) withinQuota (uploadFacebookImage imagePath).
Proof.
  unfold uploadFacebookImage.
  apply keeps_bind; [apply keeps_checkRateLimit | intros _].
  apply keeps_bind; [apply keeps_ensurePageAccessToken | intros _].
  apply keeps_bind; [apply keeps_getClient | intros c].
  apply keeps_bind; [apply keeps_makeRequest | intros response].
  apply keeps_field.
Qed.

Lemma keeps_postToFacebook postData :
  keeps (W := W) withinQuota (postToFacebook postData).
Proof.
  unfold postToFacebook.
  apply keeps_bind; [apply keeps_checkRateLimit | intros _].
  apply keeps_bind; [apply keeps_ensurePageAccessToken | intros _].
  apply keeps_bind; [apply keeps_getClient | intros c].
  apply keeps_bind.
  - destruct (truthy (imagePath postData)); [| apply keeps_ret].
    apply keeps_bind; [apply keeps_uploadFacebookImage | intros photoId; apply keeps_ret].
  - intros payload.
    apply keeps_bind; [apply keeps_getClient | intros c'].
    apply keeps_bind; [apply keeps_makeRequest | intros response].
    apply keeps_field.
Qed.

Lemma keeps_postToInstagram postData :
  keeps (W := W) withinQuota (postToInstagram postData).
Proof.
  unfold postToInstagram.
  apply keeps_bind; [apply keeps_checkRateLimit | intros _].
  destruct (negb (truthy (imagePath postData))); [apply keeps_throw |].
  unfold uploadInstagramImage.
  apply keeps_bind; [apply keeps_checkRateLimit | intros _].
  apply keeps_bind; [apply keeps_getClient | intros c].
  apply keeps_bind; [apply keeps_makeRequest | intros response].
  apply keeps_bind; [apply keeps_field | intros creationId].
  apply keeps_bind; [apply keeps_makeRequest | intros publishResponse].
  apply keeps_field.
Qed.

(** X13.  The counters of the quota stay within it: whatever the
    platform, the post and the answers to the requests, a call of
    [postToPlatform] leaves both counters between 0 and 200.  A check of
    the quota that refuses changes nothing in the client and sends
    nothing; it refuses when the hour is not over and the counter has
    reached 200. *)
Theorem quota_is_never_exceeded (platformName : string) postData st :
  withinQuota (client st) →
  withinQuota (client (postToPlatform platformName postData st).2)
  ∧ ∀ platform e st',
      checkRateLimit platform st = (Throw e, st') →
      client st' = client st ∧ sent st' = sent st
      ∧ requests (rateLimit platform (client st)) = maxRequestsPerHour
      ∧ (clock (outside st)).1 <= resetTime (rateLimit platform (client st)).
Proof.
  intros Hst. split.
  - unfold postToPlatform.
    destruct (String.eqb platformName "facebook"); [by apply keeps_postToFacebook |].
    destruct (String.eqb platformName "instagram"); [by apply keeps_postToInstagram |].
    done.
  - intros platform e st'. rewrite checkRateLimit_unfold.
    destruct (clock (outside st)) as [t w1]. cbn zeta. cbn [fst].
    destruct (Z.ltb_spec (resetTime (rateLimit platform (client st))) t).
    + by destruct (clock w1).
    + destruct (Z.leb_spec maxRequestsPerHour (requests (rateLimit platform (client st))));
        [| done].
      destruct (clock w1) as [t3 w3]. intros [= _ <-]. cbn.
      pose proof (Hst platform). split_and!; try done. lia.
Qed.

Lemma checkRateLimit_open platform st :
  (clock (outside st)).1 <= resetTime (rateLimit platform (client st)) →
  checkRateLimit platform st
  = if maxRequestsPerHour <=? requests (rateLimit platform (client st)) then
      (Throw ("Rate limit exceeded for " +:+ name platform +:+ ". Try again in "
              +:+ pretty (minutesUp (resetTime (rateLimit platform (client st))
                                     - (clock (clock (outside st)).2).1))
              +:+ " minutes."),
       mkState (client st) (clock (clock (outside st)).2).2 (sent st))
    else
      (Ok tt,
       mkState (setRateLimit platform
                  (mkRateLimit (requests (rateLimit platform (client st)) + 1)
                               (resetTime (rateLimit platform (client st))))
                  (client st))
               (clock (outside st)).2 (sent st)).
Proof.
  intros Hopen. rewrite checkRateLimit_unfold.
  destruct (clock (outside st)) as [t w1]. cbn [fst snd] in *. cbn zeta.
  destruct (Z.ltb_spec (resetTime (rateLimit platform (client st))) t); [lia |].
  destruct (maxRequestsPerHour <=? requests (rateLimit platform (client st))); [| done].
  by destruct (clock w1).
Qed.

(** Reading the page token sends no [POST] and leaves the counters. *)
Lemma ensurePageAccessToken_spec st :
  ∃ new,
    sent (ensurePageAccessToken st).2 = sent st ++ new
    ∧ Forall (λ r, isPost r = false) new
    ∧ ∀ platform, rateLimit platform (client (ensurePageAccessToken st).2)
                  = rateLimit platform (client st).
Proof.
  unfold ensurePageAccessToken, getFacebookPageInfo, bind, getClient, makeRequest,
    field, setClient, ret, throw.
  destruct (negb (truthy (pageAccessToken (client st)))).
  - destruct (request _ (outside st)) as [[[response |] | e] w1]; cbn [client sent outside].
    + destruct (truthy (access_token response)); cbn.
      * eexists [_]. split_and!; [done | by repeat constructor |]. by intros [].
      * eexists [_]. split_and!; [done | by repeat constructor | done].
    + eexists [_]. split_and!; [done | by repeat constructor | done].
    + eexists [_]. split_and!; [done | by repeat constructor | done].
  - exists []. cbn. rewrite app_nil_r. by split_and!.
Qed.

Lemma uploadFacebookImage_spec image st T :
  (∀ w : W, (clock w).1 <= T) →
  resetTime (facebookLimit (client st)) = T →
  resetTime (facebookLimit (client (uploadFacebookImage image st).2)) = T
  ∧ (isOk (uploadFacebookImage image st).1 = true →
     requests (facebookLimit (client (uploadFacebookImage image st).2))
     = requests (facebookLimit (client st)) + 1
     ∧ requests (facebookLimit (client st)) < maxRequestsPerHour)
  ∧ (maxRequestsPerHour <= requests (facebookLimit (client st)) →
     isOk (uploadFacebookImage image st).1 = false
     ∧ client (uploadFacebookImage image st).2 = client st
     ∧ sent (uploadFacebookImage image st).2 = sent st).
Proof.
  intros Hclock HT. unfold uploadFacebookImage, bind.
  rewrite checkRateLimit_open by (cbn [rateLimit]; rewrite HT; apply Hclock).
  cbn [rateLimit].
  destruct (Z.leb_spec maxRequestsPerHour (requests (facebookLimit (client st))))
    as [Hfull | Hfree].
  - cbn. split_and!; [done | done | by intros _].
  - set (st1 := mkState _ _ _).
    assert (H1 : facebookLimit (client st1)
                 = mkRateLimit (requests (facebookLimit (client st)) + 1) T).
    { subst st1. cbn. by rewrite HT. }
    destruct (ensurePageAccessToken_spec st1) as (new & Hsent & Hnew & Hlimits).
    specialize (Hlimits facebook). cbn [rateLimit] in Hlimits.
    destruct (ensurePageAccessToken st1) as [[[] | e] st2]; cbn [fst snd] in *.
    + unfold getClient, makeRequest, field, ret, throw.
      destruct (request _ (outside st2)) as [[[response |] | e] w3];
        cbn [fst snd client isOk]; rewrite Hlimits, H1; cbn;
        split_and!; try done; try lia.
    + cbn [isOk]. rewrite Hlimits, H1. cbn. split_and!; try done; lia.
Qed.

(** X14.  A post to Facebook with an image takes two units of the hourly
    quota and a post without an image one, when the hour is not over
    during the call: the post succeeds only with that many units free.
    With one unit left, a post with an image fails after it has taken
    the unit, and no [POST] request is sent. *)
Theorem facebook_post_takes_quota_units postData st :
  (∀ w : W, (clock w).1 <= resetTime (facebookLimit (client st))) →
  let used := requests (facebookLimit (client st)) in
  let units := if truthy (imagePath postData) then 2 else 1 in
  let result := (postToFacebook postData st).1 in
  let st' := (postToFacebook postData st).2 in
  (isOk result = true →
   requests (facebookLimit (client st')) = used + units
   ∧ used + units <= maxRequestsPerHour)
  ∧ (truthy (imagePath postData) = true → used = maxRequestsPerHour - 1 →
     isOk result = false
     ∧ requests (facebookLimit (client st')) = maxRequestsPerHour
     ∧ ∃ new, sent st' = sent st ++ new ∧ Forall (λ r, isPost r = false) new).
Proof.
  intros Hclock used units result st'. subst result st'.
  destruct (postToFacebook postData st) as [result st'] eqn:Hrun. cbn [fst snd].
  unfold postToFacebook, bind in Hrun.
  rewrite checkRateLimit_open in Hrun by apply Hclock.
  cbn [rateLimit] in Hrun. fold used in Hrun.
  destruct (Z.leb_spec maxRequestsPerHour used) as [Hfull | Hfree].
  { injection Hrun as <- <-. cbn. unfold maxRequestsPerHour in *.
    split; [done | intros _ ?; lia]. }
  set (T := resetTime (facebookLimit (client st))) in *.
  set (st1 := mkState _ _ _) in Hrun.
  assert (H1 : facebookLimit (client st1) = mkRateLimit (used + 1) T) by done.
  assert (Hsent1 : sent st1 = sent st) by done.
  destruct (ensurePageAccessToken_spec st1) as (new & Hsent & Hnew & Hlimits).
  specialize (Hlimits facebook). cbn [rateLimit] in Hlimits.
  destruct (ensurePageAccessToken st1) as [[[] | e] st2]; cbn [fst snd] in *.
  2: { injection Hrun as <- <-. cbn [isOk]. rewrite Hlimits, H1. cbn. split; [done |].
       intros _ Hused. split_and!; [done | unfold maxRequestsPerHour in *; lia |].
       exists new. by rewrite Hsent, Hsent1. }
  unfold getClient at 1 in Hrun. cbn [fst snd] in Hrun.
  assert (H2 : facebookLimit (client st2) = mkRateLimit (used + 1) T)
    by by rewrite Hlimits.
  destruct (truthy (imagePath postData)) eqn:Himage; subst units.
  - destruct (uploadFacebookImage_spec (interpolate (imagePath postData)) st2 T)
      as (HT3 & Hok3 & Hfull3); [done | by rewrite H2 |].
    rewrite H2 in Hok3, Hfull3. cbn [requests] in Hok3, Hfull3.
    destruct (uploadFacebookImage (interpolate (imagePath postData)) st2)
      as [[photoId | e] st3]; cbn [fst snd isOk] in *.
    + destruct (Hok3 eq_refl) as [Hreq3 Hlt3].
      unfold ret, getClient, makeRequest, field, throw in Hrun. cbn [fst snd] in Hrun.
      destruct (request _ (outside st3)) as [[[response |] | e] w4];
        injection Hrun as <- <-;
        cbn [fst snd client isOk]; rewrite Hreq3; unfold maxRequestsPerHour in *;
        (split; [intros; lia | intros _ Hused; lia]).
    + injection Hrun as <- <-. split; [done |]. intros _ Hused.
      destruct Hfull3 as (_ & Hclient & Hsent3); [unfold maxRequestsPerHour in *; lia |].
      rewrite Hclient, H2. cbn. split_and!; [done | unfold maxRequestsPerHour in *; lia |].
      exists new. by rewrite Hsent3, Hsent, Hsent1.
  - unfold ret, getClient, makeRequest, field, throw in Hrun. cbn [fst snd] in Hrun.
    destruct (request _ (outside st2)) as [[[response |] | e] w4];
      injection Hrun as <- <-;
      cbn [fst snd client isOk]; rewrite H2; cbn; unfold maxRequestsPerHour in *;
      (split; [intros; lia | done]).
Qed.

Lemma postToInstagram_refuses postData st :
  truthy (imagePath postData) = false → isOk (postToInstagram postData st).1 = false.
Proof.
  intros Himage. unfold postToInstagram, bind. rewrite Himage. cbn [negb].
  by destruct (checkRateLimit instagram st) as [[[] | e] st1].
Qed.

(** X15.  A post to Instagram without an image is refused by the client
    itself: the quota is checked first, so the post is counted against
    the hour and then refused with the error of the missing image; no
    request is sent, whatever the state of the client. *)
Theorem instagram_post_without_image_is_counted postData st :
  truthy (imagePath postData) = false →
  postToInstagram postData st
  = match checkRateLimit instagram st with
    | (Ok _, st1) => (Throw "Instagram requires an image for posting", st1)
    | (Throw e, st1) => (Throw e, st1)
    end
  ∧ isOk (postToInstagram postData st).1 = false
  ∧ sent (postToInstagram postData st).2 = sent st
  ∧ (isOk (checkRateLimit instagram st).1 = true →
     requests (instagramLimit (client (postToInstagram postData st).2))
     = if resetTime (instagramLimit (client st)) <? (clock (outside st)).1
       then 1 else requests (instagramLimit (client st)) + 1).
Proof.
  intros Himage. unfold postToInstagram, bind. rewrite Himage. cbn [negb].
  split; [by destruct (checkRateLimit instagram st) as [[[] | e] st1] |].
  rewrite checkRateLimit_unfold.
  destruct (clock (outside st)) as [t w1]. cbn zeta. cbn [fst rateLimit].
  destruct (resetTime (instagramLimit (client st)) <? t).
  - by destruct (clock w1).
  - destruct (maxRequestsPerHour <=? requests (instagramLimit (client st))).
    + by destruct (clock w1).
    + done.
Qed.
End Quota.

(** On an input: one unit of the hour is left. *)
Lemma quota_is_never_exceeded_witness :
  MetaClient.withinQuota
    (MetaClient.client
       (MetaClient.postToPlatform (out := Scenario.answered) "facebook"
                                  Scenario.imagePost (Scenario.state 199)).2).
Proof.
  destruct (quota_is_never_exceeded (out := Scenario.answered) "facebook"
              Scenario.imagePost (Scenario.state 199)) as [Hquota _].
  - intros []; cbn; unfold MetaClient.maxRequestsPerHour; lia.
  - exact Hquota.
Defined.

(** On an input: the first post of the hour, with an image. *)
Lemma facebook_post_takes_quota_units_witness :
  MetaClient.requests
    (MetaClient.facebookLimit
       (MetaClient.client
          (MetaClient.postToFacebook (out := Scenario.answered) Scenario.imagePost
                                     (Scenario.state 0)).2))
  = 2.
Proof.
  destruct (facebook_post_takes_quota_units (out := Scenario.answered)
              Scenario.imagePost (Scenario.state 0)) as [Hunits _].
  - intros w. cbn. lia.
  - destruct Hunits as [Hunits _]; [vm_compute; reflexivity | exact Hunits].
Defined.

(** On an input: a text for Instagram, no image. *)
Lemma instagram_post_without_image_is_counted_witness :
  MetaClient.postToInstagram (out := Scenario.answered) Scenario.textPost
                             (Scenario.state 0)
  = (Throw "Instagram requires an image for posting",
     MetaClient.mkState
       (MetaClient.setRateLimit
          MetaClient.instagram
          (MetaClient.mkRateLimit 1 (Fixture.nineOClock + 3600000))
          (Scenario.client 0))
       0%nat []).
Proof.
  destruct (instagram_post_without_image_is_counted (out := Scenario.answered)
              Scenario.textPost (Scenario.state 0)) as [Hrun _]; [reflexivity |].
  rewrite Hrun. reflexivity.
Defined.

(** ** Health status *)

Section HealthProperties.
Import Health.

Lemma updateHealthStatus_status processUptime time h :
  metaClient (updateHealthStatus processUptime time h) = metaClient h
  ∧ status (updateHealthStatus processUptime time h)
    = if negb (match metaClient h with
               | Some service => Service_eqb service healthy
               | None => false
               end) && Status_eqb (status h) running
      then degraded else status h.
Proof.
  unfold updateHealthStatus. cbn [metaClient status].
  by destruct (negb _ && _).
Qed.

Lemma updates_status readings :
  ∀ h, metaClient (updates readings h) = metaClient h
       ∧ (status h ≠ running → status (updates readings h) = status h)
       ∧ (status h = running → metaClient h = Some healthy →
          status (updates readings h) = running)
       ∧ (status h = running → metaClient h ≠ Some healthy → readings ≠ [] →
          status (updates readings h) = degraded).
Proof.
  unfold updates.
  induction readings as [|[processUptime time] readings IH]; intros h; [by cbn |].
  cbn [fold_left fst snd].
  destruct (updateHealthStatus_status processUptime time h) as [Hmeta Hstatus].
  destruct (IH (updateHealthStatus processUptime time h)) as (Hm & Hother & Hok & Hbad).
  rewrite Hm, Hmeta. split; [done |].
  split_and!.
  - intros Hne. rewrite Hother; rewrite Hstatus.
    + destruct (status h); try done; by rewrite andb_false_r.
    + destruct (status h); try done; by rewrite andb_false_r.
  - intros Hrun Hhealthy. rewrite Hok; rewrite ?Hstatus, ?Hmeta, ?Hhealthy; done.
  - intros Hrun Hbadm _.
    assert (Hnow : status (updateHealthStatus processUptime time h) = degraded).
    { rewrite Hstatus, Hrun.
      destruct (metaClient h) as [[] |]; try done. }
    rewrite Hother; [done | by rewrite Hnow].
Qed.

(** X16.  The health status after startup: [initialize] ends with the
    status [running] whether a connection to Meta is valid or not; the
    health updates that follow keep it [running] when one was valid, and
    turn it to [degraded] at the first of them when none was.  The
    status never recovers: the updates leave every status other than
    [running] as it is. *)
Theorem health_status_after_startup
        facebookValid instagramValid filesListed processUptime time readings :
  status (initialized facebookValid instagramValid filesListed processUptime time)
  = running
  ∧ status (updates readings
              (initialized facebookValid instagramValid filesListed processUptime time))
    = (if facebookValid || instagramValid then running
       else match readings with [] => running | _ => degraded end)
  ∧ (∀ h, status h ≠ running → status (updates readings h) = status h).
Proof.
  split; [done |]. split; [| intros h; apply updates_status].
  set (h := initialized _ _ _ _ _).
  assert (Hmeta : metaClient h
                  = Some (if facebookValid || instagramValid
                          then healthy else service_error)).
  { subst h. unfold initialized. cbn [setStatus metaClient].
    by rewrite (proj1 (updateHealthStatus_status _ _ _)). }
  destruct (updates_status readings h) as (_ & _ & Hok & Hbad).
  destruct (facebookValid || instagramValid).
  - by apply Hok.
  - destruct readings as [|r rs]; [done |].
    apply Hbad; [done | by rewrite Hmeta | done].
Qed.
End HealthProperties.

(** ** The drain loop *)

Section DrainProperties.
Context {W : Type} {env : Collaborators W}.

Lemma shutdown_drain_bound (n : nat) :
  (∀ w : W, (dateNow w).1 + 1000 <= (dateNow (dateNow w).2).1) →
  ∀ startTime (st : App W),
    shutdownTimeout <= (dateNow (world st)).1 - startTime + 1000 * Z.of_nat n →
    ∃ exiting, shutdown_drain (S n) startTime st = Some exiting
               ∧ activeJobs exiting = ∅
               ∧ cronJobs exiting = cronJobs st
               ∧ tasks exiting = tasks st
               ∧ isShuttingDown exiting = isShuttingDown st.
Proof.
  intros Hclock. induction n as [|n IH]; intros startTime st Hlate.
  - cbn [shutdown_drain]. unfold shutdown_poll.
    case_bool_decide as Hsize.
    + exists st. split_and!; try done. by apply map_size_empty_iff.
    + destruct (dateNow (world st)) as [now w] eqn:Hnow. cbn [fst] in Hlate.
      destruct (Z.ltb_spec (now - startTime) shutdownTimeout); [lia |].
      eexists. split_and!; done.
  - cbn [shutdown_drain]. unfold shutdown_poll.
    case_bool_decide as Hsize.
    + exists st. split_and!; try done. by apply map_size_empty_iff.
    + destruct (dateNow (world st)) as [now w] eqn:Hnow. cbn [fst] in Hlate.
      destruct (Z.ltb_spec (now - startTime) shutdownTimeout).
      * destruct (IH startTime (setWorld w st)) as (exiting & Hrun & Hrest).
        { cbn [world setWorld]. pose proof (Hclock (world st)) as Hstep.
          rewrite Hnow in Hstep. cbn [fst snd] in Hstep. lia. }
        exists exiting. split; [exact Hrun | exact Hrest].
      * eexists. split_and!; done.
Qed.

(** X17.  The drain loop of [shutdown] ends: when the clock has advanced
    by a second or more from one evaluation of its condition to the next
    (the loop waits a second in between) and [startTime] is not after
    the first, the process exits at the thirty-first evaluation at the
    latest, with no active job left on record, whether the jobs have
    finished or not; the registry and the tasks are as the loop found
    them. *)
Theorem shutdown_drain_ends startTime (st : App W) :
  (∀ w : W, (dateNow w).1 + 1000 <= (dateNow (dateNow w).2).1) →
  startTime <= (dateNow (world st)).1 →
  ∃ exiting, shutdown_drain 31 startTime st = Some exiting
             ∧ activeJobs exiting = ∅
             ∧ cronJobs exiting = cronJobs st
             ∧ tasks exiting = tasks st
             ∧ isShuttingDown exiting = isShuttingDown st.
Proof.
  intros Hclock Hstart.
  apply (shutdown_drain_bound 30 Hclock). unfold shutdownTimeout. lia.
Qed.
End DrainProperties.

(** On an input: a job is in flight and never finishes. *)
Lemma shutdown_drain_ends_witness :
  ∃ exiting,
    shutdown_drain (env := Fixture.healthy) 31 Fixture.nineOClock Fixture.draining
    = Some exiting
    ∧ activeJobs exiting = ∅
    ∧ cronJobs exiting = cronJobs Fixture.draining
    ∧ tasks exiting = tasks Fixture.draining
    ∧ isShuttingDown exiting = isShuttingDown Fixture.draining.
Proof.
  apply (shutdown_drain_ends (env := Fixture.healthy)).
  - intros w. cbn. unfold Fixture.clock. cbn. lia.
  - cbn. lia.
Defined.

(** ** Templates without placeholders *)

Section TemplateProperties.
Context {W : Type} {env : Collaborators W}.

Lemma splitFirst_absent c p s :
  JsString.contains c s = false → JsString.splitFirst (String c p) s = None.
Proof.
  induction s as [|d s IH]; [done |].
  cbn [JsString.contains]. intros [Hd Hs]%orb_false_iff.
  rewrite splitFirst_unfold. cbn [JsString.strip]. rewrite Hd, IH by done. done.
Qed.

(** X18.  A text that holds no opening brace goes through
    [processTemplate] as it is, whatever the variables are and whatever
    the random source picks. *)
Theorem processTemplate_without_brace content variables (w : W) :
  JsString.contains "{" content = false →
  (processTemplate content variables w).1 = content.
Proof.
  intros Hcontent. revert w.
  induction variables as [|[key [values |]] rest IH]; intros w; cbn [processTemplate].
  - done.
  - destruct (randomIndex (length values) w) as [i w1].
    unfold JsString.replace.
    change ("{" +:+ key +:+ "}") with (String "{" (key +:+ "}")).
    rewrite splitFirst_absent by done. apply IH.
  - apply IH.
Qed.
End TemplateProperties.

(** On an input: a text with no placeholder. *)
Lemma processTemplate_without_brace_witness :
  (processTemplate (env := Fixture.healthy) "Good morning!"
                   [("name", Post.VArray ["Ann"; "Bob"])] 0%nat).1
  = "Good morning!".
Proof.
  apply (processTemplate_without_brace (env := Fixture.healthy)). reflexivity.
Defined.

(** ** The trigger converter: what the expression tells *)

Section ExpressionFields.
Import JsDate.

Lemma pretty_N_char_nospace y : Ascii.eqb " " (pretty_N_char y) = false.
Proof. unfold pretty_N_char. by repeat case_match. Qed.

Lemma pretty_N_go_nospace x :
  ∀ s, JsString.contains " " (pretty_N_go x s) = JsString.contains " " s.
Proof.
  induction (N.lt_wf_0 x) as [x _ IH]. intros s.
  destruct (decide (x = 0)%N) as [-> | Hx]; [by rewrite pretty_N_go_0 |].
  rewrite pretty_N_go_step by lia.
  rewrite IH by (apply N.div_lt; lia).
  cbn [JsString.contains]. by rewrite pretty_N_char_nospace.
Qed.

Lemma pretty_N_nospace (x : N) : JsString.contains " " (pretty x) = false.
Proof.
  unfold pretty, pretty_N. destruct (decide (x = 0%N)); [done |].
  by rewrite pretty_N_go_nospace.
Qed.

Lemma pretty_Z_nospace (z : Z) : JsString.contains " " (pretty z) = false.
Proof.
  destruct z as [| p | p]; [done | apply pretty_N_nospace |].
  change (pretty (Z.neg p)) with ("-" +:+ pretty (N.pos p)).
  cbn [String.append JsString.contains]. apply pretty_N_nospace.
Qed.

(** Two texts cut at their first space. *)
Lemma append_space_inj a1 a2 r1 r2 :
  JsString.contains " " a1 = false → JsString.contains " " a2 = false →
  a1 +:+ String " " r1 = a2 +:+ String " " r2 → a1 = a2 ∧ r1 = r2.
Proof.
  revert a2. induction a1 as [|c a1 IH]; intros [|d a2] H1 H2 Heq;
    rewrite ?append_nil, ?append_cons in Heq.
  - by injection Heq as ->.
  - injection Heq as <- _. cbn in H2. done.
  - injection Heq as -> _. cbn in H1. done.
  - injection Heq as -> Heq. cbn [JsString.contains] in H1, H2.
    apply orb_false_iff in H1 as [_ H1]. apply orb_false_iff in H2 as [_ H2].
    destruct (IH a2 H1 H2 Heq) as [-> ->]. done.
Qed.

(** X19.  The expression of [dateToCron] tells the four local fields and
    nothing else: two timestamps get the same expression exactly when
    their minute, hour, day of the month and month in the local zone of
    the process are the same; within one local year they are then in the
    same minute. *)
Theorem dateToCron_tells_the_fields (localTZA : Z → Z) t t' zone zone' :
  (dateToCron localTZA (TimeValue t) zone = dateToCron localTZA (TimeValue t') zone'
   ↔ MinFromTime (t + localTZA t) = MinFromTime (t' + localTZA t')
     ∧ HourFromTime (t + localTZA t) = HourFromTime (t' + localTZA t')
     ∧ DateFromTime (t + localTZA t) = DateFromTime (t' + localTZA t')
     ∧ MonthFromTime (t + localTZA t) = MonthFromTime (t' + localTZA t'))
  ∧ (dateToCron localTZA (TimeValue t) zone = dateToCron localTZA (TimeValue t') zone' →
     YearFromTime (t + localTZA t) = YearFromTime (t' + localTZA t') →
     (t + localTZA t) / 60000 = (t' + localTZA t') / 60000).
Proof.
  assert (Hfields :
            dateToCron localTZA (TimeValue t) zone
            = dateToCron localTZA (TimeValue t') zone'
            → MinFromTime (t + localTZA t) = MinFromTime (t' + localTZA t')
              ∧ HourFromTime (t + localTZA t) = HourFromTime (t' + localTZA t')
              ∧ DateFromTime (t + localTZA t) = DateFromTime (t' + localTZA t')
              ∧ MonthFromTime (t + localTZA t) = MonthFromTime (t' + localTZA t')).
  { unfold dateToCron, getMinutes, getHours, getDate, getMonth, getter, LocalTime,
      succ, toString.
    change (?a +:+ " " +:+ ?b) with (a +:+ String " " b).
    intros Heq.
    apply append_space_inj in Heq as [Hmin Heq]; [| apply pretty_Z_nospace ..].
    apply append_space_inj in Heq as [Hhour Heq]; [| apply pretty_Z_nospace ..].
    apply append_space_inj in Heq as [Hday Heq]; [| apply pretty_Z_nospace ..].
    apply append_space_inj in Heq as [Hmonth _]; [| apply pretty_Z_nospace ..].
    apply (inj pretty) in Hmin, Hhour, Hday, Hmonth.
    split_and!; try done. lia. }
  split; [split; [exact Hfields |] |].
  - intros (Hmin & Hhour & Hday & Hmonth).
    unfold dateToCron, getMinutes, getHours, getDate, getMonth, getter, LocalTime.
    by rewrite Hmin, Hhour, Hday, Hmonth.
  - intros Heq Hyear. apply Hfields in Heq as (Hmin & Hhour & Hday & Hmonth).
    pose proof (local_fields (t + localTZA t)) as (_ & _ & _ & _ & H1).
    pose proof (local_fields (t' + localTZA t')) as (_ & _ & _ & _ & H2).
    unfold msPerMinute in H1, H2.
    rewrite H1, H2. cbv zeta. by rewrite Hmin, Hhour, Hday, Hmonth, Hyear.
Qed.
End ExpressionFields.

(** ** Posts to Instagram without an image *)

Section InstagramWithoutImage.
Context {W : Type} {env : Collaborators W}.
Implicit Types (st : App W) (jobId platform : string) (c : Post.config).

Lemma processPlatformContent_no_image content platform (w : W) pc w1 :
  processPlatformContent content [] platform w = (Ok pc, w1) → pc_images pc = [].
Proof.
  unfold processPlatformContent.
  destruct (platformLimits platform) as [| | n]; [discriminate | |].
  - cbn. by intros [= <- _].
  - destruct (n <? _); [discriminate |]. cbn. by intros [= <- _].
Qed.

Lemma processContent_loop_no_image content platforms :
  ∀ acc (w : W) processed w1,
    processContent_loop content [] platforms acc w = (Ok processed, w1) →
    (∀ p pc, obj_get p acc = Some pc → pc_images pc = []) →
    ∀ p pc, obj_get p processed = Some pc → pc_images pc = [].
Proof.
  induction platforms as [|q qs IH]; intros acc w processed w1 Hrun Hacc; cbn in Hrun.
  - by inversion Hrun; subst.
  - destruct (processPlatformContent content [] q w) as [[pc0 | e] w2] eqn:Hq;
      [| discriminate].
    eapply IH; [exact Hrun |].
    intros p pc. rewrite obj_get_set.
    destruct (String.eqb p q); [| apply Hacc].
    intros [= <-]. by eapply processPlatformContent_no_image.
Qed.

Lemma own_obj_set_ne {V} p q (v : V) (o : JsObject V) :
  p ≠ q → own (obj_set q v o) !! p = own o !! p.
Proof.
  intros Hne. unfold obj_set.
  destruct (String.eqb q "__proto__"); cbn; [done |].
  by rewrite lookup_insert_ne.
Qed.

(** A platform whose call fails ends with a failure in the outcome map,
    wherever it stands in the list. *)
Lemma postAll_failed processed p platforms :
  p ≠ "__proto__" →
  (∀ pc (w : W), obj_get p processed = Some pc →
                 isOk (postToPlatform
                         p (mkPostData (pc_content pc)
                                       (match pc_images pc with
                                        | image :: _ => processedPath image
                                        | [] => None
                                        end)) w).1 = false) →
  ∀ results w calls results1 w1 calls1,
    fold_left (postOne processed) platforms (results, w, calls) = (results1, w1, calls1) →
    p ∈ platforms ∨ (∃ e, own results !! p = Some (Failed e)) →
    ∃ e, own results1 !! p = Some (Failed e).
Proof.
  intros Hproto Hfails.
  induction platforms as [|q qs IH]; intros results w calls results1 w1 calls1 Hrun Hp;
    cbn [fold_left] in Hrun.
  - inversion Hrun; subst. destruct Hp as [Hp | Hp]; [by apply elem_of_nil in Hp | done].
  - destruct (postOne processed (results, w, calls) q) as [[results2 w2] calls2] eqn:Hone.
    eapply IH; [exact Hrun |].
    destruct (decide (p = q)) as [<- | Hne].
    + right. unfold postOne in Hone.
      assert (Hset : ∀ v, own (obj_set p v results) !! p = Some v).
      { intros v. unfold obj_set.
        destruct (String.eqb_spec p "__proto__"); [done |]. cbn.
        apply lookup_insert_eq. }
      destruct (obj_get p processed) as [pc |] eqn:Hpc.
      * specialize (Hfails pc w eq_refl).
        destruct (postToPlatform p _ w) as [[id | e] w3]; [discriminate |].
        inversion Hone; subst. eauto.
      * inversion Hone; subst. eauto.
    + destruct Hp as [Hp | [e He]].
      * apply elem_of_cons in Hp as [? | Hp]; [done | by left].
      * right. exists e. unfold postOne in Hone.
        destruct (obj_get q processed) as [pc |].
        -- destruct (postToPlatform q _ w) as [[id | e'] w3];
             inversion Hone; subst; by rewrite own_obj_set_ne.
        -- inversion Hone; subst. by rewrite own_obj_set_ne.
Qed.

(** X20.  A post for Instagram that names no image passes startup
    validation, which does not ask for one, but it is never published
    there: when the client refuses a post without an image, as
    [postToInstagram] does, every execution pass of a descriptor with
    [instagram] among its platforms and no image ends reported as
    failed, whatever the other platforms return. *)
Theorem instagram_post_without_image_is_reported_failed jobId c st platforms :
  (∀ postData (w : W), truthy (imagePath postData) = false →
                       isOk (postToInstagram postData w).1 = false) →
  isShuttingDown st = false →
  Post.platforms c = Some platforms →
  "instagram" ∈ platforms →
  default [] (Post.images c) = [] →
  ∃ new report,
    log (executePost jobId c st) = log st ++ new
    ∧ reports new = [(jobId, false, report)].
Proof.
  intros Hclient Hflag Hps Hin Himages. unfold executePost. rewrite Hflag.
  pose proof (executePost_begin_log jobId c st) as Hlog.
  destruct (executePost_begin jobId c st) as [t st1]. cbn [snd] in Hlog.
  unfold executePost_try.
  destruct (prepareContent c (world st1)) as [[processed | e] w1] eqn:Hprep.
  - rewrite Hps.
    destruct (postAll processed platforms w1) as [[results w2] calls] eqn:Hall.
    destruct (dateNow w2) as [timerEnd w3].
    cbn [executePost_finally log setActiveJobs]. rewrite removeOneTime_log.
    cbn [log emit setWorld]. rewrite Hlog.
    eexists _, _. split; [reflexivity |].
    assert (Hcalls : reports calls = []).
    { eapply postAll_spec in Hall as (_ & Hrep & _); [exact Hrep |].
      by eapply prepareContent_complete. }
    rewrite reports_app, Hcalls. cbn. repeat f_equal.
    assert (Hnone : ∀ p pc, obj_get p processed = Some pc → pc_images pc = []).
    { unfold prepareContent in Hprep.
      destruct (loadContent c (world st1)) as [[content | e] w0]; [| discriminate].
      unfold processContent in Hprep. rewrite Hps in Hprep.
      destruct (Post.images c) as [l |]; cbn in Himages; subst;
        eapply processContent_loop_no_image; try exact Hprep; intros p pc; cbn;
        unfold obj_get; cbn; destruct (String.eqb p "__proto__");
        try done; by rewrite lookup_empty. }
    unfold postAll in Hall.
    eapply (postAll_failed processed "instagram") in Hall as [e He];
      [| done | | by left].
    + destruct (forallb success (obj_values results)) eqn:Hsuccess; [| done].
      rewrite forallb_success_values in Hsuccess.
      by specialize (Hsuccess _ _ He).
    + intros pc w Hpc. rewrite (Hnone _ _ Hpc).
      unfold postToPlatform.
      replace (String.eqb "instagram" "facebook") with false by reflexivity.
      replace (String.eqb "instagram" "instagram") with true by reflexivity.
      by apply Hclient.
  - destruct (executePost_catch_log jobId c t e (setWorld w1 st1)) as [d Hcatch].
    cbn [executePost_finally log setActiveJobs]. rewrite Hcatch.
    cbn [log setWorld]. rewrite Hlog. by eexists _, _.
Qed.
End InstagramWithoutImage.

(** On an input: the engine with the client of meta-client.js, and a post
    for both platforms that passes validation and names no image. *)
Lemma instagram_post_without_image_is_reported_failed_witness :
  Validators.validateScheduleConfig
    (libraries := Fixture.libraries)
    (Some (mkSchedule (Some [Scenario.caption]) None None)) = true
  ∧ ∃ new report,
      log (executePost (env := Scenario.withClient) "post_caption" Scenario.caption
                       (newApp (Scenario.state 0)))
      = [] ++ new
      ∧ reports new = [("post_caption", false, report)].
Proof.
  split; [vm_compute; reflexivity |].
  apply (instagram_post_without_image_is_reported_failed
           (env := Scenario.withClient) "post_caption" Scenario.caption
           (newApp (Scenario.state 0)) ["facebook"; "instagram"]).
  - intros postData st Himage. cbn.
    pose proof (postToInstagram_refuses (out := Scenario.answered) postData st Himage)
      as Hrefused.
    by destruct (MetaClient.postToInstagram postData st) as [[id | e] st1].
  - reflexivity.
  - reflexivity.
  - set_solver.
  - reflexivity.
Defined.
